(** * Offline-first data layer of the emergency-triage PWA

    A shallow embedding of the service worker (src/sw.js, revision v2.1.0)
    and of the foreground bridge and backup code of src/app.js.

    The browser is the environment: the network, the clock and the outcome
    of every IndexedDB request are oracles of an [Env]; everything the
    worker owns (cache storage, the patients object store, the messages it
    posts) lives in a [World] threaded through a state-and-exception monad
    that plays the role of [async]/[await] with [try]/[catch]. *)

From Stdlib Require Import String Ascii DecimalString List Bool Arith PeanoNat Lia.
From Stdlib Require Import Sorted OrderedTypeEx.
Import ListNotations.
Open Scope string_scope.
Open Scope list_scope.

(** ** Values shared by the worker and the page *)

(** [error.message] of a thrown value. *)
Definition Error := string.

(** A settled promise. *)
Inductive Outcome (A : Type) : Type :=
| Fulfilled (a : A)
| Rejected (e : Error).
Arguments Fulfilled {A} a.
Arguments Rejected {A} e.

(** A captured [Response]: status line, Content-Type header, body text. *)
Record Response := mkResponse {
  status : nat;
  contentType : string;
  body : string
}.

(** [response.ok] *)
Definition ok (r : Response) : bool :=
  (200 <=? status r)%nat && (status r <=? 299)%nat.

(** The parts of a [Request] (and of [new URL(request.url)]) that the
    fetch listener looks at. *)
Record Request := mkRequest {
  method : string;
  url : string;
  protocol : string;
  pathname : string;
  origin : string;
  mode : string;
  destination : string
}.

(** A patient record as stored: the key path [id], the three fields the
    worker writes, and the remaining fields (name, vital signs, priority,
    ...) as they came from the page.  [None] is an absent field. *)
Record Patient := mkPatient {
  id : string;
  syncStatus : option string;
  updatedAt : option string;
  syncedAt : option string;
  details : list (string * string)
}.

Definition with_syncStatus (s : option string) (p : Patient) : Patient :=
  mkPatient (id p) s (updatedAt p) (syncedAt p) (details p).
Definition with_updatedAt (t : option string) (p : Patient) : Patient :=
  mkPatient (id p) (syncStatus p) t (syncedAt p) (details p).
Definition with_syncedAt (t : option string) (p : Patient) : Patient :=
  mkPatient (id p) (syncStatus p) (updatedAt p) t (details p).

(** [{ type: 'SYNC_COMPLETE', data: { syncedCount } }] *)
Inductive ClientMsg :=
| SYNC_COMPLETE (syncedCount : nat).

(** What a reply on the message port carries besides [success]/[error]. *)
Inductive ReplyData :=
| NoData
| PatientList (l : list Patient)
| Cleared (n : nat)
| Exported (l : list Patient) (exportedAt : string).

(** The reply envelope [{ success, data?, error? }]. *)
Record Reply := mkReply {
  success : bool;
  data : ReplyData;
  error : option string
}.

(** ** Cache API *)

(** A cache keeps its entries in insertion order, one per request URL. *)
Definition Cache := list (string * Response).

Definition cache_keys (c : Cache) : list string := map fst c.

Definition cache_match (k : string) (c : Cache) : option Response :=
  option_map snd (find (fun e => fst e =? k) c).

Definition cache_delete (k : string) (c : Cache) : Cache :=
  filter (fun e => negb (fst e =? k)) c.

(** [cache.put] replaces a matching entry; the new one goes last. *)
Definition cache_put (k : string) (r : Response) (c : Cache) : Cache :=
  cache_delete k c ++ [(k, r)].

(** [CacheStorage]: named caches in creation order. *)
Definition CacheStorage := list (string * Cache).

Definition storage_keys (cs : CacheStorage) : list string := map fst cs.

Definition storage_has (name : string) (cs : CacheStorage) : bool :=
  existsb (fun e => fst e =? name) cs.

Definition storage_get (name : string) (cs : CacheStorage) : Cache :=
  match find (fun e => fst e =? name) cs with
  | Some e => snd e
  | None => []
  end.

(** [caches.open] creates the cache when there is none of that name. *)
Definition storage_open (name : string) (cs : CacheStorage) : CacheStorage :=
  if storage_has name cs then cs else cs ++ [(name, [])].

Definition storage_update (name : string) (f : Cache -> Cache)
  (cs : CacheStorage) : CacheStorage :=
  map (fun e => if fst e =? name then (fst e, f (snd e)) else e) cs.

Definition storage_delete (name : string) (cs : CacheStorage) : CacheStorage :=
  filter (fun e => negb (fst e =? name)) cs.

(** [caches.match] looks into every cache, oldest cache first. *)
Fixpoint storage_match (k : string) (cs : CacheStorage) : option Response :=
  match cs with
  | [] => None
  | (_, c) :: rest =>
      match cache_match k c with
      | Some r => Some r
      | None => storage_match k rest
      end
  end.

(** ** The patients object store *)

(** An object store is ordered by key; [put] replaces the record of the
    same key. *)
Fixpoint store_put (p : Patient) (db : list Patient) : list Patient :=
  match db with
  | [] => [p]
  | q :: rest =>
      match String.compare (id p) (id q) with
      | Lt => p :: q :: rest
      | Eq => p :: rest
      | Gt => q :: store_put p rest
      end
  end.

Definition store_get (k : string) (db : list Patient) : option Patient :=
  find (fun q => id q =? k) db.

Definition is_pending (p : Patient) : bool :=
  match syncStatus p with
  | Some s => s =? "pending"
  | None => false
  end.

(** [index('syncStatus').getAll('pending')] *)
Definition store_pending (db : list Patient) : list Patient :=
  filter is_pending db.

(** ** Environment and world *)

Record Env := mkEnv {
  (** [fetch(url)]: a response (of any status) or a network failure *)
  network : string -> Outcome Response;
  (** the text of the k-th [new Date().toISOString()] *)
  date_at : nat -> string;
  (** the error of the k-th IndexedDB request, [None] when it succeeds *)
  idb_error : nat -> option Error;
  (** whether [cache.put] of this response fails (quota, status 206, ...) *)
  put_error : Response -> option Error
}.

Record World := mkWorld {
  caches : CacheStorage;
  patients : list Patient;
  dates_read : nat;
  idb_requests : nat;
  net_log : list string;
  clients : list nat;
  outbox : list (nat * ClientMsg);
  replies : list Reply;
  skipped_waiting : bool;
  clients_claimed : bool
}.

Definition set_caches (f : CacheStorage -> CacheStorage) (w : World) : World :=
  mkWorld (f (caches w)) (patients w) (dates_read w) (idb_requests w)
    (net_log w) (clients w) (outbox w) (replies w) (skipped_waiting w)
    (clients_claimed w).
Definition set_patients (f : list Patient -> list Patient) (w : World) : World :=
  mkWorld (caches w) (f (patients w)) (dates_read w) (idb_requests w)
    (net_log w) (clients w) (outbox w) (replies w) (skipped_waiting w)
    (clients_claimed w).
Definition tick_date (w : World) : World :=
  mkWorld (caches w) (patients w) (S (dates_read w)) (idb_requests w)
    (net_log w) (clients w) (outbox w) (replies w) (skipped_waiting w)
    (clients_claimed w).
Definition tick_idb (w : World) : World :=
  mkWorld (caches w) (patients w) (dates_read w) (S (idb_requests w))
    (net_log w) (clients w) (outbox w) (replies w) (skipped_waiting w)
    (clients_claimed w).
Definition log_fetch (us : list string) (w : World) : World :=
  mkWorld (caches w) (patients w) (dates_read w) (idb_requests w)
    (net_log w ++ us) (clients w) (outbox w) (replies w) (skipped_waiting w)
    (clients_claimed w).
Definition send_client (c : nat) (m : ClientMsg) (w : World) : World :=
  mkWorld (caches w) (patients w) (dates_read w) (idb_requests w)
    (net_log w) (clients w) (outbox w ++ [(c, m)]) (replies w)
    (skipped_waiting w) (clients_claimed w).
Definition send_reply (r : Reply) (w : World) : World :=
  mkWorld (caches w) (patients w) (dates_read w) (idb_requests w)
    (net_log w) (clients w) (outbox w) (replies w ++ [r])
    (skipped_waiting w) (clients_claimed w).
Definition set_skipped_waiting (w : World) : World :=
  mkWorld (caches w) (patients w) (dates_read w) (idb_requests w)
    (net_log w) (clients w) (outbox w) (replies w) true (clients_claimed w).
Definition set_clients_claimed (w : World) : World :=
  mkWorld (caches w) (patients w) (dates_read w) (idb_requests w)
    (net_log w) (clients w) (outbox w) (replies w) (skipped_waiting w) true.

(** ** The async monad *)

Definition M (A : Type) : Type := World -> Outcome A * World.

Definition ret {A} (a : A) : M A := fun w => (Fulfilled a, w).

Definition throw {A} (e : Error) : M A := fun w => (Rejected e, w).

Definition bind {A B} (m : M A) (k : A -> M B) : M B :=
  fun w =>
    match m w with
    | (Fulfilled a, w') => k a w'
    | (Rejected e, w') => (Rejected e, w')
    end.

(** [try { m } catch (e) { h e }] *)
Definition try_catch {A} (m : M A) (h : Error -> M A) : M A :=
  fun w =>
    match m w with
    | (Fulfilled a, w') => (Fulfilled a, w')
    | (Rejected e, w') => h e w'
    end.

Definition modify (f : World -> World) : M unit := fun w => (Fulfilled tt, f w).

Definition gets {A} (f : World -> A) : M A := fun w => (Fulfilled (f w), w).

Declare Scope async_scope.
Delimit Scope async_scope with async.
Notation "x <- m ;; k" := (bind m (fun x => k))
  (at level 100, m at next level, right associativity) : async_scope.
Notation "m ;; k" := (bind m (fun _ => k))
  (at level 100, right associativity) : async_scope.
Open Scope async_scope.

(** [for (const x of l) { await body(x) }] *)
Fixpoint for_each {A} (l : list A) (body : A -> M unit) : M unit :=
  match l with
  | [] => ret tt
  | x :: rest => body x ;; for_each rest body
  end.

Definition result {A} (x : Outcome A * World) : Outcome A := fst x.
Definition after {A} (x : Outcome A * World) : World := snd x.

(** ** JSON.stringify

    The fragment of JSON the worker serialises: no numbers. *)

#[local] Unset Elimination Schemes.
Inductive json :=
| JNull
| JBool (b : bool)
| JString (s : string)
| JArray (items : list json)
| JObject (fields : list (string * json)).
#[local] Set Elimination Schemes.

Definition hex_digit (n : nat) : ascii :=
  nth n (list_ascii_of_string "0123456789abcdef") "0"%char.

(** One code unit of QuoteJSONString. *)
Definition escape_char (c : ascii) : string :=
  let n := nat_of_ascii c in
  if (n =? 34)%nat then String "092"%char (String c EmptyString)
  else if (n =? 92)%nat then "\\"
  else if (n =? 8)%nat then "\b"
  else if (n =? 9)%nat then "\t"
  else if (n =? 10)%nat then "\n"
  else if (n =? 12)%nat then "\f"
  else if (n =? 13)%nat then "\r"
  else if (n <? 32)%nat then
    "\u00" ++ String (hex_digit (n / 16)) (String (hex_digit (n mod 16)) EmptyString)
  else String c EmptyString.

Fixpoint escape (s : string) : string :=
  match s with
  | EmptyString => EmptyString
  | String c rest => (escape_char c ++ escape rest)%string
  end.

Definition dquote : string := String "034"%char EmptyString.

Definition quote (s : string) : string := (dquote ++ escape s ++ dquote)%string.

Fixpoint JSON_stringify (v : json) : string :=
  match v with
  | JNull => "null"
  | JBool true => "true"
  | JBool false => "false"
  | JString s => quote s
  | JArray items =>
      ("[" ++ String.concat "," (map JSON_stringify items) ++ "]")%string
  | JObject fields =>
      ("{" ++ String.concat ","
               (map (fun kv => let '(k, x) := kv in
                               (quote k ++ ":" ++ JSON_stringify x)%string)
                    fields)
           ++ "}")%string
  end.

Definition json_field (k : string) (v : json) : option json :=
  match v with
  | JObject fields => option_map snd (find (fun kv => fst kv =? k) fields)
  | _ => None
  end.

(** [String.prototype.includes] *)
Definition includes (needle s : string) : bool :=
  match index 0 needle s with
  | Some _ => true
  | None => false
  end.

(** ** The service worker, src/sw.js *)

Definition CACHE_VERSION : string := "v2.1.0".
Definition CACHE_NAME : string := ("upline-triage-" ++ CACHE_VERSION)%string.
Definition DYNAMIC_CACHE : string := "upline-dynamic-v2".
Definition OFFLINE_URL : string := "/offline.html".

Definition urlsToCache : list string :=
  [ "/"; "/index.html"; "/manifest.json"; "/styles.css"; "/app.js";
    "/icon-192.png"; "/icon-512.png"; "/icons/icon-72x72.png";
    "/icons/icon-96x96.png"; "/icons/icon-128x128.png";
    "/icons/icon-144x144.png"; "/icons/icon-152x152.png"; "/offline.html" ].

(** The page [navigationFirstStrategy] writes itself when nothing is
    cached; the markup is abridged to its title. *)
Definition generated_offline_page : Response :=
  mkResponse 200 "text/html" "<title>Offline - Emergency Triage</title>".

Definition offline_api_body (timestamp : string) : json :=
  JObject [ ("error", JString "You are offline");
            ("timestamp", JString timestamp);
            ("cache", JString "miss") ].

Definition image_placeholder : Response :=
  mkResponse 200 "image/svg+xml" "<svg>Image not available offline</svg>".

Definition network_error_response : Response :=
  mkResponse 408 "text/plain" "Network error".

(** The two ways a worker leaves the installing state: the promise given
    to [event.waitUntil] fulfils, or it rejects. *)
Inductive InstallResult := Installed | InstallFailed.

Inductive Strategy := ApiFirst | NavigationFirst | CacheFirst | NetworkFirst.

(** [event.data] of a message event: [{ type, data: { patient } }]. *)
Record MsgData := mkMsgData { patient : option Patient }.
Record Envelope := mkEnvelope {
  msg_type : string;
  msg_data : option MsgData
}.

Section ServiceWorker.

Variable E : Env.

(** *** Platform calls *)

Definition fetch (u : string) : M Response :=
  fun w => (network E u, log_fetch [u] w).

Definition caches_open (name : string) : M unit :=
  modify (set_caches (storage_open name)).

Definition cache_put_in (name k : string) (r : Response) : M unit :=
  fun w =>
    match put_error E r with
    | Some e => (Rejected e, w)
    | None => (Fulfilled tt, set_caches (storage_update name (cache_put k r)) w)
    end.

Definition cache_delete_in (name k : string) : M unit :=
  modify (set_caches (storage_update name (cache_delete k))).

Definition caches_match (k : string) : M (option Response) :=
  gets (fun w => storage_match k (caches w)).

Definition caches_delete (name : string) : M unit :=
  modify (set_caches (storage_delete name)).

Definition new_Date : M string :=
  fun w => (Fulfilled (date_at E (dates_read w)), tick_date w).

(** One IndexedDB request: [onsuccess] or [onerror]. *)
Definition idb_request : M unit :=
  fun w =>
    match idb_error E (idb_requests w) with
    | Some e => (Rejected e, tick_idb w)
    | None => (Fulfilled tt, tick_idb w)
    end.

(** [cache.addAll]: every URL is fetched; one failure or one response
    that is not ok rejects the call and nothing is stored. *)
Definition fetched_ok (u : string) : option (string * Response) :=
  match network E u with
  | Fulfilled r => if ok r then Some (u, r) else None
  | Rejected _ => None
  end.

Fixpoint collect_all (urls : list string) : option (list (string * Response)) :=
  match urls with
  | [] => Some []
  | u :: rest =>
      match fetched_ok u, collect_all rest with
      | Some e, Some es => Some (e :: es)
      | _, _ => None
      end
  end.

Definition cache_addAll (name : string) (urls : list string) : M unit :=
  modify (log_fetch urls) ;;
  match collect_all urls with
  | Some es =>
      modify (set_caches (storage_update name
        (fun c => fold_left (fun c e => cache_put (fst e) (snd e) c) es c)))
  | None => throw "TypeError: Failed to execute 'addAll' on 'Cache': Request failed"
  end.

(** *** install (sw.js 25-42), activate (sw.js 45-65) *)

Definition install_handler : M unit :=
  try_catch
    (caches_open CACHE_NAME ;;
     cache_addAll CACHE_NAME urlsToCache ;;
     modify set_skipped_waiting)
    (fun _error => ret tt).

Definition install_result (x : Outcome unit * World) : InstallResult :=
  match result x with
  | Fulfilled _ => Installed
  | Rejected _ => InstallFailed
  end.

Definition is_old_cache (cacheName : string) : bool :=
  negb (cacheName =? CACHE_NAME) && negb (cacheName =? DYNAMIC_CACHE)
  && prefix "upline-triage-" cacheName.

Definition activate_handler : M unit :=
  cacheNames <- gets (fun w => storage_keys (caches w)) ;;
  for_each cacheNames
    (fun cacheName =>
       if is_old_cache cacheName then caches_delete cacheName else ret tt) ;;
  modify set_clients_claimed.

(** *** fetch strategies (sw.js 68-259) *)

Definition apiFirstStrategy (req : Request) : M Response :=
  try_catch
    (response <- fetch (url req) ;;
     (if ok response
      then (caches_open DYNAMIC_CACHE ;;
            cache_put_in DYNAMIC_CACHE (url req) response)
      else ret tt) ;;
     ret response)
    (fun _error =>
       cachedResponse <- caches_match (url req) ;;
       match cachedResponse with
       | Some r => ret r
       | None =>
           timestamp <- new_Date ;;
           ret (mkResponse 200 "application/json"
                  (JSON_stringify (offline_api_body timestamp)))
       end).

Definition navigationFirstStrategy (req : Request) : M Response :=
  try_catch
    (response <- fetch (url req) ;;
     caches_open DYNAMIC_CACHE ;;
     cache_put_in DYNAMIC_CACHE (url req) response ;;
     ret response)
    (fun _error =>
       cachedResponse <- caches_match (url req) ;;
       match cachedResponse with
       | Some r => ret r
       | None =>
           offlineResponse <- caches_match OFFLINE_URL ;;
           match offlineResponse with
           | Some r => ret r
           | None => ret generated_offline_page
           end
       end).

Definition updateCache (req : Request) : M unit :=
  caches_open DYNAMIC_CACHE ;;
  response <- fetch (url req) ;;
  if ok response then cache_put_in DYNAMIC_CACHE (url req) response else ret tt.

Definition cacheFirstStrategy (req : Request) : M Response :=
  cachedResponse <- caches_match (url req) ;;
  match cachedResponse with
  | Some r =>
      try_catch (updateCache req) (fun _ => ret tt) ;;
      ret r
  | None =>
      try_catch
        (response <- fetch (url req) ;;
         (if ok response
          then (caches_open DYNAMIC_CACHE ;;
                cache_put_in DYNAMIC_CACHE (url req) response)
          else ret tt) ;;
         ret response)
        (fun _error =>
           if destination req =? "image" then ret image_placeholder
           else ret network_error_response)
  end.

Definition networkFirstStrategy (req : Request) : M Response :=
  try_catch
    (response <- fetch (url req) ;;
     (if ok response
      then (caches_open DYNAMIC_CACHE ;;
            cache_put_in DYNAMIC_CACHE (url req) response)
      else ret tt) ;;
     ret response)
    (fun error =>
       cachedResponse <- caches_match (url req) ;;
       match cachedResponse with
       | Some r => ret r
       | None => throw error
       end).

(** The fetch listener: which strategy answers, [None] when the worker
    does not call [respondWith]. *)
Definition classify (self_origin : string) (req : Request) : option Strategy :=
  if negb (method req =? "GET") then None
  else if protocol req =? "chrome-extension:" then None
  else if includes "/api/" (pathname req) then Some ApiFirst
  else if mode req =? "navigate" then Some NavigationFirst
  else if origin req =? self_origin then Some CacheFirst
  else Some NetworkFirst.

Definition run_strategy (s : Strategy) : Request -> M Response :=
  match s with
  | ApiFirst => apiFirstStrategy
  | NavigationFirst => navigationFirstStrategy
  | CacheFirst => cacheFirstStrategy
  | NetworkFirst => networkFirstStrategy
  end.

(** What the fetch listener hands to [event.respondWith]. *)
Definition on_fetch (self_origin : string) (req : Request) : option (M Response) :=
  option_map (fun s => run_strategy s req) (classify self_origin req).

(** *** cleanupCache (sw.js 262-274) *)

Definition cleanupCache : M unit :=
  caches_open DYNAMIC_CACHE ;;
  keys <- gets (fun w => cache_keys (storage_get DYNAMIC_CACHE (caches w))) ;;
  if (100 <? List.length keys)%nat then
    let itemsToDelete := firstn (List.length keys - 100) keys in
    for_each itemsToDelete (fun key => cache_delete_in DYNAMIC_CACHE key)
  else ret tt.

(** *** IndexedDB: the patients store (sw.js 283-422) *)

(** [indexedDB.open]; the stores and indices exist after the upgrade. *)
Definition openDatabase : M unit := idb_request.

(** [patient.syncStatus || 'pending']: the empty string is falsy too. *)
Definition or_pending (s : option string) : string :=
  match s with
  | Some v => if v =? EmptyString then "pending" else v
  | None => "pending"
  end.

Definition savePatient (p : Patient) : M string :=
  openDatabase ;;
  now <- new_Date ;;
  let stamped :=
    with_updatedAt (Some now)
      (with_syncStatus (Some (or_pending (syncStatus p))) p) in
  idb_request ;;
  modify (set_patients (store_put stamped)) ;;
  ret (id stamped).

Definition getAllPatients : M (list Patient) :=
  openDatabase ;;
  idb_request ;;
  gets patients.

Definition getPendingPatients : M (list Patient) :=
  openDatabase ;;
  idb_request ;;
  gets (fun w => store_pending (patients w)).

Definition mark_synced (now : string) (p : Patient) : Patient :=
  with_syncedAt (Some now) (with_syncStatus (Some "synced") p).

Definition markAsSynced (patientId : string) : M unit :=
  openDatabase ;;
  idb_request ;;
  found <- gets (fun w => store_get patientId (patients w)) ;;
  match found with
  | Some p =>
      now <- new_Date ;;
      idb_request ;;
      modify (set_patients (store_put (mark_synced now p)))
  | None => ret tt
  end.

Definition postMessage (m : ClientMsg) (client : nat) : M unit :=
  modify (send_client client m).

Definition syncPendingData : M unit :=
  try_catch
    (pendingPatients <- getPendingPatients ;;
     if (List.length pendingPatients =? 0)%nat then ret tt
     else
       (for_each pendingPatients (fun p => markAsSynced (id p)) ;;
        cs <- gets clients ;;
        for_each cs (postMessage (SYNC_COMPLETE (List.length pendingPatients)))))
    (fun _error => ret tt).

(** *** message listener (sw.js 428-499) *)

Definition reply (r : Reply) : M unit := modify (send_reply r).

Definition reply_ok (d : ReplyData) : Reply := mkReply true d None.
Definition reply_error (e : Error) : Reply := mkReply false NoData (Some e).

Definition type_error : Error :=
  "TypeError: Cannot read properties of undefined".

(** [store.put] inside the CLEAR_PENDING_DATA callback: the request is
    issued and not awaited; the answer says whether it succeeded. *)
Definition put_unawaited (p : Patient) : M bool :=
  fun w =>
    match idb_error E (idb_requests w) with
    | Some _ => (Fulfilled false, tick_idb w)
    | None => (Fulfilled true, set_patients (store_put p) (tick_idb w))
    end.

Fixpoint clear_puts (pendingPatients : list Patient) : M bool :=
  match pendingPatients with
  | [] => ret true
  | p :: rest =>
      now <- new_Date ;;
      done <- put_unawaited (mark_synced now p) ;;
      others <- clear_puts rest ;;
      ret (done && others)
  end.

(** [request.onsuccess] of CLEAR_PENDING_DATA.  A put that fails has no
    handler, so its transaction aborts and the store is rolled back. *)
Definition clear_onsuccess : M unit :=
  before <- gets patients ;;
  let pendingPatients := store_pending before in
  committed <- clear_puts pendingPatients ;;
  reply (reply_ok (Cleared (List.length pendingPatients))) ;;
  if committed then ret tt else modify (set_patients (fun _ => before)).

(** The read of the pending records has [onsuccess] only: when the
    request fails nothing runs. *)
Definition clear_pending : M unit :=
  openDatabase ;;
  fun w =>
    match idb_error E (idb_requests w) with
    | Some _ => (Fulfilled tt, tick_idb w)
    | None => try_catch clear_onsuccess (fun _ => ret tt) (tick_idb w)
    end.

Definition on_message (ev : Envelope) : M unit :=
  let type := msg_type ev in
  try_catch
    (if type =? "SAVE_PATIENT" then
       (match msg_data ev with
        | None => throw type_error
        | Some d =>
            match patient d with
            | Some p => savePatient p ;; ret tt
            | None => openDatabase ;; throw type_error
            end
        end) ;;
       reply (reply_ok NoData)
     else if type =? "GET_PATIENTS" then
       ps <- getAllPatients ;;
       reply (reply_ok (PatientList ps))
     else if type =? "GET_PENDING_DATA" then
       pending <- getPendingPatients ;;
       reply (reply_ok (PatientList pending))
     else if type =? "CLEAR_PENDING_DATA" then
       clear_pending
     else if type =? "EXPORT_DATA" then
       allData <- getAllPatients ;;
       exportedAt <- new_Date ;;
       reply (reply_ok (Exported allData exportedAt))
     else if type =? "PERFORM_SYNC" then
       syncPendingData ;;
       reply (reply_ok NoData)
     else
       reply (reply_error ("Unknown message type: " ++ type)%string))
    (fun error => reply (reply_error error)).

End ServiceWorker.

(** ** The earlier worker, src/unnamed/part_000

    Its install listener has the same chain without the [catch]. *)
Module PreviousRevision.

Definition CACHE_NAME : string := "upline-triage-v2".

Definition urlsToCache : list string :=
  [ "/"; "/index.html"; "/manifest.json"; "/styles.css"; "/app.js";
    "/icon-192.png"; "/icon-512.png" ].

Definition install_handler (E : Env) : M unit :=
  caches_open CACHE_NAME ;;
  cache_addAll E CACHE_NAME urlsToCache ;;
  modify set_skipped_waiting.

End PreviousRevision.

(** ** The page, src/app.js *)

(** *** sendMessageToSW (app.js 2080-2100) *)

Definition TIMEOUT_MS : nat := 5000.

Definition timeout_reply : Reply := mkReply false NoData (Some "Timeout").

(** The promise the call returns; [resolve] settles it once. *)
Inductive Promise :=
| Unsettled
| Settled (v : Reply).

Definition resolve (v : Reply) (p : Promise) : Promise :=
  match p with
  | Unsettled => Settled v
  | Settled _ => p
  end.

(** What the page's event loop runs after the call: a message arriving
    on [port1], or the callback of [setTimeout]. *)
Inductive Task :=
| PortMessage (r : Reply)
| TimerFired.

Definition run_task (p : Promise) (t : Task) : Promise :=
  match t with
  | PortMessage r => resolve r p
  | TimerFired => resolve timeout_reply p
  end.

(** The tasks in the order they run.  [deliveries] are the messages that
    reach [port1], each with its arrival time in milliseconds after the
    call, in arrival order; the timer is due at [TIMEOUT_MS].  Which of a
    message and the timer runs first when both are due at the same
    millisecond is the browser's choice, [timer_first]. *)
Definition before_timer (timer_first : bool) (t : nat) : bool :=
  (t <? TIMEOUT_MS)%nat || (negb timer_first && (t =? TIMEOUT_MS)%nat).

Fixpoint task_queue (timer_first : bool) (deliveries : list (nat * Reply))
  : list Task :=
  match deliveries with
  | [] => [TimerFired]
  | (t, r) :: rest =>
      if before_timer timer_first t
      then PortMessage r :: task_queue timer_first rest
      else TimerFired :: map (fun d => PortMessage (snd d)) deliveries
  end.

(** What the caller of [sendMessageToSW] gets: [null], the value the
    promise settled with, or nothing as long as it stays unsettled. *)
Inductive Answer :=
| Null
| Value (r : Reply)
| NoAnswer.

Definition sendMessageToSW (controller timer_first : bool)
  (deliveries : list (nat * Reply)) : Answer :=
  if negb controller then Null
  else
    match fold_left run_task (task_queue timer_first deliveries) Unsettled with
    | Settled v => Value v
    | Unsettled => NoAnswer
    end.

(** A reply of the envelope's two shapes: success with a payload, or
    failure with an error message. *)
Definition well_formed_reply (r : Reply) : Prop :=
  (success r = true /\ error r = None)
  \/ (success r = false /\ exists e, error r = Some e).

(** *** exportData (app.js 927-950), importData (app.js 952-1000) *)

Record Metadata := mkMetadata {
  exportedAt : string;
  totalPatients : nat;
  appVersion : string;
  user : string
}.

Record ExportDocument := mkExportDocument {
  doc_patients : list Patient;
  doc_metadata : Metadata
}.

(** An entry of the [patients] array of a chosen file: a patient record
    (an object with a string [id], as every record of the page is), or
    [null], of which reading [p.id] throws.  Arrays holding values of
    other kinds are outside this type. *)
Inductive Entry :=
| Rec (p : Patient)
| NullEntry.

(** What [JSON.parse] makes of the text of a chosen file: it throws, or
    it gives a value whose [patients] field is an array ([Some]) or is
    falsy or no array ([None]).  The text [exportData] writes parses back
    to the document it was made from ([file_of]). *)
Inductive FileContent :=
| NotJson
| Parsed (patients_field : option (list Entry)).

Definition file_of (d : ExportDocument) : FileContent :=
  Parsed (Some (map Rec (doc_patients d))).

Record App := mkApp {
  app_patients : list Patient;
  currentUser : string;
  local_storage : option (list Patient);
  notifications : list string
}.

Definition showNotification (m : string) (a : App) : App :=
  mkApp (app_patients a) (currentUser a) (local_storage a) (notifications a ++ [m]).

(** [saveToStorage('upline-patients', this.patients)]; [quota_ok] says
    whether [localStorage.setItem] goes through. *)
Definition saveToStorage (quota_ok : bool) (a : App) : App :=
  if quota_ok
  then mkApp (app_patients a) (currentUser a) (Some (app_patients a)) (notifications a)
  else showNotification "Error saving data" a.

(** A number inside a template literal. *)
Definition string_of_nat (n : nat) : string :=
  NilEmpty.string_of_uint (Nat.to_uint n).

Definition exportData (now : string) (a : App) : ExportDocument * App :=
  (mkExportDocument (app_patients a)
     (mkMetadata now (List.length (app_patients a)) "1.0.0" (currentUser a)),
   showNotification "Data exported successfully" a).

(** The filter of [importData]: a record passes when its id was not seen
    before; on a [null] entry the callback throws ([None]). *)
Fixpoint remove_duplicates (uniqueIds : list string) (ps : list Entry)
  : option (list Patient) :=
  match ps with
  | [] => Some []
  | NullEntry :: _ => None
  | Rec p :: rest =>
      if existsb (String.eqb (id p)) uniqueIds
      then remove_duplicates uniqueIds rest
      else option_map (cons p) (remove_duplicates (id p :: uniqueIds) rest)
  end.

(** The page after [importData].  The merged array is assigned to
    [this.patients] before it is filtered: when the filter throws, the
    page is left holding the merged array [patients_now], unfiltered and
    not saved; [page] has the other fields. *)
Inductive ImportResult :=
| Finished (page : App)
| Unfiltered (patients_now : list Entry) (page : App).

Definition importData (quota_ok : bool) (file : FileContent) (a : App)
  : ImportResult :=
  match file with
  | Parsed (Some incoming) =>
      let merged := incoming ++ map Rec (app_patients a) in
      match remove_duplicates [] merged with
      | Some unique =>
          Finished
            (showNotification
               ("Imported " ++ string_of_nat (List.length incoming) ++ " patients")%string
               (saveToStorage quota_ok
                  (mkApp unique (currentUser a) (local_storage a) (notifications a))))
      | None =>
          Unfiltered merged
            (showNotification "Failed to import data: Invalid format" a)
      end
  | _ => Finished (showNotification "Failed to import data: Invalid format" a)
  end.

(** Same records, in any order. *)
Definition same_records (l1 l2 : list Patient) : Prop :=
  forall p, In p l1 <-> In p l2.

Definition empty_app (u : string) : App := mkApp [] u None [].
From Stdlib Require Import ZArith.

(** ** The object the bridge posts (app.js 2092-2095)

    [{ type, ...data }]: the argument of the call is spread into the
    posted object beside [type].  A key of the argument becomes a key of
    the posted object, so the object has a [data] field only when the
    argument has one, and a [type] key of the argument replaces the
    message type. *)
Record CallArgument := mkCallArgument {
  arg_type : option string;
  arg_patient : option Patient;
  arg_data : option MsgData
}.

Definition posted_message (type : string) (arg : CallArgument) : Envelope :=
  mkEnvelope
    (match arg_type arg with Some t => t | None => type end)
    (arg_data arg).

(** ** The page, continued *)

(** *** calculatePriorityFromVitals (app.js 409-438)

    The four readings as [parseInt] returns them: an integer, or [None]
    for NaN. *)
Record Readings := mkReadings {
  heartRate : option Z;
  bloodPressureSystolic : option Z;
  oxygenSaturation : option Z;
  respiratoryRate : option Z
}.

(** [parseInt(x) || d]: NaN and 0 are falsy. *)
Definition or_number (v : option Z) (d : Z) : Z :=
  match v with
  | Some n => if (n =? 0)%Z then d else n
  | None => d
  end.

(** [if (c) score += n] *)
Definition add_if (c : bool) (n score : Z) : Z :=
  if c then (score + n)%Z else score.

Definition vitals_score (patientData : Readings) : Z :=
  let score := 0%Z in
  let hr := or_number (heartRate patientData) 80 in
  let score := add_if ((hr <? 50)%Z || (120 <? hr)%Z) 2 score in
  let score := add_if ((hr <? 40)%Z || (140 <? hr)%Z) 3 score in
  let bp := or_number (bloodPressureSystolic patientData) 120 in
  let score := add_if ((bp <? 90)%Z || (160 <? bp)%Z) 2 score in
  let score := add_if ((bp <? 70)%Z || (180 <? bp)%Z) 3 score in
  let spo2 := or_number (oxygenSaturation patientData) 98 in
  let score := add_if (spo2 <? 94)%Z 2 score in
  let score := add_if (spo2 <? 90)%Z 3 score in
  let rr := or_number (respiratoryRate patientData) 16 in
  let score := add_if ((rr <? 12)%Z || (20 <? rr)%Z) 1 score in
  let score := add_if ((rr <? 8)%Z || (24 <? rr)%Z) 2 score in
  score.

Definition calculatePriorityFromVitals (patientData : Readings) : string :=
  let score := vitals_score patientData in
  if (6 <=? score)%Z then "red"
  else if (4 <=? score)%Z then "yellow"
  else if (2 <=? score)%Z then "green"
  else "green".

(** *** treatPatient (app.js 577-596) *)





(** ** The worker, continued: push and notificationclick (sw.js 557-607) *)

(** The four fields the push listener reads, each absent or a string. *)
Record PushFields := mkPushFields {
  push_title : option string;
  push_body : option string;
  push_icon : option string;
  push_url : option string
}.

(** [event.data]: absent; a payload whose [json()] throws; the JSON
    [null]; an object. *)
Inductive PushData :=
| NoPushData
| Malformed
| JsonNull
| JsonObject (d : PushFields).

(** [a || b] on a field that is absent or a string. *)
Definition or_string (v : option string) (d : string) : string :=
  match v with
  | Some s => if s =? EmptyString then d else s
  | None => d
  end.

Record Notification := mkNotification {
  n_title : string;
  n_body : string;
  n_icon : string;
  n_badge : string;
  n_tag : string;
  n_data : string;
  n_actions : list (string * string)
}.

(** The [data] object of the listener; reading a field of [null]
    throws. *)
Definition push_fields (d : PushData) : option PushFields :=
  match d with
  | NoPushData => Some (mkPushFields None None None None)
  | Malformed =>
      Some (mkPushFields (Some "Emergency Alert")
              (Some "New emergency notification") (Some "/icon-192.png") None)
  | JsonNull => None
  | JsonObject fields => Some fields
  end.

(** The notification shown, if the listener gets that far. *)
Definition on_push (d : PushData) : option Notification :=
  match push_fields d with
  | None => None
  | Some data =>
      Some (mkNotification
              (or_string (push_title data) "Upline Emergency Alert")
              (or_string (push_body data) "New emergency case requires attention")
              (or_string (push_icon data) "/icon-192.png")
              "/icon-72x72.png"
              "emergency-alert"
              (or_string (push_url data) "/")
              [("view", "View Case"); ("dismiss", "Dismiss")])
  end.

(** The window opened by a click, if any. *)
Definition on_notificationclick (action : string) (n : Notification)
  : option string :=
  if (action =? "view") || (action =? EmptyString)
  then Some (or_string (Some (n_data n)) "/")
  else None.

(** ** Vocabulary of the statements *)

(** The dynamic generation. *)
Definition dynamic_cache (w : World) : Cache :=
  storage_get DYNAMIC_CACHE (caches w).

(** The layers of the navigation fallback. *)
Definition navigation_fallback (k : string) (cs : CacheStorage) : Response :=
  match storage_match k cs with
  | Some r => r
  | None =>
      match storage_match OFFLINE_URL cs with
      | Some r => r
      | None => generated_offline_page
      end
  end.

(** A computation that posts nothing on the message port. *)
Definition silent {A} (m : M A) : Prop :=
  forall w, replies (after (m w)) = replies w.

(** A computation that, when it fulfils, has posted exactly one reply,
    a well-formed one, and when it rejects has posted none. *)
Definition answers (m : M unit) : Prop :=
  forall w,
    match m w with
    | (Fulfilled _, w') =>
        exists r, well_formed_reply r /\ replies w' = replies w ++ [r]
    | (Rejected _, w') => replies w' = replies w
    end.

(** The completion message, once per client. *)
Definition broadcast (n : nat) (cs : list nat) : list (nat * ClientMsg) :=
  map (fun c => (c, SYNC_COMPLETE n)) cs.


(** The records of an object store lie in ascending key order. *)
Definition key_lt (p q : Patient) : Prop := String.compare (id p) (id q) = Lt.

Definition store_ordered (db : list Patient) : Prop := StronglySorted key_lt db.

(** A computation that keeps an invariant of the world. *)
Definition preserves (Inv : World -> Prop) {A} (m : M A) : Prop :=
  forall w, Inv w -> Inv (after (m w)).

Definition ordered_world (w : World) : Prop := store_ordered (patients w).

(** One entry per request URL. *)
Definition distinct_keys (c : Cache) : Prop := NoDup (cache_keys c).

(** What the cache-first strategy answers when cache and network both
    fail. *)
Definition static_fallback (req : Request) : Response :=
  if destination req =? "image" then image_placeholder
  else network_error_response.

(** Every record of the world that is still pending was already in [db0]. *)
Definition pending_from (db0 : list Patient) (w : World) : Prop :=
  forall q, In q (patients w) -> is_pending q = true -> In q db0.

(** A reading that was taken away: the same reading, none, or 0. *)
Definition erased (x' x : option Z) : Prop :=
  x' = x \/ x' = None \/ x' = Some 0%Z.

(** The ranges in which a reading adds nothing to the score. *)
Definition normal_heartRate (v : Readings) : Prop :=
  (50 <= or_number (heartRate v) 80 <= 120)%Z.
Definition normal_bloodPressure (v : Readings) : Prop :=
  (90 <= or_number (bloodPressureSystolic v) 120 <= 160)%Z.
Definition normal_oxygenSaturation (v : Readings) : Prop :=
  (94 <= or_number (oxygenSaturation v) 98)%Z.
Definition normal_respiratoryRate (v : Readings) : Prop :=
  (12 <= or_number (respiratoryRate v) 16 <= 20)%Z.

(** The [n] store requests from the [from]-th on all succeed. *)
Definition requests_succeed (E : Env) (from n : nat) : Prop :=
  forall j, j < n -> idb_error E (from + j) = None.

(** One of the [n] store requests from the [from]-th on fails. *)
Definition request_fails (E : Env) (from n : nat) : Prop :=
  exists j, j < n /\ idb_error E (from + j) <> None.

(** Of a list of records, the first record of each id that is not in
    [seen], in the order of the list. *)
Fixpoint first_of_each_id (seen : list string) (ps : list Patient)
  : list Patient :=
  match ps with
  | [] => []
  | p :: rest =>
      if existsb (String.eqb (id p)) seen
      then first_of_each_id seen rest
      else p :: first_of_each_id (id p :: seen) rest
  end.

(** ** Concrete environments and worlds for the examples *)

Definition foreign_storage : CacheStorage :=
  [ ("emergency-triage-v1", []); (CACHE_NAME, []); (DYNAMIC_CACHE, []) ].

(** No network; every store request succeeds. *)
Definition offline_env : Env :=
  mkEnv (fun _ => Rejected "TypeError: Failed to fetch")
        (fun _ => "2024-01-01T00:00:00.000Z")
        (fun _ => None)
        (fun _ => None).

Definition world_with_caches (cs : CacheStorage) : World :=
  mkWorld cs [] 0 0 [] [] [] [] false false.


(** Sound check that the strings of a list are pairwise distinct. *)
Fixpoint distinctb (l : list string) : bool :=
  match l with
  | [] => true
  | x :: rest => negb (existsb (String.eqb x) rest) && distinctb rest
  end.

Definition page (text : string) : Response := mkResponse 200 "text/html" text.

(** A dynamic cache with 101 entries, oldest first. *)
Definition numbered_entry (n : nat) : string * Response :=
  (String "/"%char (String (ascii_of_nat (32 + n)) EmptyString), page "cached").

Definition crowded_cache : Cache := map numbered_entry (seq 0 101).

Definition crowded_world : World :=
  world_with_caches [ (CACHE_NAME, []); (DYNAMIC_CACHE, crowded_cache) ].

(** A server on which every shell asset exists but [/icon-512.png]. *)
Definition missing_asset_env : Env :=
  mkEnv (fun u => if u =? "/icon-512.png"
                  then Fulfilled (mkResponse 404 "text/plain" "404 - File Not Found")
                  else Fulfilled (page u))
        (fun _ => "2024-01-01T00:00:00.000Z")
        (fun _ => None)
        (fun _ => None).

(** The caches of a device on which the previous worker is installed. *)
Definition prior_world : World :=
  world_with_caches
    [ (PreviousRevision.CACHE_NAME,
       map (fun u => (u, page u)) PreviousRevision.urlsToCache) ].

Definition api_request : Request :=
  mkRequest "GET" "https://triage.example/api/patients" "https:"
    "/api/patients" "https://triage.example" "cors" EmptyString.

(** Cache keys are request URLs as written; the shell assets are keyed
    by the paths of the manifest. *)
Definition index_request : Request :=
  mkRequest "GET" "/index.html" "https:" "/index.html"
    "https://triage.example" "navigate" "document".

(** The shell is installed; nothing was cached at run time. *)
Definition shell_world : World :=
  world_with_caches
    [ (CACHE_NAME, map (fun u => (u, page u)) urlsToCache); (DYNAMIC_CACHE, []) ].

Definition patient_A : Patient :=
  mkPatient "PAT-1001" None None None [("name", "Asha Rao"); ("priority", "red")].

Definition patient_B : Patient :=
  mkPatient "PAT-1002" (Some "pending") None None
    [("name", "Ben Ito"); ("priority", "yellow")].

Definition patient_C : Patient :=
  mkPatient "PAT-1003" (Some "pending") None None
    [("name", "Caro Diaz"); ("priority", "green")].

(** An emergency admission, entered after [patient_B]. *)
Definition patient_E : Patient :=
  mkPatient "EMG-1003" None None None
    [("name", "Emergency Patient"); ("priority", "red")].

Definition patient_S : Patient :=
  mkPatient "PAT-1000" (Some "synced") None (Some "2023-12-31T23:00:00.000Z")
    [("name", "Sam Lee"); ("priority", "green")].

Definition world_with_patients (db : list Patient) (cs : list nat) : World :=
  mkWorld [] db 0 0 [] cs [] [] false false.

(** Every request succeeds but the k-th one. *)
Definition failing_at (k : nat) : Env :=
  mkEnv (fun _ => Rejected "TypeError: Failed to fetch")
        (fun _ => "2024-01-01T00:00:00.000Z")
        (fun j => if (j =? k)%nat then Some "QuotaExceededError" else None)
        (fun _ => None).

(** A second record entered under the id of [patient_B]. *)
Definition patient_B_again : Patient :=
  mkPatient "PAT-1002" (Some "synced") None None
    [("name", "Bea Moss"); ("priority", "red")].

Definition app_with (ps : list Patient) : App :=
  mkApp ps "user_1" (Some ps) [].

(** A font served by another origin. *)
Definition font_request : Request :=
  mkRequest "GET" "https://fonts.example/inter.woff2" "https:"
    "/inter.woff2" "https://fonts.example" "cors" "font".


(** * Properties *)

(** ** Loops of the async monad *)

Lemma for_each_pure {A} (body : A -> M unit) (f : A -> World -> World) :
  (forall x w, body x w = (Fulfilled tt, f x w)) ->
  forall l w, for_each l body w = (Fulfilled tt, fold_left (fun w x => f x w) l w).
Proof.
  intros Hbody l. induction l as [|x l IH]; intro w; simpl.
  - reflexivity.
  - unfold bind. rewrite Hbody. apply IH.
Qed.

Lemma caches_fold_left {A} (g : A -> CacheStorage -> CacheStorage)
  (keep : A -> bool) (l : list A) (w : World) :
  caches (fold_left (fun w x => if keep x then set_caches (g x) w else w) l w)
  = fold_left (fun cs x => if keep x then g x cs else cs) l (caches w).
Proof.
  revert w. induction l as [|x l IH]; intro w; simpl.
  - reflexivity.
  - rewrite IH. destruct (keep x); reflexivity.
Qed.

Lemma filter_twice {A} (f g : A -> bool) (l : list A) :
  filter f (filter g l) = filter (fun x => g x && f x) l.
Proof.
  induction l as [|x l IH]; simpl.
  - reflexivity.
  - destruct (g x); simpl; [destruct (f x)|]; rewrite IH; reflexivity.
Qed.

(** ** Activation cleanup *)

Lemma storage_delete_filter (old : string -> bool) (names : list string)
  (cs : CacheStorage) :
  fold_left (fun cs n => if old n then storage_delete n cs else cs) names cs
  = filter (fun e => negb (existsb (fun n => old n && (fst e =? n)) names)) cs.
Proof.
  revert cs. induction names as [|n names IH]; intro cs; simpl.
  - symmetry. apply forallb_filter_id. apply forallb_forall. reflexivity.
  - rewrite IH. destruct (old n) eqn:Hold; simpl.
    + unfold storage_delete. rewrite filter_twice.
      apply filter_ext. intro e.
      destruct (fst e =? n); reflexivity.
    + reflexivity.
Qed.

Lemma existsb_own_name (old : string -> bool) (cs : CacheStorage) (e : string * Cache) :
  In e cs ->
  existsb (fun n => old n && (fst e =? n)) (storage_keys cs) = old (fst e).
Proof.
  intro Hin. destruct (old (fst e)) eqn:Hold.
  - apply existsb_exists. exists (fst e). split.
    + unfold storage_keys. apply in_map. exact Hin.
    + rewrite Hold, String.eqb_refl. reflexivity.
  - apply not_true_is_false. intro Hex.
    apply existsb_exists in Hex. destruct Hex as [n [_ Hn]].
    apply andb_true_iff in Hn. destruct Hn as [Hn Heq].
    apply String.eqb_eq in Heq. subst n. congruence.
Qed.

Lemma activate_handler_caches (w : World) :
  caches (after (activate_handler w))
  = filter (fun e => negb (is_old_cache (fst e))) (caches w).
Proof.
  unfold activate_handler, after, bind, gets, modify. simpl.
  rewrite (for_each_pure _
    (fun n w => if is_old_cache n then set_caches (storage_delete n) w else w)).
  2:{ intros x w0. destruct (is_old_cache x); reflexivity. }
  simpl. rewrite (caches_fold_left storage_delete is_old_cache).
  rewrite storage_delete_filter.
  apply filter_ext_in. intros e Hin.
  rewrite (existsb_own_name is_old_cache (caches w) e Hin). reflexivity.
Qed.

Lemma activate_handler_fulfils (w : World) :
  result (activate_handler w) = Fulfilled tt.
Proof.
  unfold activate_handler, result, bind, gets, modify. simpl.
  rewrite (for_each_pure _
    (fun n w => if is_old_cache n then set_caches (storage_delete n) w else w)).
  2:{ intros x w0. destruct (is_old_cache x); reflexivity. }
  reflexivity.
Qed.

(** C4, as the spec states it, fails: a cache left by the first worker
    revision, whose name is neither the current shell nor the current
    dynamic generation, survives the activation cleanup. *)
Lemma activate_keeps_foreign_cache :
  ~ (forall name,
        In name (storage_keys foreign_storage) ->
        name <> CACHE_NAME -> name <> DYNAMIC_CACHE ->
        ~ In name (storage_keys (caches (after
             (activate_handler (world_with_caches foreign_storage)))))).
Proof.
  intro H. apply (H "emergency-triage-v1").
  - simpl. left. reflexivity.
  - discriminate.
  - discriminate.
  - vm_compute. left. reflexivity.
Qed.

(** C4, amended: the activation cleanup deletes exactly the caches whose
    name starts with "upline-triage-" and is neither the current shell nor
    the current dynamic generation, keeps every other cache with its
    entries, and a second run deletes nothing. *)
Theorem activate_cleanup_prefix_idempotent (w : World) :
  let w1 := after (activate_handler w) in
  let w2 := after (activate_handler w1) in
  caches w1 = filter (fun e => negb (is_old_cache (fst e))) (caches w)
  /\ (forall name, In name (storage_keys (caches w1)) <->
                   In name (storage_keys (caches w)) /\ is_old_cache name = false)
  /\ (forall name, is_old_cache name = true <->
                   name <> CACHE_NAME /\ name <> DYNAMIC_CACHE
                   /\ prefix "upline-triage-" name = true)
  /\ caches w2 = caches w1.
Proof.
  intros w1 w2. subst w1 w2.
  rewrite !activate_handler_caches.
  split; [reflexivity|]. split; [|split].
  - intro name. unfold storage_keys. rewrite in_map_iff. split.
    + intros [e [Hname Hin]]. apply filter_In in Hin. destruct Hin as [Hin Hkeep].
      subst name. split.
      * rewrite in_map_iff. exists e. split; [reflexivity | exact Hin].
      * apply negb_true_iff. exact Hkeep.
    + intros [Hin Hkeep]. apply in_map_iff in Hin. destruct Hin as [e [Hname Hin]].
      exists e. split; [exact Hname|]. apply filter_In. split; [exact Hin|].
      subst name. rewrite Hkeep. reflexivity.
  - intro name. unfold is_old_cache.
    rewrite !andb_true_iff, !negb_true_iff, !String.eqb_neq. tauto.
  - rewrite filter_twice. apply filter_ext. intro e. apply andb_diag.
Qed.

(** ** Bound of the dynamic cache *)

Lemma storage_get_open (name : string) (cs : CacheStorage) :
  storage_get name (storage_open name cs) = storage_get name cs.
Proof.
  unfold storage_open, storage_get, storage_has.
  destruct (existsb (fun e => fst e =? name) cs) eqn:Hhas; [reflexivity|].
  assert (Hnone : find (fun e : string * Cache => fst e =? name) cs = None).
  { destruct (find _ cs) as [e|] eqn:Hfind; [|reflexivity].
    apply find_some in Hfind. destruct Hfind as [Hin He].
    assert (existsb (fun e => fst e =? name) cs = true)
      by (apply existsb_exists; exists e; auto).
    congruence. }
  rewrite Hnone.
  assert (Hfind : find (fun e : string * Cache => fst e =? name) (cs ++ [(name, [])])
                  = Some (name, [])).
  { clear Hhas. induction cs as [|e cs IH]; simpl in *.
    - rewrite String.eqb_refl. reflexivity.
    - destruct (fst e =? name); [discriminate | apply IH, Hnone]. }
  rewrite Hfind. reflexivity.
Qed.

Lemma storage_get_update (name : string) (f : Cache -> Cache) (cs : CacheStorage) :
  f [] = [] ->
  storage_get name (storage_update name f cs) = f (storage_get name cs).
Proof.
  intro Hnil. unfold storage_get, storage_update.
  induction cs as [|e cs IH]; simpl.
  - symmetry. exact Hnil.
  - destruct (fst e =? name) eqn:He; simpl; rewrite He; [reflexivity | apply IH].
Qed.

Lemma caches_fold_left_set {A} (g : A -> CacheStorage -> CacheStorage)
  (l : list A) (w : World) :
  caches (fold_left (fun w x => set_caches (g x) w) l w)
  = fold_left (fun cs x => g x cs) l (caches w).
Proof.
  revert w. induction l as [|x l IH]; intro w; simpl.
  - reflexivity.
  - rewrite IH. reflexivity.
Qed.

Lemma fold_cache_delete_nil (ks : list string) :
  fold_left (fun c k => cache_delete k c) ks [] = [].
Proof. induction ks; simpl; auto. Qed.

Lemma storage_get_fold_delete (name : string) (ks : list string) (cs : CacheStorage) :
  storage_get name
    (fold_left (fun cs k => storage_update name (cache_delete k) cs) ks cs)
  = fold_left (fun c k => cache_delete k c) ks (storage_get name cs).
Proof.
  revert cs. induction ks as [|k ks IH]; intro cs; simpl.
  - reflexivity.
  - rewrite IH, storage_get_update; reflexivity.
Qed.

Lemma cache_delete_absent (k : string) (c : Cache) :
  ~ In k (cache_keys c) -> cache_delete k c = c.
Proof.
  intro Hnot. unfold cache_delete. apply forallb_filter_id.
  apply forallb_forall. intros e Hin. apply negb_true_iff, String.eqb_neq.
  intro Heq. apply Hnot. subst k. unfold cache_keys. apply in_map. exact Hin.
Qed.

(** Deleting the first [n] keys of a cache with distinct keys drops its
    first [n] entries. *)
Lemma delete_oldest (n : nat) (c : Cache) :
  NoDup (cache_keys c) ->
  fold_left (fun c k => cache_delete k c) (firstn n (cache_keys c)) c = skipn n c.
Proof.
  revert n. induction c as [|[k r] c IH]; intros n Hnd.
  - simpl. rewrite firstn_nil, skipn_nil. reflexivity.
  - destruct n as [|n]; [reflexivity|].
    simpl in Hnd. inversion Hnd as [|? ? Hnotin Hnd']; subst.
    cbn [cache_keys map fst firstn fold_left skipn].
    unfold cache_delete at 2. cbn [filter fst]. rewrite String.eqb_refl.
    cbn [negb]. fold (cache_delete k c).
    rewrite (cache_delete_absent k c Hnotin).
    apply IH. exact Hnd'.
Qed.

Lemma cleanupCache_dynamic (w : World) :
  dynamic_cache (after (cleanupCache w))
  = if (100 <? List.length (dynamic_cache w))%nat
    then fold_left (fun c k => cache_delete k c)
           (firstn (List.length (dynamic_cache w) - 100)
                   (cache_keys (dynamic_cache w)))
           (dynamic_cache w)
    else dynamic_cache w.
Proof.
  unfold cleanupCache, after, bind, caches_open, gets, modify, dynamic_cache.
  cbn [fst snd caches set_caches].
  rewrite storage_get_open.
  unfold cache_keys at 1. rewrite length_map.
  destruct (100 <? List.length (storage_get DYNAMIC_CACHE (caches w)))%nat.
  - unfold cache_delete_in.
    rewrite (for_each_pure _
      (fun k w => set_caches (storage_update DYNAMIC_CACHE (cache_delete k)) w))
      by reflexivity.
    cbn [snd].
    rewrite (caches_fold_left_set
      (fun k => storage_update DYNAMIC_CACHE (cache_delete k))).
    cbn [caches].
    rewrite storage_get_fold_delete. cbn [caches set_caches].
    rewrite storage_get_open.
    unfold cache_keys. rewrite length_map. reflexivity.
  - cbn [snd ret caches]. apply storage_get_open.
Qed.

Lemma fold_delete_filter (ks : list string) (c : Cache) :
  fold_left (fun c k => cache_delete k c) ks c
  = filter (fun e => negb (existsb (String.eqb (fst e)) ks)) c.
Proof.
  revert c. induction ks as [|k ks IH]; intro c; cbn [fold_left existsb].
  - symmetry. apply forallb_filter_id, forallb_forall. reflexivity.
  - rewrite IH. unfold cache_delete. rewrite filter_twice.
    apply filter_ext. intro e. destruct (fst e =? k); reflexivity.
Qed.

Lemma filter_none {A} (f : A -> bool) (l : list A) :
  (forall x, In x l -> f x = false) -> filter f l = [].
Proof.
  induction l as [|x l IH]; intro Hall; cbn.
  - reflexivity.
  - rewrite (Hall x (or_introl eq_refl)). apply IH.
    intros y Hy. apply Hall. right. exact Hy.
Qed.

(** Deleting the first [n] keys leaves no more than what follows the
    first [n] entries, whether or not keys repeat. *)
Lemma delete_oldest_length (n : nat) (c : Cache) :
  List.length (fold_left (fun c k => cache_delete k c) (firstn n (cache_keys c)) c)
  <= List.length c - n.
Proof.
  rewrite fold_delete_filter.
  set (keep := fun e : string * Response =>
                 negb (existsb (String.eqb (fst e)) (firstn n (cache_keys c)))).
  replace (filter keep c) with (filter keep (firstn n c ++ skipn n c))
    by (rewrite firstn_skipn; reflexivity).
  rewrite filter_app.
  assert (Hnone : filter keep (firstn n c) = []).
  { assert (Hall : forall e, In e (firstn n c) ->
              negb (existsb (String.eqb (fst e)) (firstn n (cache_keys c))) = false).
    { intros e Hin. apply negb_false_iff, existsb_exists. exists (fst e).
      split; [|apply String.eqb_refl].
      unfold cache_keys. rewrite firstn_map. apply in_map. exact Hin. }
    apply filter_none. exact Hall. }
  rewrite Hnone. cbn [app].
  etransitivity; [apply filter_length_le|]. rewrite length_skipn. lia.
Qed.

(** C7: after a cleanup pass the dynamic cache holds at most 100
    entries; when it held more (its keys being distinct, as the Cache API
    keeps them), the entries deleted are its oldest ones in insertion
    order and the 100 inserted last are what is left. *)
Theorem cleanupCache_fifo_bound (w : World) :
  let before := dynamic_cache w in
  let remaining := dynamic_cache (after (cleanupCache w)) in
  let excess := List.length before - 100 in
  result (cleanupCache w) = Fulfilled tt
  /\ List.length remaining <= 100
  /\ (NoDup (cache_keys before) ->
        remaining = skipn excess before
        /\ before = firstn excess before ++ remaining
        /\ (100 < List.length before -> List.length remaining = 100)).
Proof.
  intros before remaining excess.
  split; [|split].
  - unfold cleanupCache, result, bind, caches_open, gets, modify. cbn [fst snd].
    match goal with |- context [if ?b then _ else _] => destruct b end.
    + unfold cache_delete_in.
      rewrite (for_each_pure _
        (fun k w => set_caches (storage_update DYNAMIC_CACHE (cache_delete k)) w))
        by reflexivity.
      reflexivity.
    + reflexivity.
  - subst remaining. rewrite cleanupCache_dynamic. fold before. fold excess.
    destruct (100 <? List.length before)%nat eqn:Hlt.
    + apply Nat.ltb_lt in Hlt.
      etransitivity; [apply delete_oldest_length|]. subst excess. lia.
    + apply Nat.ltb_ge in Hlt. exact Hlt.
  - intro Hkeys.
    assert (Hrem : remaining = skipn excess before).
    { subst remaining. rewrite cleanupCache_dynamic. fold before. fold excess.
      destruct (100 <? List.length before)%nat eqn:Hlt.
      - apply delete_oldest. exact Hkeys.
      - apply Nat.ltb_ge in Hlt. subst excess.
        replace (List.length before - 100) with 0 by lia. reflexivity. }
    split; [exact Hrem|]. split.
    + rewrite Hrem. symmetry. apply firstn_skipn.
    + intro Hlt. rewrite Hrem, length_skipn. subst excess. lia.
Qed.

Lemma distinctb_NoDup (l : list string) : distinctb l = true -> NoDup l.
Proof.
  induction l as [|x l IH]; simpl; intro H.
  - constructor.
  - apply andb_true_iff in H. destruct H as [Hx Hl]. constructor.
    + intro Hin. apply negb_true_iff in Hx.
      assert (existsb (String.eqb x) l = true).
      { apply existsb_exists. exists x. split; [exact Hin | apply String.eqb_refl]. }
      congruence.
    + apply IH, Hl.
Qed.

Lemma cleanupCache_fifo_bound_witness :
  NoDup (cache_keys (dynamic_cache crowded_world))
  /\ List.length (dynamic_cache (after (cleanupCache crowded_world))) = 100
  /\ dynamic_cache (after (cleanupCache crowded_world)) = skipn 1 crowded_cache.
Proof.
  assert (H : NoDup (cache_keys (dynamic_cache crowded_world))).
  { apply distinctb_NoDup. vm_compute. reflexivity. }
  split; [exact H|].
  destruct (cleanupCache_fifo_bound crowded_world) as (_ & _ & Hfifo).
  destruct (Hfifo H) as (Hrem & _ & Hlen).
  split.
  - apply Hlen. apply Nat.ltb_lt. vm_compute. reflexivity.
  - exact Hrem.
Defined.

(** ** Installation *)

(** The promise the install listener gives to [waitUntil] fulfils
    whatever the network does. *)
Lemma install_handler_always_fulfils (E : Env) (w : World) :
  install_result (install_handler E w) = Installed.
Proof.
  unfold install_result, result, install_handler, try_catch.
  destruct (bind _ _ w) as [[a|e] w']; reflexivity.
Qed.

(** C3, at the failing input: one shell asset answers 404.  The install
    listener's promise fulfils, so the worker is installed although its
    shell cache is empty and [skipWaiting] was not called; once it
    activates, the previous generation is deleted.  The chain of the
    previous revision, which has no [catch], rejects on the same server. *)
Theorem install_with_missing_asset_completes :
  let installed := install_handler missing_asset_env prior_world in
  install_result installed = Installed
  /\ storage_get CACHE_NAME (caches (after installed)) = []
  /\ skipped_waiting (after installed) = false
  /\ storage_has PreviousRevision.CACHE_NAME
       (caches (after (activate_handler (after installed)))) = false
  /\ install_result (PreviousRevision.install_handler missing_asset_env prior_world)
     = InstallFailed.
Proof.
  vm_compute. repeat split.
Qed.

(** ** Fetch strategies *)

Lemma storage_match_open (k name : string) (cs : CacheStorage) :
  storage_match k (storage_open name cs) = storage_match k cs.
Proof.
  unfold storage_open. destruct (storage_has name cs); [reflexivity|].
  induction cs as [|[n c] cs IH]; simpl.
  - reflexivity.
  - destruct (cache_match k c); [reflexivity | exact IH].
Qed.

Lemma apiFirstStrategy_never_rejects (E : Env) (req : Request) (w : World) :
  exists r, result (apiFirstStrategy E req w) = Fulfilled r.
Proof.
  unfold apiFirstStrategy, result, try_catch, bind, fetch, caches_open,
    cache_put_in, caches_match, new_Date, gets, modify, ret.
  cbn [fst snd].
  destruct (network E (url req)) as [response|e].
  - destruct (ok response); cbn; [|eauto].
    destruct (put_error E response); cbn; [|eauto].
    match goal with |- context [storage_match ?k ?cs] =>
      destruct (storage_match k cs) end; cbn; eauto.
  - match goal with |- context [storage_match ?k ?cs] =>
      destruct (storage_match k cs) end; cbn; eauto.
Qed.

(** C5, as the spec states it, fails: offline and with nothing cached,
    the body the API strategy returns is not the JSON object whose error
    text is "you are offline", whatever the timestamp. *)
Lemma api_offline_error_text_differs :
  ~ (exists r timestamp,
        result (apiFirstStrategy offline_env api_request (world_with_caches []))
        = Fulfilled r
        /\ body r = JSON_stringify
                      (JObject [ ("error", JString "you are offline");
                                 ("timestamp", JString timestamp);
                                 ("cache", JString "miss") ])).
Proof.
  intros (r & timestamp & Hres & Hbody).
  vm_compute in Hres. injection Hres as Hr. subst r.
  cbn in Hbody. discriminate Hbody.
Qed.

(** C5, amended: for every API-classified GET request, when the network
    attempt fails and no cache holds a copy, the strategy returns a
    response whose body is the JSON text of
    { error: "You are offline", timestamp, cache: "miss" }; the strategy
    never rejects. *)
Theorem api_offline_response (E : Env) (self_origin : string) (req : Request)
  (w : World) (e : Error)
  (Hclass : classify self_origin req = Some ApiFirst)
  (Hnet : network E (url req) = Rejected e)
  (Hmiss : storage_match (url req) (caches w) = None) :
  exists respond,
    on_fetch E self_origin req = Some respond
    /\ result (respond w)
       = Fulfilled (mkResponse 200 "application/json"
                      (JSON_stringify (offline_api_body (date_at E (dates_read w)))))
    /\ json_field "error" (offline_api_body (date_at E (dates_read w)))
       = Some (JString "You are offline")
    /\ caches (after (respond w)) = caches w
    /\ (forall w0, exists r, result (respond w0) = Fulfilled r).
Proof.
  exists (apiFirstStrategy E req). split; [|split; [|split; [|split]]].
  - unfold on_fetch. rewrite Hclass. reflexivity.
  - unfold apiFirstStrategy, result, try_catch, bind, fetch, caches_match,
      new_Date, gets, ret.
    rewrite Hnet. cbn. rewrite Hmiss. reflexivity.
  - reflexivity.
  - unfold apiFirstStrategy, after, try_catch, bind, fetch, caches_match,
      new_Date, gets, ret.
    rewrite Hnet. cbn. rewrite Hmiss. reflexivity.
  - intro w0. apply apiFirstStrategy_never_rejects.
Qed.

Lemma api_offline_response_witness :
  exists respond,
    on_fetch offline_env "https://triage.example" api_request = Some respond
    /\ result (respond (world_with_caches []))
       = Fulfilled (mkResponse 200 "application/json"
           (String.concat dquote
              [ "{"; "error"; ":"; "You are offline"; ",";
                "timestamp"; ":"; "2024-01-01T00:00:00.000Z"; ",";
                "cache"; ":"; "miss"; "}" ])).
Proof.
  destruct (api_offline_response offline_env "https://triage.example" api_request
              (world_with_caches []) "TypeError: Failed to fetch"
              eq_refl eq_refl eq_refl)
    as (respond & Hon & Hres & _).
  exists respond. split; [exact Hon | exact Hres].
Defined.

Lemma navigationFirstStrategy_never_rejects (E : Env) (req : Request) (w : World) :
  exists r, result (navigationFirstStrategy E req w) = Fulfilled r.
Proof.
  unfold navigationFirstStrategy, result, try_catch, bind, fetch, caches_open,
    cache_put_in, caches_match, gets, modify, ret.
  cbn [fst snd].
  destruct (network E (url req)) as [response|e]; cbn.
  - destruct (put_error E response); cbn; [|eauto].
    repeat match goal with |- context [storage_match ?k ?cs] =>
      destruct (storage_match k cs) end; cbn; eauto.
  - repeat match goal with |- context [storage_match ?k ?cs] =>
      destruct (storage_match k cs) end; cbn; eauto.
Qed.

(** C6, as the spec states it, fails: offline, with the dynamic cache
    empty and the offline document cached, a navigation to a page of the
    shell is answered with the shell's copy of that page, not with the
    offline document. *)
Lemma navigation_falls_back_to_shell_cache :
  ~ (forall offline_document,
        cache_match (url index_request)
          (storage_get DYNAMIC_CACHE (caches shell_world)) = None ->
        storage_match OFFLINE_URL (caches shell_world) = Some offline_document ->
        result (navigationFirstStrategy offline_env index_request shell_world)
        = Fulfilled offline_document).
Proof.
  intro H. specialize (H (page "/offline.html") eq_refl eq_refl).
  vm_compute in H. discriminate H.
Qed.

(** C6, amended: for every navigation-classified request the strategy
    produces a response and never rejects; when the network attempt fails
    it answers with the copy of the request found in any cache (shell or
    dynamic, oldest cache first), else with the cached offline document,
    else with the page it generates. *)
Theorem navigation_always_responds (E : Env) (self_origin : string)
  (req : Request) (w : World)
  (Hclass : classify self_origin req = Some NavigationFirst) :
  exists respond,
    on_fetch E self_origin req = Some respond
    /\ (exists r, result (respond w) = Fulfilled r)
    /\ (forall e, network E (url req) = Rejected e ->
          result (respond w)
          = Fulfilled (navigation_fallback (url req) (caches w))
          /\ caches (after (respond w)) = caches w)
    /\ (forall response e,
          network E (url req) = Fulfilled response ->
          put_error E response = Some e ->
          result (respond w)
          = Fulfilled (navigation_fallback (url req) (caches w)))
    /\ (forall response,
          network E (url req) = Fulfilled response ->
          put_error E response = None ->
          result (respond w) = Fulfilled response).
Proof.
  exists (navigationFirstStrategy E req).
  split; [unfold on_fetch; rewrite Hclass; reflexivity|].
  split; [apply navigationFirstStrategy_never_rejects|].
  unfold navigationFirstStrategy, navigation_fallback, result, after, try_catch,
    bind, fetch, caches_open, cache_put_in, caches_match, gets, modify, ret.
  split; [|split].
  - intros e Hnet. rewrite Hnet. cbn.
    destruct (storage_match (url req) (caches w)); cbn; [split; reflexivity|].
    destruct (storage_match OFFLINE_URL (caches w)); cbn; split; reflexivity.
  - intros response e Hnet Hput. rewrite Hnet. cbn. rewrite Hput. cbn.
    rewrite storage_match_open.
    destruct (storage_match (url req) (caches w)); cbn; [reflexivity|].
    rewrite storage_match_open.
    destruct (storage_match OFFLINE_URL (caches w)); reflexivity.
  - intros response Hnet Hput. rewrite Hnet. cbn. rewrite Hput. reflexivity.
Qed.

Lemma navigation_always_responds_witness :
  exists respond,
    on_fetch offline_env "https://triage.example" index_request = Some respond
    /\ result (respond (world_with_caches []))
       = Fulfilled generated_offline_page.
Proof.
  destruct (navigation_always_responds offline_env "https://triage.example"
              index_request (world_with_caches []) eq_refl)
    as (respond & Hon & _ & Hoffline & _).
  exists respond. split; [exact Hon|].
  exact (proj1 (Hoffline "TypeError: Failed to fetch" eq_refl)).
Defined.

(** ** The patients store *)

Arguments store_get : simpl never.
Arguments store_put : simpl never.

Lemma compare_Lt_neq (a b : string) : String.compare a b = Lt -> a <> b.
Proof.
  intros H Heq. subst b. pose proof (String.compare_antisym a a) as Hanti.
  rewrite H in Hanti. discriminate Hanti.
Qed.

Lemma compare_Gt_neq (a b : string) : String.compare a b = Gt -> a <> b.
Proof.
  intros H Heq. subst b. pose proof (String.compare_antisym a a) as Hanti.
  rewrite H in Hanti. discriminate Hanti.
Qed.

Lemma store_get_put_same (p : Patient) (db : list Patient) :
  store_get (id p) (store_put p db) = Some p.
Proof.
  unfold store_get, store_put. induction db as [|q db IH]; simpl.
  - rewrite String.eqb_refl. reflexivity.
  - destruct (String.compare (id p) (id q)) eqn:Hcmp; simpl.
    + rewrite String.eqb_refl. reflexivity.
    + rewrite String.eqb_refl. reflexivity.
    + apply compare_Gt_neq in Hcmp.
      assert (Hne : (id q =? id p) = false)
        by (apply String.eqb_neq; congruence).
      rewrite Hne. exact IH.
Qed.

Lemma store_get_put_other (p : Patient) (db : list Patient) (k : string) :
  k <> id p -> store_get k (store_put p db) = store_get k db.
Proof.
  intro Hk. unfold store_get, store_put.
  assert (Hp : (id p =? k) = false) by (apply String.eqb_neq; congruence).
  induction db as [|q db IH]; simpl.
  - rewrite Hp. reflexivity.
  - destruct (String.compare (id p) (id q)) eqn:Hcmp; simpl.
    + apply String.compare_eq_iff in Hcmp. rewrite Hp, <- Hcmp, Hp. reflexivity.
    + rewrite Hp. reflexivity.
    + destruct (id q =? k); [reflexivity | exact IH].
Qed.

Lemma store_get_in (db : list Patient) (p : Patient) :
  NoDup (map id db) -> In p db -> store_get (id p) db = Some p.
Proof.
  unfold store_get. induction db as [|q db IH]; simpl; intros Hnd Hin.
  - contradiction.
  - inversion Hnd as [|? ? Hnotin Hnd']; subst.
    destruct Hin as [Heq | Hin].
    + subst q. rewrite String.eqb_refl. reflexivity.
    + destruct (id q =? id p) eqn:He.
      * apply String.eqb_eq in He. exfalso. apply Hnotin. rewrite He.
        apply in_map. exact Hin.
      * apply IH; assumption.
Qed.

Lemma NoDup_map_filter {A B} (f : A -> B) (keep : A -> bool) (l : list A) :
  NoDup (map f l) -> NoDup (map f (filter keep l)).
Proof.
  induction l as [|x l IH]; simpl; intro Hnd.
  - constructor.
  - inversion Hnd as [|? ? Hnotin Hnd']; subst.
    destruct (keep x); simpl; [|apply IH, Hnd'].
    constructor; [|apply IH, Hnd'].
    intro Hin. apply Hnotin. apply in_map_iff in Hin.
    destruct Hin as [y [Hy Hin]]. apply filter_In in Hin.
    apply in_map_iff. exists y. tauto.
Qed.

(** [patient.syncStatus || 'pending']: the empty string is falsy. *)
Lemma or_pending_empty : or_pending (Some EmptyString) = "pending".
Proof. reflexivity. Qed.

(** C8, as the claim states it, fails: a record that arrives with a
    syncStatus, the empty string, is not stored with that status; it is
    stored as pending. *)
Lemma empty_status_is_not_preserved :
  let p := mkPatient "PAT-1001" (Some EmptyString) None None [("name", "Asha Rao")] in
  let saved := savePatient offline_env p (world_with_patients [] []) in
  ~ (exists stored,
       store_get (id p) (patients (after saved)) = Some stored
       /\ syncStatus stored = syncStatus p).
Proof.
  intros p saved (stored & Hget & Hstatus).
  vm_compute in Hget. injection Hget as <-. discriminate Hstatus.
Qed.

(** C8, amended: when the two store requests of [savePatient] succeed,
    the record stored under the patient's id is the incoming one with
    [updatedAt] set to the time read during the call and with
    [syncStatus] 'pending' when the incoming record had none or an empty
    one; a syncStatus that is not empty is kept as it is.  Nothing else
    of the record changes. *)
Theorem savePatient_stamps (E : Env) (p : Patient) (w : World)
  (Hopen : idb_error E (idb_requests w) = None)
  (Hput : idb_error E (S (idb_requests w)) = None) :
  let now := date_at E (dates_read w) in
  let saved := savePatient E p w in
  exists stored,
    result saved = Fulfilled (id p)
    /\ store_get (id p) (patients (after saved)) = Some stored
    /\ id stored = id p
    /\ details stored = details p
    /\ syncedAt stored = syncedAt p
    /\ updatedAt stored = Some now
    /\ (syncStatus p = None -> syncStatus stored = Some "pending")
    /\ (syncStatus p = Some EmptyString -> syncStatus stored = Some "pending")
    /\ (forall s, syncStatus p = Some s -> s <> EmptyString ->
                  syncStatus stored = Some s).
Proof.
  intros now saved.
  exists (with_updatedAt (Some now)
            (with_syncStatus (Some (or_pending (syncStatus p))) p)).
  subst saved.
  unfold savePatient, result, after, bind, openDatabase, idb_request, new_Date,
    modify, ret.
  rewrite Hopen. cbn. rewrite Hput. cbn.
  split; [reflexivity|]. split.
  - exact (store_get_put_same
             (with_updatedAt (Some now)
                (with_syncStatus (Some (or_pending (syncStatus p))) p))
             (patients w)).
  - repeat split.
    + intro Hnone. rewrite Hnone. reflexivity.
    + intro Hempty. rewrite Hempty. reflexivity.
    + intros s Hs Hne. rewrite Hs. cbn.
      destruct (s =? EmptyString) eqn:Hempty; [|reflexivity].
      apply String.eqb_eq in Hempty. contradiction.
Qed.

Lemma savePatient_stamps_witness :
  exists stored,
    store_get "PAT-1001"
      (patients (after (savePatient offline_env patient_A (world_with_patients [patient_B] []))))
    = Some stored
    /\ updatedAt stored = Some "2024-01-01T00:00:00.000Z"
    /\ syncStatus stored = Some "pending".
Proof.
  destruct (savePatient_stamps offline_env patient_A
              (world_with_patients [patient_B] []) eq_refl eq_refl)
    as (stored & _ & Hget & _ & _ & _ & Hupd & Hpending & _ & _).
  exists stored. split; [exact Hget|]. split; [exact Hupd|].
  apply Hpending. reflexivity.
Defined.

(** ** Invariants of the stores *)

Lemma key_lt_trans (p q r : Patient) : key_lt p q -> key_lt q r -> key_lt p r.
Proof.
  unfold key_lt. intros Hpq Hqr.
  apply String_as_OT.cmp_lt in Hpq. apply String_as_OT.cmp_lt in Hqr.
  apply String_as_OT.cmp_lt. eapply String_as_OT.lt_trans; eassumption.
Qed.

Lemma store_ordered_NoDup (db : list Patient) :
  store_ordered db -> NoDup (map id db).
Proof.
  unfold store_ordered. induction 1 as [|p db Hsorted IH Hall]; cbn.
  - constructor.
  - constructor; [|exact IH].
    intro Hin. apply in_map_iff in Hin. destruct Hin as [q [Hid Hq]].
    rewrite Forall_forall in Hall. specialize (Hall q Hq).
    apply compare_Lt_neq in Hall. congruence.
Qed.

Lemma In_store_put (p x : Patient) (db : list Patient) :
  In x (store_put p db) -> x = p \/ In x db.
Proof.
  unfold store_put. induction db as [|q db IH]; cbn.
  - intros [H | []]. left. symmetry. exact H.
  - destruct (String.compare (id p) (id q)); cbn.
    + intros [H | H]; [left; symmetry; exact H | right; right; exact H].
    + intros [H | H]; [left; symmetry; exact H | right; exact H].
    + intros [H | H]; [right; left; exact H|].
      destruct (IH H) as [Hx | Hx]; [left; exact Hx | right; right; exact Hx].
Qed.

(** [put] keeps the store in key order. *)
Lemma store_put_ordered (p : Patient) (db : list Patient) :
  store_ordered db -> store_ordered (store_put p db).
Proof.
  unfold store_ordered. induction 1 as [|q db Hsorted IH Hall].
  - cbn. constructor; constructor.
  - change (store_put p (q :: db)) with
      (match String.compare (id p) (id q) with
       | Lt => p :: q :: db
       | Eq => p :: db
       | Gt => q :: store_put p db
       end).
    destruct (String.compare (id p) (id q)) eqn:Hcmp.
    + apply String.compare_eq_iff in Hcmp.
      constructor; [exact Hsorted|].
      eapply Forall_impl; [|exact Hall]. intros r Hr.
      unfold key_lt in *. rewrite Hcmp. exact Hr.
    + constructor; [constructor; assumption|].
      constructor; [exact Hcmp|].
      eapply Forall_impl; [|exact Hall]. intros r Hr.
      eapply key_lt_trans; [exact Hcmp | exact Hr].
    + constructor; [exact IH|].
      apply Forall_forall. intros x Hx.
      destruct (In_store_put p x db Hx) as [-> | Hin].
      * unfold key_lt. rewrite String.compare_antisym, Hcmp. reflexivity.
      * rewrite Forall_forall in Hall. apply Hall, Hin.
Qed.

(** [cache.put] keeps one entry per key. *)
Lemma cache_put_distinct (k : string) (r : Response) (c : Cache) :
  distinct_keys c -> distinct_keys (cache_put k r c).
Proof.
  unfold distinct_keys, cache_put, cache_keys. intro Hnd.
  rewrite map_app. cbn [map fst].
  assert (Hfiltered : NoDup (map fst (cache_delete k c)))
    by (apply NoDup_map_filter, Hnd).
  assert (Habsent : ~ In k (map fst (cache_delete k c))).
  { intro Hin. apply in_map_iff in Hin. destruct Hin as [e [He Hin]].
    apply filter_In in Hin. destruct Hin as [_ Hne].
    apply negb_true_iff, String.eqb_neq in Hne. congruence. }
  clear Hnd. induction (map fst (cache_delete k c)) as [|x l IH]; cbn.
  - constructor; [intros [] | constructor].
  - inversion Hfiltered as [|? ? Hx Hl]; subst. constructor.
    + rewrite in_app_iff. intros [Hin | [Heq | []]]; [contradiction|].
      apply Habsent. left. symmetry. exact Heq.
    + apply IH; [exact Hl|]. intro Hin. apply Habsent. right. exact Hin.
Qed.

Section Preservation.

Variable Inv : World -> Prop.

Lemma preserves_ret {A} (a : A) : preserves Inv (ret a).
Proof. intros w H. exact H. Qed.

Lemma preserves_throw {A} (e : Error) : preserves Inv (@throw A e).
Proof. intros w H. exact H. Qed.

Lemma preserves_gets {A} (f : World -> A) : preserves Inv (gets f).
Proof. intros w H. exact H. Qed.

Lemma preserves_bind {A B} (m : M A) (k : A -> M B) :
  preserves Inv m -> (forall a, preserves Inv (k a)) -> preserves Inv (bind m k).
Proof.
  intros Hm Hk w Hw. specialize (Hm w Hw). unfold bind, after in *.
  destruct (m w) as [[a|e] w1]; cbn [snd] in *.
  - apply Hk. exact Hm.
  - exact Hm.
Qed.

Lemma preserves_try_catch {A} (m : M A) (h : Error -> M A) :
  preserves Inv m -> (forall e, preserves Inv (h e)) ->
  preserves Inv (try_catch m h).
Proof.
  intros Hm Hh w Hw. specialize (Hm w Hw). unfold try_catch, after in *.
  destruct (m w) as [[a|e] w1]; cbn [snd] in *.
  - exact Hm.
  - apply Hh. exact Hm.
Qed.

Lemma preserves_for_each {A} (l : list A) (body : A -> M unit) :
  (forall x, preserves Inv (body x)) -> preserves Inv (for_each l body).
Proof.
  intro Hbody. induction l as [|x l IH]; cbn [for_each].
  - apply preserves_ret.
  - apply preserves_bind; [apply Hbody | intros _; exact IH].
Qed.

End Preservation.

Lemma ordered_idb_request (E : Env) : preserves ordered_world (idb_request E).
Proof.
  intros w H. unfold idb_request, after.
  destruct (idb_error E (idb_requests w)); exact H.
Qed.

Lemma ordered_new_Date (E : Env) : preserves ordered_world (new_Date E).
Proof. intros w H. exact H. Qed.

Lemma ordered_put (p : Patient) :
  preserves ordered_world (modify (set_patients (store_put p))).
Proof. intros w H. apply store_put_ordered. exact H. Qed.

Lemma ordered_modify (f : World -> World) :
  (forall w, patients (f w) = patients w) -> preserves ordered_world (modify f).
Proof.
  intros Hf w H. unfold ordered_world, modify, after. cbn [snd].
  rewrite Hf. exact H.
Qed.

Lemma ordered_savePatient (E : Env) (p : Patient) :
  preserves ordered_world (savePatient E p).
Proof.
  unfold savePatient, openDatabase.
  apply preserves_bind; [apply ordered_idb_request | intros _].
  apply preserves_bind; [apply ordered_new_Date | intro now].
  apply preserves_bind; [apply ordered_idb_request | intros _].
  apply preserves_bind; [apply ordered_put | intros _; apply preserves_ret].
Qed.

Lemma ordered_markAsSynced (E : Env) (k : string) :
  preserves ordered_world (markAsSynced E k).
Proof.
  unfold markAsSynced, openDatabase.
  apply preserves_bind; [apply ordered_idb_request | intros _].
  apply preserves_bind; [apply ordered_idb_request | intros _].
  apply preserves_bind; [apply preserves_gets | intros [p|]];
    [|apply preserves_ret].
  apply preserves_bind; [apply ordered_new_Date | intro now].
  apply preserves_bind; [apply ordered_idb_request | intros _].
  apply ordered_put.
Qed.

Lemma ordered_syncPendingData (E : Env) :
  preserves ordered_world (syncPendingData E).
Proof.
  unfold syncPendingData, getPendingPatients, openDatabase.
  apply preserves_try_catch; [|intro; apply preserves_ret].
  apply preserves_bind.
  { apply preserves_bind; [apply ordered_idb_request | intros _].
    apply preserves_bind; [apply ordered_idb_request | intros _].
    apply preserves_gets. }
  intro pending. destruct (List.length pending =? 0)%nat; [apply preserves_ret|].
  apply preserves_bind.
  - apply preserves_for_each. intro p. apply ordered_markAsSynced.
  - intros _. apply preserves_bind; [apply preserves_gets | intro cs].
    apply preserves_for_each. intro c. unfold postMessage.
    apply ordered_modify. reflexivity.
Qed.

Lemma ordered_clear_puts (E : Env) (l : list Patient) :
  preserves ordered_world (clear_puts E l).
Proof.
  induction l as [|p l IH]; cbn [clear_puts].
  - apply preserves_ret.
  - apply preserves_bind; [apply ordered_new_Date | intro now].
    apply preserves_bind.
    + intros w H. unfold put_unawaited, after.
      destruct (idb_error E (idb_requests w)); cbn [snd].
      * exact H.
      * apply store_put_ordered. exact H.
    + intro done. apply preserves_bind; [exact IH | intro; apply preserves_ret].
Qed.

Lemma ordered_clear_pending (E : Env) : preserves ordered_world (clear_pending E).
Proof.
  intros w H. unfold clear_pending, bind, openDatabase, idb_request, after.
  destruct (idb_error E (idb_requests w)); cbn [snd]; [exact H|].
  cbn [idb_requests tick_idb].
  destruct (idb_error E (S (idb_requests w))); cbn [snd]; [exact H|].
  set (w2 := tick_idb (tick_idb w)).
  unfold try_catch, clear_onsuccess, bind, gets, reply, modify.
  pose proof (ordered_clear_puts E (store_pending (patients w2)) w2 H) as Hputs.
  unfold after in Hputs.
  destruct (clear_puts E (store_pending (patients w2)) w2) as [[[]|e] w3];
    cbn [snd] in *; assumption.
Qed.

(** The message listener keeps the patients store in key order, whatever
    the message and whichever requests fail. *)
Lemma on_message_keeps_order (E : Env) (ev : Envelope) :
  preserves ordered_world (on_message E ev).
Proof.
  unfold on_message.
  assert (Hreply : forall r, preserves ordered_world (reply r)).
  { intro r. unfold reply. apply ordered_modify. reflexivity. }
  apply preserves_try_catch; [|intro; apply Hreply].
  destruct (msg_type ev =? "SAVE_PATIENT").
  { apply preserves_bind; [|intro; apply Hreply].
    destruct (msg_data ev) as [d|]; [|apply preserves_throw].
    destruct (patient d) as [p|].
    - apply preserves_bind; [apply ordered_savePatient | intro; apply preserves_ret].
    - apply preserves_bind; [apply ordered_idb_request | intro; apply preserves_throw]. }
  assert (Hall : preserves ordered_world (getAllPatients E)).
  { unfold getAllPatients, openDatabase.
    apply preserves_bind; [apply ordered_idb_request | intros _].
    apply preserves_bind; [apply ordered_idb_request | intros _].
    apply preserves_gets. }
  destruct (msg_type ev =? "GET_PATIENTS").
  { apply preserves_bind; [exact Hall | intro; apply Hreply]. }
  destruct (msg_type ev =? "GET_PENDING_DATA").
  { apply preserves_bind; [|intro; apply Hreply].
    unfold getPendingPatients, openDatabase.
    apply preserves_bind; [apply ordered_idb_request | intros _].
    apply preserves_bind; [apply ordered_idb_request | intros _].
    apply preserves_gets. }
  destruct (msg_type ev =? "CLEAR_PENDING_DATA").
  { apply ordered_clear_pending. }
  destruct (msg_type ev =? "EXPORT_DATA").
  { apply preserves_bind; [exact Hall | intro].
    apply preserves_bind; [apply ordered_new_Date | intro; apply Hreply]. }
  destruct (msg_type ev =? "PERFORM_SYNC").
  { apply preserves_bind; [apply ordered_syncPendingData | intro; apply Hreply]. }
  apply Hreply.
Qed.

(** ** Reconciliation *)

Lemma markAsSynced_cases (E : Env) (k : string) (w : World) (p : Patient) :
  store_get k (patients w) = Some p ->
  let x := markAsSynced E k w in
  net_log (after x) = net_log w
  /\ outbox (after x) = outbox w
  /\ clients (after x) = clients w
  /\ dates_read w <= dates_read (after x)
  /\ ((result x = Fulfilled tt
       /\ patients (after x)
          = store_put (mark_synced (date_at E (dates_read w)) p) (patients w))
      \/ ((exists e, result x = Rejected e)
          /\ patients (after x) = patients w))
  /\ ((forall j, idb_error E j = None) -> result x = Fulfilled tt).
Proof.
  intros Hget x. subst x.
  unfold markAsSynced, result, after, bind, openDatabase, idb_request, gets,
    new_Date, modify, ret.
  destruct (idb_error E (idb_requests w)) as [e0|] eqn:H0; cbn.
  { repeat split; auto. right. split; [eauto | reflexivity].
    intro Hall. rewrite Hall in H0. discriminate. }
  destruct (idb_error E (S (idb_requests w))) as [e1|] eqn:H1; cbn.
  { repeat split; auto. right. split; [eauto | reflexivity].
    intro Hall. rewrite Hall in H1. discriminate. }
  rewrite Hget. cbn.
  destruct (idb_error E (S (S (idb_requests w)))) as [e2|] eqn:H2; cbn.
  { repeat split; auto. right. split; [eauto | reflexivity].
    intro Hall. rewrite Hall in H2. discriminate. }
  repeat split; auto.
Qed.

Lemma In_firstn {A} (n : nat) (l : list A) (x : A) :
  In x (firstn n l) -> In x l.
Proof.
  revert l. induction n as [|n IH]; intros [|y l]; simpl; try contradiction.
  intros [H | H]; [left; exact H | right; apply IH, H].
Qed.

Lemma id_mark_synced (t : string) (p : Patient) : id (mark_synced t p) = id p.
Proof. reflexivity. Qed.

(** The marking loop: it marks a prefix of the list, in order, and stops
    at the first store request that fails. *)
Lemma mark_loop (E : Env) (l : list Patient) :
  forall w,
    NoDup (map id l) ->
    (forall p, In p l -> store_get (id p) (patients w) = Some p) ->
    let x := for_each l (fun p => markAsSynced E (id p)) w in
    net_log (after x) = net_log w
    /\ outbox (after x) = outbox w
    /\ clients (after x) = clients w
    /\ exists n,
         n <= List.length l
         /\ (forall p, In p (firstn n l) ->
               exists j, store_get (id p) (patients (after x))
                         = Some (mark_synced (date_at E j) p))
         /\ (forall k, ~ In k (map id (firstn n l)) ->
               store_get k (patients (after x)) = store_get k (patients w))
         /\ ((result x = Fulfilled tt /\ n = List.length l)
             \/ ((exists e, result x = Rejected e) /\ n < List.length l))
         /\ ((forall j, idb_error E j = None) -> n = List.length l).
Proof.
  induction l as [|p l IH]; intros w Hnd Hstored x.
  - subst x. cbn. repeat split; auto. exists 0. cbn.
    repeat split; auto; try contradiction.
  - subst x. cbn [for_each]. unfold bind.
    pose proof (markAsSynced_cases E (id p) w p (Hstored p (or_introl eq_refl)))
      as (Hnet & Hout & Hcl & _ & Hcase & Hall).
    destruct (markAsSynced E (id p) w) as [[[]|e] w1] eqn:Hmark;
      unfold result, after in *; cbn [fst snd] in *.
    + destruct Hcase as [[_ Hpat] | [[e He] _]]; [|discriminate].
      inversion Hnd as [|? ? Hnotin Hnd']; subst.
      assert (Hstored1 : forall q, In q l -> store_get (id q) (patients w1) = Some q).
      { intros q Hq. rewrite Hpat, store_get_put_other.
        - apply Hstored. right. exact Hq.
        - rewrite id_mark_synced. intro Heq. apply Hnotin. rewrite <- Heq.
          apply in_map. exact Hq. }
      specialize (IH w1 Hnd' Hstored1). cbn zeta in IH.
      destruct IH as (Hnet' & Hout' & Hcl' & n & Hn & Hmarked & Hother & Hres & Hall').
      split; [congruence|]. split; [congruence|]. split; [congruence|].
      exists (S n). cbn [firstn List.length map].
      split; [lia|]. split; [|split; [|split]].
      * intros q [Hq | Hq].
        -- subst q. exists (dates_read w). rewrite Hother.
           ++ rewrite Hpat. apply (store_get_put_same (mark_synced _ p)).
           ++ intro Hin. apply Hnotin. apply in_map_iff in Hin.
              destruct Hin as [q [Hid Hin]]. rewrite <- Hid. apply in_map.
              eapply In_firstn. exact Hin.
        -- apply Hmarked. exact Hq.
      * intros k Hk. rewrite Hother.
        -- rewrite Hpat. apply store_get_put_other. rewrite id_mark_synced.
           intro Heq. apply Hk. left. symmetry. exact Heq.
        -- intro Hin. apply Hk. right. exact Hin.
      * destruct Hres as [[Hr Hlen] | [Hr Hlen]]; [left | right]; split; auto; lia.
      * intro Hno. rewrite (Hall' Hno). reflexivity.
    + destruct Hcase as [[Hr _] | [_ Hpat]]; [discriminate|].
      split; [exact Hnet|]. split; [exact Hout|]. split; [exact Hcl|].
      exists 0. cbn [firstn List.length map].
      split; [lia|]. split; [|split; [|split]].
      * intros q [].
      * intros k _. rewrite Hpat. reflexivity.
      * right. split; [eauto | lia].
      * intro Hno. specialize (Hall Hno). discriminate.
Qed.

Lemma broadcast_loop (m : ClientMsg) (cs : list nat) (w : World) :
  let x := for_each cs (postMessage m) w in
  result x = Fulfilled tt
  /\ outbox (after x) = outbox w ++ map (fun c => (c, m)) cs
  /\ patients (after x) = patients w
  /\ net_log (after x) = net_log w.
Proof.
  revert w. induction cs as [|c cs IH]; intro w.
  - cbn. rewrite app_nil_r. repeat split.
  - cbn [for_each map]. unfold bind.
    change (postMessage m c w) with (Fulfilled tt, send_client c m w).
    cbn iota beta.
    destruct (IH (send_client c m w)) as (Hr & Hout & Hpat & Hnet).
    split; [exact Hr|]. split; [|split; assumption].
    rewrite Hout. cbn [outbox send_client]. rewrite <- app_assoc. reflexivity.
Qed.

(** *** Which requests a batch depends on *)

Lemma requests_succeed_shift (E : Env) (from a n : nat) :
  requests_succeed E from (a + n) -> requests_succeed E (from + a) n.
Proof.
  intros H j Hj. rewrite <- Nat.add_assoc. apply H. lia.
Qed.

Lemma requests_succeed_fewer (E : Env) (from m n : nat) :
  m <= n -> requests_succeed E from n -> requests_succeed E from m.
Proof. intros Hle H j Hj. apply H. lia. Qed.

Lemma request_fails_more (E : Env) (from m n : nat) :
  m <= n -> request_fails E from m -> request_fails E from n.
Proof. intros Hle (j & Hj & Hfail). exists j. split; [lia | exact Hfail]. Qed.

Lemma request_fails_shift (E : Env) (from a n : nat) :
  requests_succeed E from a -> request_fails E from (a + n) ->
  request_fails E (from + a) n.
Proof.
  intros Hok (j & Hj & Hfail).
  destruct (Nat.lt_ge_cases j a) as [Hlt | Hge].
  - exfalso. apply Hfail, Hok, Hlt.
  - exists (j - a). split; [lia|].
    replace (from + a + (j - a)) with (from + j) by lia. exact Hfail.
Qed.

Lemma requests_succeed_not_fails (E : Env) (from n : nat) :
  requests_succeed E from n -> request_fails E from n -> False.
Proof. intros Hok (j & Hj & Hfail). apply Hfail, Hok, Hj. Qed.

Lemma request_fails_at (E : Env) (from n j : nat) (e : Error) :
  j < n -> idb_error E (from + j) = Some e -> request_fails E from n.
Proof. intros Hj He. exists j. split; [exact Hj | congruence]. Qed.

Lemma mark_synced_fields (t : string) (p : Patient) :
  mark_synced t p
  = mkPatient (id p) (Some "synced") (updatedAt p) (Some t) (details p).
Proof. reflexivity. Qed.

(** [markAsSynced] of a stored record issues three requests (open, get,
    put) and reads the clock once before the put. *)
Lemma markAsSynced_exact (E : Env) (k : string) (w : World) (p : Patient) :
  store_get k (patients w) = Some p ->
  let x := markAsSynced E k w in
  (requests_succeed E (idb_requests w) 3 ->
     x = (Fulfilled tt,
          set_patients (store_put (mark_synced (date_at E (dates_read w)) p))
            (tick_idb (tick_date (tick_idb (tick_idb w))))))
  /\ (request_fails E (idb_requests w) 3 ->
        (exists e, result x = Rejected e)
        /\ patients (after x) = patients w
        /\ net_log (after x) = net_log w
        /\ outbox (after x) = outbox w
        /\ clients (after x) = clients w).
Proof.
  intros Hget x. subst x.
  unfold markAsSynced, openDatabase.
  unfold result, after, bind, idb_request, gets, new_Date, modify, ret.
  split.
  - intro Hok.
    pose proof (Hok 0 ltac:(lia)) as H0. rewrite Nat.add_0_r in H0.
    pose proof (Hok 1 ltac:(lia)) as H1. rewrite Nat.add_1_r in H1.
    pose proof (Hok 2 ltac:(lia)) as H2.
    replace (idb_requests w + 2) with (S (S (idb_requests w))) in H2 by lia.
    rewrite H0. cbn [idb_requests tick_idb]. rewrite H1.
    cbn [patients tick_idb]. rewrite Hget.
    cbn [idb_requests tick_idb tick_date]. rewrite H2. reflexivity.
  - intro Hfail.
    destruct (idb_error E (idb_requests w)) as [e0|] eqn:H0; cbn [fst snd].
    { repeat split; eauto. }
    cbn [idb_requests tick_idb].
    destruct (idb_error E (S (idb_requests w))) as [e1|] eqn:H1; cbn [fst snd].
    { repeat split; eauto. }
    cbn [patients tick_idb]. rewrite Hget.
    cbn [idb_requests tick_idb tick_date].
    destruct (idb_error E (S (S (idb_requests w)))) as [e2|] eqn:H2; cbn [fst snd].
    { repeat split; eauto. }
    exfalso. destruct Hfail as (j & Hj & Hbad). apply Hbad.
    destruct j as [|[|[|j]]]; [| | |lia].
    + rewrite Nat.add_0_r. exact H0.
    + rewrite Nat.add_1_r. exact H1.
    + replace (idb_requests w + 2) with (S (S (idb_requests w))) by lia. exact H2.
Qed.

Lemma requests_succeed_or_fail (E : Env) (from n : nat) :
  requests_succeed E from n \/ request_fails E from n.
Proof.
  induction n as [|n [IH | IH]].
  - left. intros j Hj. lia.
  - destruct (idb_error E (from + n)) as [e|] eqn:Hn.
    + right. exists n. split; [lia | congruence].
    + left. intros j Hj. destruct (Nat.eq_dec j n) as [-> | Hne]; [exact Hn|].
      apply IH. lia.
  - right. apply (request_fails_more E from n); [lia | exact IH].
Qed.

(** The marking loop, request by request: the record at position [i] is
    marked, with the [i]-th time read, exactly when the requests of the
    records up to it all succeed; the loop stops at the first request
    that fails and every record from there on stays as it was. *)
Lemma mark_loop_exact (E : Env) (l : list Patient) :
  forall w,
    NoDup (map id l) ->
    (forall p, In p l -> store_get (id p) (patients w) = Some p) ->
    let x := for_each l (fun p => markAsSynced E (id p)) w in
    net_log (after x) = net_log w
    /\ outbox (after x) = outbox w
    /\ clients (after x) = clients w
    /\ (forall i p, nth_error l i = Some p ->
          (requests_succeed E (idb_requests w) (3 * S i) ->
             store_get (id p) (patients (after x))
             = Some (mark_synced (date_at E (dates_read w + i)) p))
          /\ (request_fails E (idb_requests w) (3 * S i) ->
                store_get (id p) (patients (after x)) = Some p))
    /\ (forall k, ~ In k (map id l) ->
          store_get k (patients (after x)) = store_get k (patients w))
    /\ (requests_succeed E (idb_requests w) (3 * List.length l) ->
          result x = Fulfilled tt)
    /\ (request_fails E (idb_requests w) (3 * List.length l) ->
          exists e, result x = Rejected e).
Proof.
  induction l as [|p l IH]; intros w Hnd Hstored x.
  - subst x. cbn. repeat split; auto.
    + destruct i; discriminate.
    + destruct i; discriminate.
    + intros (j & Hj & _). lia.
  - subst x. cbn [for_each]. unfold bind.
    inversion Hnd as [|? ? Hnotin Hnd']; subst.
    pose proof (markAsSynced_exact E (id p) w p (Hstored p (or_introl eq_refl)))
      as (Hgood & Hbad).
    destruct (requests_succeed_or_fail E (idb_requests w) 3) as [Hthree | Hthree].
    + specialize (Hgood Hthree). clear Hbad. rewrite Hgood.
      set (w1 := set_patients
                   (store_put (mark_synced (date_at E (dates_read w)) p))
                   (tick_idb (tick_date (tick_idb (tick_idb w))))).
      assert (Hreq : idb_requests w1 = idb_requests w + 3) by (cbn; lia).
      assert (Hdate : dates_read w1 = dates_read w + 1) by (cbn; lia).
      assert (Hstored1 : forall q, In q l -> store_get (id q) (patients w1) = Some q).
      { intros q Hq. cbn. rewrite store_get_put_other.
        - apply Hstored. right. exact Hq.
        - rewrite id_mark_synced. intro Heq. apply Hnotin. rewrite <- Heq.
          apply in_map. exact Hq. }
      specialize (IH w1 Hnd' Hstored1). cbn zeta in IH.
      destruct IH as (Hnet & Hout & Hcl & Hrec & Hother & Hres & Hrej).
      rewrite Hreq in Hrec, Hres, Hrej. rewrite Hdate in Hrec.
      split; [exact Hnet|]. split; [exact Hout|]. split; [exact Hcl|].
      split; [|split; [|split]].
      * intros [|i] q Hq; cbn [nth_error] in Hq.
        -- injection Hq as <-. split.
           ++ intros _. rewrite Nat.add_0_r. rewrite (Hother (id p) Hnotin).
              cbn. apply (store_get_put_same (mark_synced _ p)).
           ++ intro Hfail. exfalso.
              apply (requests_succeed_not_fails E (idb_requests w) 3); assumption.
        -- destruct (Hrec i q Hq) as [Hyes Hno]. split.
           ++ intro Hok.
              replace (dates_read w + S i) with (dates_read w + 1 + i) by lia.
              apply Hyes. apply requests_succeed_shift.
              apply (requests_succeed_fewer E _ (3 + 3 * S i) (3 * S (S i)));
                [lia | exact Hok].
           ++ intro Hfail. apply Hno.
              apply request_fails_shift; [exact Hthree|].
              apply (request_fails_more E _ (3 * S (S i))); [lia | exact Hfail].
      * intros k Hk. rewrite Hother.
        -- cbn. apply store_get_put_other. rewrite id_mark_synced.
           intro Heq. apply Hk. left. symmetry. exact Heq.
        -- intro Hin. apply Hk. right. exact Hin.
      * intro Hok. apply Hres. apply requests_succeed_shift.
        apply (requests_succeed_fewer E _ (3 + 3 * List.length l)
                 (3 * List.length (p :: l)));
          [cbn [List.length]; lia | exact Hok].
      * intro Hfail. apply Hrej.
        apply request_fails_shift; [exact Hthree|].
        apply (request_fails_more E _ (3 * List.length (p :: l)));
          [cbn [List.length]; lia | exact Hfail].
    + destruct (Hbad Hthree) as ((e & He) & Hpat & Hnet & Hout & Hcl). clear Hgood Hbad.
      unfold result, after in *.
      destruct (markAsSynced E (id p) w) as [[[]|e'] w1]; cbn [fst snd] in *;
        [discriminate|].
      split; [exact Hnet|]. split; [exact Hout|]. split; [exact Hcl|].
      split; [|split; [|split]].
      * intros i q Hq. split.
        -- intro Hok. exfalso.
           apply (requests_succeed_not_fails E (idb_requests w) 3); [|exact Hthree].
           apply (requests_succeed_fewer E _ 3 (3 * S i)); [lia | exact Hok].
        -- intros _. rewrite Hpat. apply Hstored. eapply nth_error_In. exact Hq.
      * intros k _. rewrite Hpat. reflexivity.
      * intro Hok. exfalso.
        apply (requests_succeed_not_fails E (idb_requests w) 3); [|exact Hthree].
        apply (requests_succeed_fewer E _ 3 (3 * List.length (p :: l)));
          [cbn [List.length]; lia | exact Hok].
      * intros _. eauto.
Qed.

Lemma syncPendingData_eq (E : Env) (w : World) :
  syncPendingData E w =
  match idb_error E (idb_requests w) with
  | Some _ => (Fulfilled tt, tick_idb w)
  | None =>
      match idb_error E (S (idb_requests w)) with
      | Some _ => (Fulfilled tt, tick_idb (tick_idb w))
      | None =>
          let w2 := tick_idb (tick_idb w) in
          let pending := store_pending (patients w) in
          if (List.length pending =? 0)%nat then (Fulfilled tt, w2)
          else
            match for_each pending (fun p => markAsSynced E (id p)) w2 with
            | (Fulfilled _, w3) =>
                match for_each (clients w3)
                        (postMessage (SYNC_COMPLETE (List.length pending))) w3 with
                | (Fulfilled a, w4) => (Fulfilled a, w4)
                | (Rejected _, w4) => (Fulfilled tt, w4)
                end
            | (Rejected _, w3) => (Fulfilled tt, w3)
            end
      end
  end.
Proof.
  unfold syncPendingData, getPendingPatients, openDatabase, idb_request, gets,
    try_catch, bind.
  destruct (idb_error E (idb_requests w)); [reflexivity|].
  cbn [idb_requests tick_idb].
  destruct (idb_error E (S (idb_requests w))); [reflexivity|].
  cbn [patients tick_idb].
  destruct (List.length (store_pending (patients w)) =? 0)%nat; cbn zeta;
    [reflexivity|].
  destruct (for_each _ _ (tick_idb (tick_idb w))) as [[a|e] w3]; reflexivity.
Qed.

(** The index returns the pending records by key, not by creation: a
    record saved later under a smaller id is read first. *)
Lemma pending_order_is_key_order :
  let w0 := world_with_patients [] [] in
  let w1 := after (savePatient offline_env patient_B w0) in
  let w2 := after (savePatient offline_env patient_E w1) in
  map id (store_pending (patients w2)) = ["EMG-1003"; "PAT-1002"].
Proof. vm_compute. reflexivity. Qed.

(** C1, as the spec states it, fails: two pending records and one
    connected client; the first record is marked, the put of the second
    fails.  The batch stops and no completion message reaches the client,
    with whatever count. *)
Lemma failed_batch_sends_no_broadcast :
  let w := world_with_patients [patient_B; patient_C] [1] in
  let x := syncPendingData (failing_at 7) w in
  ~ (exists count, outbox (after x) = broadcast count (clients w)).
Proof.
  intros w x [count H]. vm_compute in H. discriminate H.
Qed.

(** C1, amended: a reconciliation batch reads the records whose
    syncStatus is pending in the order of the store's index and, with no
    network operation, marks them synced one after the other, stamping
    syncedAt; it stops at the first store request that fails and leaves
    that record and the later ones as they were.  Only when there was at
    least one pending record and all were marked does every connected
    client get exactly one SYNC_COMPLETE message, carrying the number of
    pending records; a batch that is empty or that stopped sends none.

    The batch issues two requests to read the pending records and then
    three per record (open, get, put), so the record at position [i] is
    marked exactly when the first [5 + 3 * i] requests succeed; it is
    then the stored record with syncStatus 'synced' and syncedAt the
    [i]-th time read, its other fields as before. *)
Theorem reconciliation_batch (E : Env) (w : World)
  (Hids : NoDup (map id (patients w))) :
  let pending := store_pending (patients w) in
  let first := idb_requests w in
  let x := syncPendingData E w in
  result x = Fulfilled tt
  /\ net_log (after x) = net_log w
  /\ (forall i p, nth_error pending i = Some p ->
        (requests_succeed E first (5 + 3 * i) ->
           store_get (id p) (patients (after x))
           = Some (mkPatient (id p) (Some "synced") (updatedAt p)
                     (Some (date_at E (dates_read w + i))) (details p)))
        /\ (request_fails E first (5 + 3 * i) ->
              store_get (id p) (patients (after x)) = Some p))
  /\ (forall k, ~ In k (map id pending) ->
        store_get k (patients (after x)) = store_get k (patients w))
  /\ (pending <> [] ->
      requests_succeed E first (2 + 3 * List.length pending) ->
        outbox (after x)
        = outbox w ++ broadcast (List.length pending) (clients w))
  /\ (pending = [] \/ request_fails E first (2 + 3 * List.length pending) ->
        outbox (after x) = outbox w).
Proof.
  intros pending first x. subst x first.
  assert (Hnd : NoDup (map id pending)) by (apply NoDup_map_filter, Hids).
  assert (Hin : forall p, In p pending -> store_get (id p) (patients w) = Some p).
  { intros p Hp. apply filter_In in Hp. apply store_get_in; tauto. }
  (* what holds when the batch ends before the first record *)
  assert (Hstop : forall w',
            net_log w' = net_log w -> outbox w' = outbox w ->
            patients w' = patients w ->
            (pending = [] \/ request_fails E (idb_requests w) 2) ->
            result (@Fulfilled unit tt, w') = Fulfilled tt
            /\ net_log (after (@Fulfilled unit tt, w')) = net_log w
            /\ (forall i p, nth_error pending i = Some p ->
                  (requests_succeed E (idb_requests w) (5 + 3 * i) ->
                     store_get (id p) (patients (after (@Fulfilled unit tt, w')))
                     = Some (mkPatient (id p) (Some "synced") (updatedAt p)
                               (Some (date_at E (dates_read w + i))) (details p)))
                  /\ (request_fails E (idb_requests w) (5 + 3 * i) ->
                        store_get (id p) (patients (after (@Fulfilled unit tt, w')))
                        = Some p))
            /\ (forall k, ~ In k (map id pending) ->
                  store_get k (patients (after (@Fulfilled unit tt, w')))
                  = store_get k (patients w))
            /\ (pending <> [] ->
                requests_succeed E (idb_requests w) (2 + 3 * List.length pending) ->
                  outbox (after (@Fulfilled unit tt, w'))
                  = outbox w ++ broadcast (List.length pending) (clients w))
            /\ (pending = [] \/
                request_fails E (idb_requests w) (2 + 3 * List.length pending) ->
                  outbox (after (@Fulfilled unit tt, w')) = outbox w)).
  { intros w' Hn Ho Hp Hwhy. unfold result, after. cbn [fst snd].
    split; [reflexivity|]. split; [exact Hn|]. rewrite Hp.
    split; [|split; [|split]].
    - intros i p Hi. split.
      + intro Hok. exfalso. destruct Hwhy as [Hnil | Hfail].
        * rewrite Hnil in Hi. destruct i; discriminate.
        * apply (requests_succeed_not_fails E (idb_requests w) 2); [|exact Hfail].
          apply (requests_succeed_fewer E _ 2 (5 + 3 * i)); [lia | exact Hok].
      + intros _. apply Hin. eapply nth_error_In. exact Hi.
    - reflexivity.
    - intros Hne Hok. exfalso. destruct Hwhy as [Hnil | Hfail]; [contradiction|].
      apply (requests_succeed_not_fails E (idb_requests w) 2); [|exact Hfail].
      apply (requests_succeed_fewer E _ 2 (2 + 3 * List.length pending));
        [lia | exact Hok].
    - intros _. exact Ho. }
  rewrite syncPendingData_eq.
  destruct (idb_error E (idb_requests w)) as [e0|] eqn:H0.
  { apply (Hstop (tick_idb w)); try reflexivity.
    right. apply (request_fails_at E _ 2 0 e0); [lia|].
    rewrite Nat.add_0_r. exact H0. }
  destruct (idb_error E (S (idb_requests w))) as [e1|] eqn:H1.
  { apply (Hstop (tick_idb (tick_idb w))); try reflexivity.
    right. apply (request_fails_at E _ 2 1 e1); [lia|].
    rewrite Nat.add_1_r. exact H1. }
  assert (Htwo : requests_succeed E (idb_requests w) 2).
  { intros [|[|j]] Hj; [| |lia].
    - rewrite Nat.add_0_r. exact H0.
    - rewrite Nat.add_1_r. exact H1. }
  cbn zeta. fold pending.
  destruct (List.length pending =? 0)%nat eqn:Hlen.
  { apply (Hstop (tick_idb (tick_idb w))); try reflexivity.
    left. apply Nat.eqb_eq in Hlen.
    destruct pending; [reflexivity | discriminate]. }
  apply Nat.eqb_neq in Hlen.
  set (w2 := tick_idb (tick_idb w)).
  assert (Hstored : forall p, In p pending -> store_get (id p) (patients w2) = Some p)
    by exact Hin.
  pose proof (mark_loop_exact E pending w2 Hnd Hstored)
    as (Hnet & Hout & Hcl & Hrec & Hother & Hres & Hrej).
  replace (idb_requests w2) with (idb_requests w + 2) in Hrec, Hres, Hrej
    by (cbn; lia).
  cbn [w2 tick_idb net_log outbox clients patients dates_read] in Hnet, Hout, Hcl,
    Hother, Hrec.
  assert (Hrecords : forall w4,
            patients w4
            = patients (after (for_each pending (fun p => markAsSynced E (id p)) w2)) ->
            (forall i p, nth_error pending i = Some p ->
               (requests_succeed E (idb_requests w) (5 + 3 * i) ->
                  store_get (id p) (patients w4)
                  = Some (mkPatient (id p) (Some "synced") (updatedAt p)
                            (Some (date_at E (dates_read w + i))) (details p)))
               /\ (request_fails E (idb_requests w) (5 + 3 * i) ->
                     store_get (id p) (patients w4) = Some p))
            /\ (forall k, ~ In k (map id pending) ->
                  store_get k (patients w4) = store_get k (patients w))).
  { intros w4 Hsame. rewrite Hsame. split; [|exact Hother].
    intros i p Hi. destruct (Hrec i p Hi) as [Hyes Hno]. split.
    - intro Hok. rewrite <- mark_synced_fields. apply Hyes.
      apply requests_succeed_shift.
      apply (requests_succeed_fewer E _ (2 + 3 * S i) (5 + 3 * i));
        [lia | exact Hok].
    - intro Hfail. apply Hno. apply request_fails_shift; [exact Htwo|].
      apply (request_fails_more E _ (5 + 3 * i)); [lia | exact Hfail]. }
  destruct (requests_succeed_or_fail E (idb_requests w + 2) (3 * List.length pending))
    as [Hall | Hsome].
  - specialize (Hres Hall). clear Hrej.
    unfold result, after in *.
    destruct (for_each pending (fun p => markAsSynced E (id p)) w2) as [[[]|e] w3];
      cbn [fst snd] in *; [|discriminate].
    pose proof (broadcast_loop (SYNC_COMPLETE (List.length pending)) (clients w3) w3)
      as (Hr & Hbout & Hbpat & Hbnet).
    unfold result, after in *.
    destruct (for_each (clients w3) (postMessage (SYNC_COMPLETE (List.length pending))) w3)
      as [r w4]; cbn [fst snd] in *.
    subst r. cbn [fst snd]. split; [reflexivity|]. split; [congruence|].
    destruct (Hrecords w4 Hbpat) as [Hmarked Hrest].
    split; [exact Hmarked|]. split; [exact Hrest|]. split.
    + intros _ _. rewrite Hbout, Hout, Hcl. reflexivity.
    + intros [Hnil | Hfail]; exfalso.
      * apply Hlen. rewrite Hnil. reflexivity.
      * apply (requests_succeed_not_fails E (idb_requests w + 2)
                 (3 * List.length pending)); [exact Hall|].
        apply request_fails_shift; assumption.
  - destruct (Hrej Hsome) as [e He]. clear Hres Hrej.
    unfold result, after in *.
    destruct (for_each pending (fun p => markAsSynced E (id p)) w2) as [[[]|e'] w3];
      cbn [fst snd] in *; [discriminate|].
    split; [reflexivity|]. split; [exact Hnet|].
    destruct (Hrecords w3 eq_refl) as [Hmarked Hrest].
    split; [exact Hmarked|]. split; [exact Hrest|]. split.
    + intros _ Hok. exfalso.
      apply (requests_succeed_not_fails E (idb_requests w + 2)
               (3 * List.length pending)); [|exact Hsome].
      apply requests_succeed_shift. exact Hok.
    + intros _. exact Hout.
Qed.

Lemma reconciliation_batch_witness :
  let w := world_with_patients [patient_S; patient_B; patient_C] [1; 2] in
  let x := syncPendingData (failing_at 7) w in
  NoDup (map id (patients w))
  /\ store_get "PAT-1002" (patients (after x))
     = Some (mkPatient "PAT-1002" (Some "synced") None
               (Some "2024-01-01T00:00:00.000Z")
               [("name", "Ben Ito"); ("priority", "yellow")])
  /\ store_get "PAT-1003" (patients (after x)) = Some patient_C
  /\ outbox (after x) = [].
Proof.
  intros w x.
  assert (H : NoDup (map id (patients w))).
  { apply distinctb_NoDup. vm_compute. reflexivity. }
  split; [exact H|].
  destruct (reconciliation_batch (failing_at 7) w H)
    as (_ & _ & Hrec & _ & _ & Hquiet).
  assert (Hfail : request_fails (failing_at 7) (idb_requests w) 8).
  { exists 7. split; [lia | discriminate]. }
  split; [|split].
  - apply (proj1 (Hrec 0 patient_B eq_refl)).
    intros j Hj. do 5 (destruct j as [|j]; [reflexivity|]). lia.
  - apply (proj2 (Hrec 1 patient_C eq_refl)). exact Hfail.
  - apply Hquiet. right. exact Hfail.
Defined.

(** ** CLEAR_PENDING_DATA *)

Lemma clear_puts_cons (E : Env) (p : Patient) (l : list Patient) (w : World) :
  clear_puts E (p :: l) w =
  match idb_error E (idb_requests w) with
  | Some _ =>
      match clear_puts E l (tick_idb (tick_date w)) with
      | (Fulfilled _, w') => (Fulfilled false, w')
      | (Rejected e, w') => (Rejected e, w')
      end
  | None =>
      match clear_puts E l
              (set_patients (store_put (mark_synced (date_at E (dates_read w)) p))
                 (tick_idb (tick_date w))) with
      | (Fulfilled others, w') => (Fulfilled others, w')
      | (Rejected e, w') => (Rejected e, w')
      end
  end.
Proof.
  cbn [clear_puts]. unfold bind, new_Date, put_unawaited.
  cbn [idb_requests tick_date dates_read].
  destruct (idb_error E (idb_requests w)).
  - destruct (clear_puts E l _) as [[c|e'] w']; reflexivity.
  - destruct (clear_puts E l _) as [[c|e'] w']; reflexivity.
Qed.

Lemma clear_puts_spec (E : Env) (l : list Patient) :
  forall w,
    NoDup (map id l) ->
    let x := clear_puts E l w in
    net_log (after x) = net_log w
    /\ outbox (after x) = outbox w
    /\ replies (after x) = replies w
    /\ exists committed,
         result x = Fulfilled committed
         /\ (committed = true ->
               (forall p, In p l ->
                  exists j, store_get (id p) (patients (after x))
                            = Some (mark_synced (date_at E j) p))
               /\ (forall k, ~ In k (map id l) ->
                     store_get k (patients (after x)) = store_get k (patients w)))
         /\ ((forall j, idb_error E j = None) -> committed = true).
Proof.
  induction l as [|p l IH]; intros w Hnd x; subst x.
  - cbn. repeat split; auto. exists true. repeat split; auto.
    intros p [].
  - inversion Hnd as [|? ? Hnotin Hnd']; subst.
    rewrite clear_puts_cons.
    destruct (idb_error E (idb_requests w)) as [e|] eqn:Herr.
    + set (w1 := tick_idb (tick_date w)).
      specialize (IH w1 Hnd'). cbn zeta in IH.
      destruct IH as (Hnet & Hout & Hrep & c & Hres & _ & _).
      unfold result, after in *.
      destruct (clear_puts E l w1) as [[c'|e'] w2]; cbn [fst snd] in *;
        [|discriminate].
      split; [exact Hnet|]. split; [exact Hout|]. split; [exact Hrep|].
      exists false. split; [reflexivity|]. split; [discriminate|].
      intro Hall. rewrite Hall in Herr. discriminate.
    + set (marked := mark_synced (date_at E (dates_read w)) p).
      set (w1 := set_patients (store_put marked) (tick_idb (tick_date w))).
      specialize (IH w1 Hnd'). cbn zeta in IH.
      destruct IH as (Hnet & Hout & Hrep & c & Hres & Hdone & Hall).
      unfold result, after in *.
      destruct (clear_puts E l w1) as [[c'|e'] w2]; cbn [fst snd] in *;
        [|discriminate].
      injection Hres as Hc. subst c'.
      split; [exact Hnet|]. split; [exact Hout|]. split; [exact Hrep|].
      exists c. split; [reflexivity|]. split; [|exact Hall].
      intro Hc. destruct (Hdone Hc) as (Hmarked & Hother). split.
      * intros q [Hq | Hq].
        -- subst q. exists (dates_read w). rewrite (Hother (id p) Hnotin).
           exact (store_get_put_same marked (patients w)).
        -- apply Hmarked. exact Hq.
      * intros k Hk. rewrite Hother.
        -- apply (store_get_put_other marked). intro Heq. apply Hk. left.
           symmetry. exact Heq.
        -- intro Hin. apply Hk. right. exact Hin.
Qed.

Lemma on_message_clear (E : Env) (d : option MsgData) (w : World) :
  on_message E (mkEnvelope "CLEAR_PENDING_DATA" d) w
  = try_catch (clear_pending E) (fun error => reply (reply_error error)) w.
Proof. reflexivity. Qed.

(** The puts of CLEAR_PENDING_DATA, request by request: one request and
    one reading of the clock per record; the transaction commits exactly
    when every put succeeds. *)
Lemma clear_puts_exact (E : Env) (l : list Patient) :
  forall w,
    NoDup (map id l) ->
    let x := clear_puts E l w in
    exists committed,
      result x = Fulfilled committed
      /\ (requests_succeed E (idb_requests w) (List.length l) ->
            committed = true
            /\ (forall i p, nth_error l i = Some p ->
                  store_get (id p) (patients (after x))
                  = Some (mark_synced (date_at E (dates_read w + i)) p))
            /\ (forall k, ~ In k (map id l) ->
                  store_get k (patients (after x)) = store_get k (patients w)))
      /\ (request_fails E (idb_requests w) (List.length l) -> committed = false).
Proof.
  induction l as [|p l IH]; intros w Hnd x; subst x.
  - exists true. cbn. split; [reflexivity|]. split.
    + intros _. split; [reflexivity|]. split; [|reflexivity].
      intros [|i] p Hp; discriminate.
    + intros (j & Hj & _). lia.
  - inversion Hnd as [|? ? Hnotin Hnd']; subst.
    rewrite clear_puts_cons.
    destruct (idb_error E (idb_requests w)) as [e|] eqn:Herr.
    + set (w1 := tick_idb (tick_date w)).
      destruct (IH w1 Hnd') as (c & Hres & _). cbn zeta in Hres.
      unfold result, after in *.
      destruct (clear_puts E l w1) as [[c'|e'] w2]; cbn [fst snd] in *;
        [|discriminate].
      exists false. split; [reflexivity|]. split; [|reflexivity].
      intro Hok. exfalso. specialize (Hok 0 ltac:(cbn; lia)).
      rewrite Nat.add_0_r in Hok. congruence.
    + set (marked := mark_synced (date_at E (dates_read w)) p).
      set (w1 := set_patients (store_put marked) (tick_idb (tick_date w))).
      assert (Hfirst : requests_succeed E (idb_requests w) 1).
      { intros [|j] Hj; [|lia]. rewrite Nat.add_0_r. exact Herr. }
      destruct (IH w1 Hnd') as (c & Hres & Hgood & Hbad). cbn zeta in Hres, Hgood.
      replace (idb_requests w1) with (idb_requests w + 1) in Hgood, Hbad
        by (cbn; lia).
      replace (dates_read w1) with (dates_read w + 1) in Hgood by (cbn; lia).
      unfold result, after in *.
      destruct (clear_puts E l w1) as [[c'|e'] w2]; cbn [fst snd] in *;
        [|discriminate].
      injection Hres as ->.
      exists c. split; [reflexivity|]. split.
      * intro Hok.
        destruct (Hgood (requests_succeed_shift E _ 1 (List.length l) Hok))
          as (Hc & Hrec & Hother).
        split; [exact Hc|]. split.
        -- intros [|i] q Hq; cbn [nth_error] in Hq.
           ++ injection Hq as <-. rewrite Nat.add_0_r.
              rewrite (Hother (id p) Hnotin).
              exact (store_get_put_same marked (patients w)).
           ++ replace (dates_read w + S i) with (dates_read w + 1 + i) by lia.
              apply Hrec. exact Hq.
        -- intros k Hk. rewrite Hother.
           ++ apply (store_get_put_other marked). intro Heq. apply Hk. left.
              symmetry. exact Heq.
           ++ intro Hin. apply Hk. right. exact Hin.
      * intro Hfail. apply Hbad.
        apply request_fails_shift; [exact Hfirst | exact Hfail].
Qed.

(** C10, as the claim states it, fails: a put that fails rolls the
    transaction back, yet the reply, posted before, carries the number of
    pending records read although none was cleared; and when the database
    cannot be opened a reply is posted all the same, by the catch block
    of the listener and not by the read's success callback. *)
Lemma clear_reply_counts_records_not_cleared :
  let w := world_with_patients [patient_S; patient_B; patient_C] [] in
  let clear := mkEnvelope "CLEAR_PENDING_DATA" None in
  let put_fails := after (on_message (failing_at 3) clear w) in
  let open_fails := after (on_message (failing_at 0) clear w) in
  replies put_fails = [reply_ok (Cleared 2)]
  /\ patients put_fails = patients w
  /\ replies open_fails = [reply_error "QuotaExceededError"].
Proof. vm_compute. repeat split. Qed.

(** C10, amended: CLEAR_PENDING_DATA issues no network request and the
    listener's promise fulfils.  It issues one request to open the
    database, one to read the pending records and one put per record.
    When the open fails, the catch block of the listener posts a failure
    reply and the store is unchanged.  When the read fails, no reply is
    posted and the store is unchanged.  When both succeed, the one reply
    is posted from the read's success callback and carries the number of
    pending records read; then, if every put succeeds, the pending record
    at position [i] is stored with syncStatus 'synced' and syncedAt the
    [i]-th time read, its other fields and the other records as before;
    if a put fails, the transaction is rolled back and the store is as
    it was, whatever the reply said. *)
Theorem clear_pending_data (E : Env) (d : option MsgData) (w : World)
  (Hids : NoDup (map id (patients w))) :
  let pending := store_pending (patients w) in
  let first := idb_requests w in
  let x := on_message E (mkEnvelope "CLEAR_PENDING_DATA" d) w in
  result x = Fulfilled tt
  /\ net_log (after x) = net_log w
  /\ outbox (after x) = outbox w
  /\ (forall e, idb_error E first = Some e ->
        replies (after x) = replies w ++ [reply_error e]
        /\ patients (after x) = patients w)
  /\ (idb_error E first = None -> idb_error E (S first) <> None ->
        replies (after x) = replies w /\ patients (after x) = patients w)
  /\ (requests_succeed E first 2 ->
        replies (after x)
        = replies w ++ [reply_ok (Cleared (List.length pending))]
        /\ (requests_succeed E first (2 + List.length pending) ->
              (forall i p, nth_error pending i = Some p ->
                 store_get (id p) (patients (after x))
                 = Some (mkPatient (id p) (Some "synced") (updatedAt p)
                           (Some (date_at E (dates_read w + i))) (details p)))
              /\ (forall k, ~ In k (map id pending) ->
                    store_get k (patients (after x)) = store_get k (patients w)))
        /\ (request_fails E first (2 + List.length pending) ->
              patients (after x) = patients w)).
Proof.
  intros pending first x. subst x first. rewrite on_message_clear.
  unfold try_catch, clear_pending, bind, openDatabase, idb_request.
  destruct (idb_error E (idb_requests w)) as [e0|] eqn:Hopen.
  { unfold result, after, reply, modify. cbn [fst snd].
    split; [reflexivity|]. split; [reflexivity|]. split; [reflexivity|].
    split; [intros e He; injection He as <-; split; reflexivity|].
    split; [intro Hnone; discriminate Hnone|].
    intro Hok. exfalso. specialize (Hok 0 ltac:(lia)).
    rewrite Nat.add_0_r in Hok. congruence. }
  cbn [idb_requests tick_idb].
  destruct (idb_error E (S (idb_requests w))) as [e1|] eqn:Hread.
  { unfold result, after. cbn [fst snd].
    split; [reflexivity|]. split; [reflexivity|]. split; [reflexivity|].
    split; [intros e He; discriminate He|].
    split; [intros _ _; split; reflexivity|].
    intro Hok. exfalso. specialize (Hok 1 ltac:(lia)).
    rewrite Nat.add_1_r in Hok. congruence. }
  assert (Htwo : requests_succeed E (idb_requests w) 2).
  { intros [|[|j]] Hj; [| |lia].
    - rewrite Nat.add_0_r. exact Hopen.
    - rewrite Nat.add_1_r. exact Hread. }
  set (w2 := tick_idb (tick_idb w)).
  assert (Hnd : NoDup (map id pending)) by (apply NoDup_map_filter, Hids).
  pose proof (clear_puts_spec E pending w2 Hnd)
    as (Hnet & Hout & Hrep & _).
  pose proof (clear_puts_exact E pending w2 Hnd)
    as (c & Hres & Hgood & Hbad).
  replace (idb_requests w2) with (idb_requests w + 2) in Hgood, Hbad by (cbn; lia).
  cbn [w2 tick_idb dates_read patients] in Hgood.
  unfold try_catch, clear_onsuccess, bind, gets, reply, modify.
  cbn [patients tick_idb w2]. fold w2. fold pending.
  unfold result, after in *.
  destruct (clear_puts E pending w2) as [[c'|e'] w3]; cbn [fst snd] in *;
    [|discriminate].
  injection Hres as ->.
  assert (Hcases : (c = true /\ requests_succeed E (idb_requests w + 2)
                                  (List.length pending))
                   \/ (c = false /\ request_fails E (idb_requests w + 2)
                                      (List.length pending))).
  { destruct (requests_succeed_or_fail E (idb_requests w + 2) (List.length pending))
      as [Hall | Hsome].
    - left. split; [apply Hgood, Hall | exact Hall].
    - right. split; [apply Hbad, Hsome | exact Hsome]. }
  destruct Hcases as [[-> Hall] | [-> Hsome]]; unfold ret;
    cbn [fst snd send_reply net_log outbox replies patients set_patients].
  - destruct (Hgood Hall) as (_ & Hrec & Hother).
    split; [reflexivity|]. split; [exact Hnet|]. split; [exact Hout|].
    split; [intros e He; discriminate He|].
    split; [intros _ Hbroken; contradiction|].
    intros _. split; [rewrite Hrep; reflexivity|]. split.
    + intros _. split; [|exact Hother].
      intros i p Hi. rewrite <- mark_synced_fields. apply Hrec. exact Hi.
    + intro Hfail. exfalso.
      apply (requests_succeed_not_fails E (idb_requests w + 2) (List.length pending));
        [exact Hall|].
      apply request_fails_shift; assumption.
  - split; [reflexivity|]. split; [exact Hnet|]. split; [exact Hout|].
    split; [intros e He; discriminate He|].
    split; [intros _ Hbroken; contradiction|].
    intros _. split; [rewrite Hrep; reflexivity|]. split.
    + intro Hok. exfalso.
      apply (requests_succeed_not_fails E (idb_requests w + 2) (List.length pending));
        [|exact Hsome].
      apply requests_succeed_shift. exact Hok.
    + intros _. reflexivity.
Qed.

Lemma clear_pending_data_witness :
  let w := world_with_patients [patient_S; patient_B; patient_C] [] in
  let x := on_message offline_env (mkEnvelope "CLEAR_PENDING_DATA" None) w in
  NoDup (map id (patients w))
  /\ replies (after x) = [reply_ok (Cleared 2)]
  /\ store_get "PAT-1003" (patients (after x))
     = Some (mkPatient "PAT-1003" (Some "synced") None
               (Some "2024-01-01T00:00:00.000Z")
               [("name", "Caro Diaz"); ("priority", "green")])
  /\ net_log (after x) = [].
Proof.
  intros w x.
  assert (H : NoDup (map id (patients w))).
  { apply distinctb_NoDup. vm_compute. reflexivity. }
  split; [exact H|].
  destruct (clear_pending_data offline_env None w H)
    as (_ & Hnet & _ & _ & _ & Hdone).
  destruct (Hdone (fun _ _ => eq_refl)) as (Hreply & Hmarked & _).
  split; [exact Hreply|]. split; [|exact Hnet].
  exact (proj1 (Hmarked (fun _ _ => eq_refl)) 1 patient_C eq_refl).
Defined.

(** ** The bridge *)

Lemma silent_ret {A} (a : A) : silent (ret a).
Proof. intro w. reflexivity. Qed.

Lemma silent_throw {A} (e : Error) : silent (@throw A e).
Proof. intro w. reflexivity. Qed.

Lemma silent_gets {A} (f : World -> A) : silent (gets f).
Proof. intro w. reflexivity. Qed.

Lemma silent_bind {A B} (m : M A) (k : A -> M B) :
  silent m -> (forall a, silent (k a)) -> silent (bind m k).
Proof.
  intros Hm Hk w. unfold bind, after. specialize (Hm w). unfold after in Hm.
  destruct (m w) as [[a|e] w1]; cbn [snd] in *.
  - rewrite <- Hm. apply Hk.
  - exact Hm.
Qed.

Lemma silent_try_catch {A} (m : M A) (h : Error -> M A) :
  silent m -> (forall e, silent (h e)) -> silent (try_catch m h).
Proof.
  intros Hm Hh w. unfold try_catch, after. specialize (Hm w). unfold after in Hm.
  destruct (m w) as [[a|e] w1]; cbn [snd] in *.
  - exact Hm.
  - rewrite <- Hm. apply Hh.
Qed.

Lemma silent_for_each {A} (l : list A) (body : A -> M unit) :
  (forall x, silent (body x)) -> silent (for_each l body).
Proof.
  intro Hbody. induction l as [|x l IH]; cbn [for_each].
  - apply silent_ret.
  - apply silent_bind; [apply Hbody | intros _; exact IH].
Qed.

Lemma silent_idb_request (E : Env) : silent (idb_request E).
Proof.
  intro w. unfold idb_request, after.
  destruct (idb_error E (idb_requests w)); reflexivity.
Qed.

Lemma silent_new_Date (E : Env) : silent (new_Date E).
Proof. intro w. reflexivity. Qed.

Lemma silent_modify (f : World -> World) :
  (forall w, replies (f w) = replies w) -> silent (modify f).
Proof. intros Hf w. apply Hf. Qed.

Lemma silent_put_unawaited (E : Env) (p : Patient) : silent (put_unawaited E p).
Proof.
  intro w. unfold put_unawaited, after.
  destruct (idb_error E (idb_requests w)); reflexivity.
Qed.

Ltac silence :=
  repeat first
    [ apply silent_ret | apply silent_throw | apply silent_gets
    | apply silent_idb_request | apply silent_new_Date
    | apply silent_put_unawaited
    | apply silent_modify; intro; reflexivity
    | apply silent_bind; [|intro]
    | apply silent_try_catch; [|intro]
    | apply silent_for_each; intro
    | match goal with |- silent (match ?x with _ => _ end) => destruct x end
    | match goal with |- silent (if ?b then _ else _) => destruct b end ].

Lemma silent_savePatient (E : Env) (p : Patient) : silent (savePatient E p).
Proof. unfold savePatient, openDatabase. silence. Qed.

Lemma silent_getAllPatients (E : Env) : silent (getAllPatients E).
Proof. unfold getAllPatients, openDatabase. silence. Qed.

Lemma silent_getPendingPatients (E : Env) : silent (getPendingPatients E).
Proof. unfold getPendingPatients, openDatabase. silence. Qed.

Lemma silent_markAsSynced (E : Env) (k : string) : silent (markAsSynced E k).
Proof. unfold markAsSynced, openDatabase. silence. Qed.

Lemma silent_syncPendingData (E : Env) : silent (syncPendingData E).
Proof.
  unfold syncPendingData. apply silent_try_catch; [|intro; apply silent_ret].
  apply silent_bind; [apply silent_getPendingPatients | intro pending].
  destruct (List.length pending =? 0)%nat; [apply silent_ret|].
  apply silent_bind.
  - apply silent_for_each. intro p. apply silent_markAsSynced.
  - intros _. apply silent_bind; [apply silent_gets | intro cs].
    apply silent_for_each. intro c. unfold postMessage.
    apply silent_modify. intro; reflexivity.
Qed.

Lemma silent_clear_puts (E : Env) (l : list Patient) : silent (clear_puts E l).
Proof.
  induction l as [|p l IH]; cbn [clear_puts].
  - apply silent_ret.
  - apply silent_bind; [apply silent_new_Date | intro now].
    apply silent_bind; [apply silent_put_unawaited | intro done].
    apply silent_bind; [exact IH | intro others; apply silent_ret].
Qed.

Lemma well_formed_ok (d : ReplyData) : well_formed_reply (reply_ok d).
Proof. left. split; reflexivity. Qed.

Lemma well_formed_error (e : Error) : well_formed_reply (reply_error e).
Proof. right. split; [reflexivity | exists e; reflexivity]. Qed.

Lemma well_formed_timeout : well_formed_reply timeout_reply.
Proof. right. split; [reflexivity | exists "Timeout"; reflexivity]. Qed.

Lemma answers_reply (r : Reply) : well_formed_reply r -> answers (reply r).
Proof. intros Hr w. cbn. exists r. split; [exact Hr | reflexivity]. Qed.

Lemma answers_bind {A} (m : M A) (k : A -> M unit) :
  silent m -> (forall a, answers (k a)) -> answers (bind m k).
Proof.
  intros Hm Hk w. unfold bind. specialize (Hm w). unfold after in Hm.
  destruct (m w) as [[a|e] w1]; cbn [snd] in Hm.
  - specialize (Hk a w1). rewrite Hm in Hk. exact Hk.
  - exact Hm.
Qed.

(** The listener's [try]/[catch] around an answering computation posts
    exactly one reply. *)
Lemma caught_answers (m : M unit) (w : World) :
  answers m ->
  let x := try_catch m (fun error => reply (reply_error error)) w in
  result x = Fulfilled tt
  /\ exists r, well_formed_reply r /\ replies (after x) = replies w ++ [r].
Proof.
  intros Hm x. subst x. unfold try_catch, result, after. specialize (Hm w).
  destruct (m w) as [[[]|e] w1]; cbn [fst snd].
  - split; [reflexivity | exact Hm].
  - split; [reflexivity|]. exists (reply_error e).
    split; [apply well_formed_error|]. cbn. rewrite Hm. reflexivity.
Qed.

Lemma clear_pending_at_most_once (E : Env) (w : World) :
  let x := try_catch (clear_pending E) (fun error => reply (reply_error error)) w in
  result x = Fulfilled tt
  /\ exists rs, replies (after x) = replies w ++ rs
                /\ List.length rs <= 1 /\ Forall well_formed_reply rs.
Proof.
  intro x. subst x.
  unfold try_catch, clear_pending, bind, openDatabase, idb_request, result, after.
  destruct (idb_error E (idb_requests w)) as [e|]; cbn [fst snd].
  { split; [reflexivity|]. exists [reply_error e]. cbn.
    split; [reflexivity|]. split; [lia|].
    constructor; [apply well_formed_error | constructor]. }
  cbn [idb_requests tick_idb].
  destruct (idb_error E (S (idb_requests w))) as [e|]; cbn [fst snd].
  { split; [reflexivity|]. exists []. cbn. rewrite app_nil_r.
    split; [reflexivity|]. split; [lia | constructor]. }
  set (w2 := tick_idb (tick_idb w)).
  unfold try_catch, clear_onsuccess, bind, gets, reply, modify.
  pose proof (silent_clear_puts E (store_pending (patients w2)) w2) as Hs.
  unfold after in Hs.
  destruct (clear_puts E (store_pending (patients w2)) w2) as [[c|e] w3];
    cbn [fst snd] in *.
  - split; [destruct c; reflexivity|].
    exists [reply_ok (Cleared (List.length (store_pending (patients w2))))].
    split; [destruct c; cbn; rewrite Hs; reflexivity|].
    split; [cbn; lia|]. constructor; [apply well_formed_ok | constructor].
  - split; [reflexivity|]. exists []. cbn. rewrite app_nil_r.
    split; [exact Hs|]. split; [lia | constructor].
Qed.

(** Whatever the message, the listener fulfils and posts at most one
    reply, a well-formed one; it posts exactly one unless the message is
    CLEAR_PENDING_DATA. *)
Lemma on_message_replies (E : Env) (ev : Envelope) (w : World) :
  let x := on_message E ev w in
  result x = Fulfilled tt
  /\ exists rs, replies (after x) = replies w ++ rs
                /\ List.length rs <= 1 /\ Forall well_formed_reply rs
                /\ (msg_type ev <> "CLEAR_PENDING_DATA" -> List.length rs = 1).
Proof.
  intro x. subst x. unfold on_message.
  assert (Hone : forall m, answers m ->
            result (try_catch m (fun error => reply (reply_error error)) w)
            = Fulfilled tt
            /\ exists rs,
                 replies (after (try_catch m (fun error => reply (reply_error error)) w))
                 = replies w ++ rs
                 /\ List.length rs <= 1 /\ Forall well_formed_reply rs
                 /\ (msg_type ev <> "CLEAR_PENDING_DATA" -> List.length rs = 1)).
  { intros m Hm. destruct (caught_answers m w Hm) as (Hr & r & Hwf & Hrep).
    split; [exact Hr|]. exists [r]. cbn.
    split; [exact Hrep|]. split; [lia|].
    split; [constructor; [exact Hwf | constructor] | reflexivity]. }
  destruct (msg_type ev =? "SAVE_PATIENT") eqn:H1.
  { apply Hone. apply answers_bind; [|intro; apply answers_reply, well_formed_ok].
    destruct (msg_data ev) as [d|]; [|apply silent_throw].
    destruct (patient d) as [p|].
    - apply silent_bind; [apply silent_savePatient | intro; apply silent_ret].
    - apply silent_bind; [apply silent_idb_request | intro; apply silent_throw]. }
  destruct (msg_type ev =? "GET_PATIENTS") eqn:H2.
  { apply Hone. apply answers_bind; [apply silent_getAllPatients|].
    intro; apply answers_reply, well_formed_ok. }
  destruct (msg_type ev =? "GET_PENDING_DATA") eqn:H3.
  { apply Hone. apply answers_bind; [apply silent_getPendingPatients|].
    intro; apply answers_reply, well_formed_ok. }
  destruct (msg_type ev =? "CLEAR_PENDING_DATA") eqn:H4.
  { destruct (clear_pending_at_most_once E w) as (Hr & rs & Hrep & Hlen & Hwf).
    split; [exact Hr|]. exists rs.
    split; [exact Hrep|]. split; [exact Hlen|]. split; [exact Hwf|].
    intro Hne. apply String.eqb_eq in H4. contradiction. }
  destruct (msg_type ev =? "EXPORT_DATA") eqn:H5.
  { apply Hone. apply answers_bind; [apply silent_getAllPatients | intro].
    apply answers_bind; [apply silent_new_Date | intro].
    apply answers_reply, well_formed_ok. }
  destruct (msg_type ev =? "PERFORM_SYNC") eqn:H6.
  { apply Hone. apply answers_bind; [apply silent_syncPendingData | intro].
    apply answers_reply, well_formed_ok. }
  apply Hone. apply answers_reply, well_formed_error.
Qed.

Lemma settled_stays (v : Reply) (tasks : list Task) :
  fold_left run_task tasks (Settled v) = Settled v.
Proof.
  induction tasks as [|t tasks IH]; cbn.
  - reflexivity.
  - destruct t; exact IH.
Qed.

Lemma first_task_settles (t : Task) (tasks : list Task) :
  fold_left run_task (t :: tasks) Unsettled
  = Settled (match t with PortMessage r => r | TimerFired => timeout_reply end).
Proof. destruct t; cbn; apply settled_stays. Qed.

(** C2, as the spec states it, fails: a call made while no service
    worker controls the page is not answered with a success payload or a
    structured failure; the caller gets null. *)
Lemma call_without_controller_gets_null :
  ~ (exists r,
        sendMessageToSW false false [(10, reply_ok NoData)] = Value r
        /\ well_formed_reply r).
Proof.
  intros (r & H & _). cbn in H. discriminate H.
Qed.

(** C2, amended: a call made while a service worker controls the page
    settles exactly once: with the first message that reaches the port if
    it runs before the 5000 ms timer, otherwise (late, or never answered)
    with the local failure { success: false, error: 'Timeout' }; what
    runs later is ignored.  The worker posts at most one reply per
    message, a success payload or a failure with an error message, so the
    answer has one of these two shapes.  A call made with no controlling
    worker returns null. *)
Theorem bridge_call_settles_once (timer_first : bool)
  (deliveries : list (nat * Reply)) :
  sendMessageToSW false timer_first deliveries = Null
  /\ (exists v,
        sendMessageToSW true timer_first deliveries = Value v
        /\ (forall later, fold_left run_task later (Settled v) = Settled v)
        /\ (deliveries = [] -> v = timeout_reply)
        /\ (forall t r rest, deliveries = (t, r) :: rest ->
              (t < TIMEOUT_MS -> v = r) /\ (TIMEOUT_MS < t -> v = timeout_reply))
        /\ (Forall well_formed_reply (map snd deliveries) -> well_formed_reply v))
  /\ (forall E ev w latency,
        let posted := skipn (List.length (replies w))
                        (replies (after (on_message E ev w))) in
        List.length posted <= 1
        /\ exists v,
             sendMessageToSW true timer_first (map (fun r => (latency, r)) posted)
             = Value v
             /\ well_formed_reply v).
Proof.
  split; [reflexivity|].
  assert (Hcall : forall ds,
            exists v,
              sendMessageToSW true timer_first ds = Value v
              /\ (forall later, fold_left run_task later (Settled v) = Settled v)
              /\ (ds = [] -> v = timeout_reply)
              /\ (forall t r rest, ds = (t, r) :: rest ->
                    (t < TIMEOUT_MS -> v = r)
                    /\ (TIMEOUT_MS < t -> v = timeout_reply))
              /\ (Forall well_formed_reply (map snd ds) -> well_formed_reply v)).
  { intro ds. unfold sendMessageToSW. cbn [negb].
    destruct ds as [|[t r] rest].
    - exists timeout_reply. cbn. split; [reflexivity|].
      split; [apply settled_stays|]. split; [reflexivity|].
      split; [intros; discriminate | intros _; apply well_formed_timeout].
    - cbn [task_queue]. destruct (before_timer timer_first t) eqn:Hbefore.
      + rewrite first_task_settles. exists r. split; [reflexivity|].
        split; [apply settled_stays|]. split; [discriminate|]. split.
        * intros t' r' rest' Heq. injection Heq as -> -> ->.
          split; [reflexivity|]. intro Hlate. exfalso.
          unfold before_timer in Hbefore.
          apply orb_true_iff in Hbefore. destruct Hbefore as [Hlt | Htie].
          -- apply Nat.ltb_lt in Hlt. lia.
          -- apply andb_true_iff in Htie. destruct Htie as [_ Heq].
             apply Nat.eqb_eq in Heq. lia.
        * intro Hwf. inversion Hwf; assumption.
      + rewrite first_task_settles. exists timeout_reply. split; [reflexivity|].
        split; [apply settled_stays|]. split; [discriminate|]. split.
        * intros t' r' rest' Heq. injection Heq as -> -> ->.
          split; [|reflexivity]. intro Hearly. exfalso.
          unfold before_timer in Hbefore.
          apply orb_false_iff in Hbefore. destruct Hbefore as [Hlt _].
          apply Nat.ltb_ge in Hlt. lia.
        * intros _. apply well_formed_timeout. }
  split; [apply Hcall|].
  intros E ev w latency posted.
  destruct (on_message_replies E ev w) as (_ & rs & Hrep & Hlen & Hwf & _).
  assert (Hposted : posted = rs).
  { subst posted. rewrite Hrep, skipn_app, skipn_all, Nat.sub_diag. reflexivity. }
  rewrite Hposted. split; [exact Hlen|].
  destruct (Hcall (map (fun r => (latency, r)) rs)) as (v & Hv & _ & _ & _ & Hshape).
  exists v. split; [exact Hv|]. apply Hshape.
  rewrite map_map. cbn [snd]. rewrite map_id. exact Hwf.
Qed.

(** ** Backup and restore *)

Lemma first_of_each_id_distinct (ps : list Patient) :
  forall uniqueIds,
    NoDup (map id ps) ->
    (forall p, In p ps -> ~ In (id p) uniqueIds) ->
    first_of_each_id uniqueIds ps = ps.
Proof.
  induction ps as [|p ps IH]; intros seen Hnd Hfresh; cbn.
  - reflexivity.
  - inversion Hnd as [|? ? Hnotin Hnd']; subst.
    assert (Hp : existsb (String.eqb (id p)) seen = false).
    { apply not_true_is_false. intro Hex. apply existsb_exists in Hex.
      destruct Hex as [k [Hin Heq]]. apply String.eqb_eq in Heq. subst k.
      apply (Hfresh p); [left; reflexivity | exact Hin]. }
    rewrite Hp. f_equal. apply IH; [exact Hnd'|].
    intros q Hq [Heq | Hin].
    + apply Hnotin. rewrite Heq. apply in_map. exact Hq.
    + apply (Hfresh q); [right; exact Hq | exact Hin].
Qed.

(** C9, as the spec states it, fails: two records entered under one id;
    the export holds both, the import into an empty store keeps the first
    only. *)
Lemma round_trip_drops_record_of_same_id :
  let a := app_with [patient_B; patient_B_again] in
  let doc := fst (exportData "2024-01-01T00:00:00.000Z" a) in
  ~ (exists restored,
       importData true (file_of doc) (empty_app "user_1") = Finished restored
       /\ same_records (app_patients restored) (app_patients a)).
Proof.
  intros a doc (restored & Hdone & Hsame).
  assert (Hin : In patient_B_again (app_patients restored)).
  { apply Hsame. cbn. right. left. reflexivity. }
  vm_compute in Hdone. injection Hdone as <-.
  cbn in Hin. destruct Hin as [Heq | []]. discriminate Heq.
Qed.

Lemma first_of_each_id_fresh (ps : list Patient) :
  forall uniqueIds p,
    In p (first_of_each_id uniqueIds ps) ->
    In p ps /\ ~ In (id p) uniqueIds.
Proof.
  induction ps as [|q ps IH]; intros seen p Hin; cbn in Hin.
  - contradiction.
  - destruct (existsb (String.eqb (id q)) seen) eqn:Hseen.
    + destruct (IH seen p Hin) as [Hp Hfresh]. split; [right; exact Hp | exact Hfresh].
    + destruct Hin as [Heq | Hin].
      * subst q. split; [left; reflexivity|]. intro Hk.
        assert (existsb (String.eqb (id p)) seen = true).
        { apply existsb_exists. exists (id p). split; [exact Hk | apply String.eqb_refl]. }
        congruence.
      * destruct (IH (id q :: seen) p Hin) as [Hp Hfresh].
        split; [right; exact Hp|]. intro Hk. apply Hfresh. right. exact Hk.
Qed.

Lemma first_of_each_id_NoDup (ps : list Patient) :
  forall uniqueIds, NoDup (map id (first_of_each_id uniqueIds ps)).
Proof.
  induction ps as [|q ps IH]; intro seen; cbn.
  - constructor.
  - destruct (existsb (String.eqb (id q)) seen); [apply IH|].
    cbn. constructor; [|apply IH].
    intro Hin. apply in_map_iff in Hin. destruct Hin as [p [Hid Hp]].
    apply first_of_each_id_fresh in Hp. destruct Hp as [_ Hfresh].
    apply Hfresh. left. symmetry. exact Hid.
Qed.

(** The filter keeps, for each id not seen before, the first record of
    that id. *)
Lemma first_of_each_id_first (ps : list Patient) (k : string) :
  forall uniqueIds,
    ~ In k uniqueIds ->
    find (fun q => id q =? k) (first_of_each_id uniqueIds ps)
    = find (fun q => id q =? k) ps.
Proof.
  induction ps as [|q ps IH]; intros seen Hk; cbn.
  - reflexivity.
  - destruct (existsb (String.eqb (id q)) seen) eqn:Hseen.
    + apply existsb_exists in Hseen. destruct Hseen as [x [Hx Heq]].
      apply String.eqb_eq in Heq. subst x.
      assert (Hne : (id q =? k) = false).
      { apply String.eqb_neq. intro Heq. apply Hk. rewrite <- Heq. exact Hx. }
      rewrite Hne. apply IH. exact Hk.
    + cbn. destruct (id q =? k) eqn:Hqk; [reflexivity|].
      apply IH. intros [Heq | Hin]; [|contradiction].
      apply String.eqb_neq in Hqk. contradiction.
Qed.

Lemma remove_duplicates_records (ps : list Patient) :
  forall uniqueIds,
    remove_duplicates uniqueIds (map Rec ps)
    = Some (first_of_each_id uniqueIds ps).
Proof.
  induction ps as [|p ps IH]; intro seen; cbn [map remove_duplicates first_of_each_id].
  - reflexivity.
  - destruct (existsb (String.eqb (id p)) seen); [apply IH|].
    rewrite IH. reflexivity.
Qed.

Lemma importData_records (quota_ok : bool) (incoming : list Patient) (a : App) :
  importData quota_ok (Parsed (Some (map Rec incoming))) a
  = Finished
      (showNotification
         ("Imported " ++ string_of_nat (List.length incoming) ++ " patients")
         (saveToStorage quota_ok
            (mkApp (first_of_each_id [] (incoming ++ app_patients a))
               (currentUser a) (local_storage a) (notifications a)))).
Proof.
  unfold importData. cbv zeta.
  rewrite <- map_app, remove_duplicates_records, length_map. reflexivity.
Qed.

Lemma imported_patients (quota_ok : bool) (m : string) (ps : list Patient) (a : App) :
  app_patients
    (showNotification m
       (saveToStorage quota_ok
          (mkApp ps (currentUser a) (local_storage a) (notifications a))))
  = ps.
Proof. destruct quota_ok; reflexivity. Qed.

(** C9, amended: exporting a patient collection and importing the
    exported document into an empty store keeps, for each id, the first
    record of that id; for every collection whose ids are pairwise
    distinct this gives back the same records (in the same order, too). *)
Theorem export_import_round_trip (now u : string) (quota_ok : bool) (a : App) :
  let doc := fst (exportData now a) in
  exists restored,
    importData quota_ok (file_of doc) (empty_app u) = Finished restored
    /\ doc_patients doc = app_patients a
    /\ (forall k, find (fun q => id q =? k) (app_patients restored)
                  = find (fun q => id q =? k) (app_patients a))
    /\ NoDup (map id (app_patients restored))
    /\ (NoDup (map id (app_patients a)) ->
          app_patients restored = app_patients a
          /\ same_records (app_patients restored) (app_patients a)
          /\ (quota_ok = true -> local_storage restored = Some (app_patients a))).
Proof.
  intro doc. subst doc.
  cbn [exportData fst]. unfold file_of. cbn [doc_patients].
  rewrite importData_records. eexists. split; [reflexivity|].
  rewrite imported_patients. cbn [empty_app app_patients]. rewrite app_nil_r.
  split; [reflexivity|]. split; [|split].
  - intro k. apply first_of_each_id_first. intros [].
  - apply first_of_each_id_NoDup.
  - intro Hids.
    assert (Hsame : first_of_each_id [] (app_patients a) = app_patients a)
      by (apply first_of_each_id_distinct; auto).
    split; [exact Hsame|]. split.
    + intro p. rewrite Hsame. tauto.
    + intros ->. cbn. rewrite Hsame. reflexivity.
Qed.

Lemma export_import_round_trip_witness :
  let a := app_with [patient_C; patient_B; patient_S] in
  NoDup (map id (app_patients a))
  /\ exists restored,
       importData true
         (file_of (fst (exportData "2024-01-01T00:00:00.000Z" a)))
         (empty_app "user_1")
       = Finished restored
       /\ app_patients restored = [patient_C; patient_B; patient_S].
Proof.
  intro a.
  assert (H : NoDup (map id (app_patients a))).
  { apply distinctb_NoDup. vm_compute. reflexivity. }
  split; [exact H|].
  destruct (export_import_round_trip "2024-01-01T00:00:00.000Z" "user_1" true a)
    as (restored & Hdone & _ & _ & _ & Hdistinct).
  exists restored. split; [exact Hdone|].
  exact (proj1 (Hdistinct H)).
Defined.

(** * Further properties of the worker and the page *)

(** ** Cache lookups after writes *)

Lemma cache_match_put_same (k : string) (r : Response) (c : Cache) :
  cache_match k (cache_put k r c) = Some r.
Proof.
  unfold cache_match, cache_put, cache_delete.
  induction c as [|[k' r'] c IH]; cbn.
  - rewrite String.eqb_refl. reflexivity.
  - destruct (k' =? k) eqn:Hk; cbn; [exact IH|].
    rewrite Hk. exact IH.
Qed.


Lemma storage_has_open (name : string) (cs : CacheStorage) :
  storage_has name (storage_open name cs) = true.
Proof.
  unfold storage_open. destruct (storage_has name cs) eqn:H; [exact H|].
  unfold storage_has. rewrite existsb_app. cbn. rewrite String.eqb_refl.
  apply orb_true_r.
Qed.

Lemma storage_get_update_present (name : string) (f : Cache -> Cache)
  (cs : CacheStorage) :
  storage_has name cs = true ->
  storage_get name (storage_update name f cs) = f (storage_get name cs).
Proof.
  unfold storage_has, storage_get, storage_update.
  induction cs as [|e cs IH]; cbn; intro H.
  - discriminate.
  - destruct (fst e =? name) eqn:He; cbn.
    + rewrite He. reflexivity.
    + rewrite He. apply IH. exact H.
Qed.

Lemma storage_get_update_other (name other : string) (f : Cache -> Cache)
  (cs : CacheStorage) :
  other <> name ->
  storage_get other (storage_update name f cs) = storage_get other cs.
Proof.
  intro Hne. unfold storage_get, storage_update.
  induction cs as [|e cs IH]; cbn.
  - reflexivity.
  - destruct (fst e =? name) eqn:He; cbn.
    + apply String.eqb_eq in He.
      assert (H : (fst e =? other) = false)
        by (apply String.eqb_neq; congruence).
      rewrite H. exact IH.
    + destruct (fst e =? other); [reflexivity | exact IH].
Qed.

Lemma storage_get_open_any (name other : string) (cs : CacheStorage) :
  storage_get other (storage_open name cs) = storage_get other cs.
Proof.
  destruct (String.eqb_spec other name) as [-> | Hne].
  - apply storage_get_open.
  - unfold storage_open. destruct (storage_has name cs); [reflexivity|].
    unfold storage_get. induction cs as [|e cs IH]; cbn.
    + assert (H : (name =? other) = false)
        by (apply String.eqb_neq; congruence).
      rewrite H. reflexivity.
    + destruct (fst e =? other); [reflexivity | exact IH].
Qed.

(** ** Installation *)


Lemma collect_all_none (E : Env) (urls : list string) (u : string) :
  In u urls -> fetched_ok E u = None -> collect_all E urls = None.
Proof.
  induction urls as [|u' urls IH]; intros Hin Hfail; [contradiction|].
  cbn. destruct Hin as [-> | Hin].
  - rewrite Hfail. reflexivity.
  - rewrite (IH Hin Hfail). destruct (fetched_ok E u'); reflexivity.
Qed.




(** X2: whatever the network does, the promise of the install listener
    fulfils.  When an asset of the manifest fails or is answered with a
    response that is not ok, every asset was still requested, no entry was
    added to any cache (the shell cache is created empty when it did not
    exist) and [skipWaiting] was not called. *)
Theorem install_failure_adds_nothing (E : Env) (w : World) (u : string)
  (Hu : In u urlsToCache) (Hfail : fetched_ok E u = None) :
  let x := install_handler E w in
  install_result x = Installed
  /\ caches (after x) = storage_open CACHE_NAME (caches w)
  /\ (forall name, storage_get name (caches (after x)) = storage_get name (caches w))
  /\ net_log (after x) = net_log w ++ urlsToCache
  /\ skipped_waiting (after x) = skipped_waiting w.
Proof.
  intro x. subst x.
  unfold install_handler, install_result, result, after, try_catch, bind,
    caches_open, cache_addAll, modify.
  cbn [fst snd]. unfold bind, modify. cbn [fst snd].
  rewrite (collect_all_none E urlsToCache u Hu Hfail). cbn.
  repeat split. intro name. apply storage_get_open_any.
Qed.

Lemma install_failure_adds_nothing_witness :
  install_result (install_handler missing_asset_env prior_world) = Installed
  /\ caches (after (install_handler missing_asset_env prior_world))
     = storage_open CACHE_NAME (caches prior_world).
Proof.
  assert (Hu : In "/icon-512.png" urlsToCache) by (vm_compute; tauto).
  destruct (install_failure_adds_nothing missing_asset_env prior_world
              "/icon-512.png" Hu eq_refl) as (H1 & H2 & _).
  split; [exact H1 | exact H2].
Defined.

(** ** Fetch strategies, continued *)

Lemma cacheFirstStrategy_cases (E : Env) (req : Request) (w : World) :
  let x := cacheFirstStrategy E req w in
  match storage_match (url req) (caches w) with
  | Some r => result x = Fulfilled r
  | None =>
      match network E (url req) with
      | Rejected _ =>
          result x = Fulfilled (static_fallback req) /\ caches (after x) = caches w
      | Fulfilled response =>
          if ok response then
            match put_error E response with
            | None => result x = Fulfilled response
            | Some _ => result x = Fulfilled (static_fallback req)
            end
          else result x = Fulfilled response /\ caches (after x) = caches w
      end
  end.
Proof.
  unfold cacheFirstStrategy, static_fallback, result, after, bind, try_catch,
    caches_match, gets, updateCache, fetch, caches_open, cache_put_in, modify, ret.
  cbn [fst snd].
  destruct (storage_match (url req) (caches w)) as [r|]; cbn.
  - destruct (network E (url req)) as [response|e]; cbn; [|reflexivity].
    destruct (ok response); cbn; [|reflexivity].
    destruct (put_error E response); reflexivity.
  - destruct (network E (url req)) as [response|e]; cbn.
    + destruct (ok response); cbn.
      * destruct (put_error E response); cbn; [|reflexivity].
        destruct (destination req =? "image"); reflexivity.
      * split; reflexivity.
    + destruct (destination req =? "image"); split; reflexivity.
Qed.

Lemma cache_first_cases_fulfil (E : Env) (req : Request) (w : World) :
  exists r, result (cacheFirstStrategy E req w) = Fulfilled r.
Proof.
  pose proof (cacheFirstStrategy_cases E req w) as H. cbn zeta in H.
  destruct (storage_match (url req) (caches w)) as [r|]; [eauto|].
  destruct (network E (url req)) as [response|e].
  - destruct (ok response); [destruct (put_error E response)|]; eauto.
    destruct H; eauto.
  - destruct H; eauto.
Qed.

(** X3: the cache-first strategy never rejects.  A cached copy is
    served whatever the network does; on a miss the network response is
    returned; when the network fails on a miss, or caching an ok response
    fails, the answer is the SVG placeholder for an image request and a
    408 response otherwise. *)
Theorem cache_first_never_rejects (E : Env) (req : Request) (w : World) :
  let x := cacheFirstStrategy E req w in
  (exists r, result x = Fulfilled r)
  /\ (forall r, storage_match (url req) (caches w) = Some r ->
        result x = Fulfilled r)
  /\ (storage_match (url req) (caches w) = None ->
        (forall e, network E (url req) = Rejected e ->
           result x = Fulfilled (static_fallback req)
           /\ caches (after x) = caches w)
        /\ (forall response, network E (url req) = Fulfilled response ->
              (ok response = false \/ put_error E response = None) ->
              result x = Fulfilled response)
        /\ (forall response e, network E (url req) = Fulfilled response ->
              ok response = true -> put_error E response = Some e ->
              result x = Fulfilled (static_fallback req)))
  /\ status (static_fallback req)
     = (if destination req =? "image" then 200 else 408).
Proof.
  intro x. pose proof (cacheFirstStrategy_cases E req w) as H. cbn zeta in H.
  fold x in H. split; [|split; [|split]].
  - apply cache_first_cases_fulfil.
  - intros r Hhit. rewrite Hhit in H. exact H.
  - intro Hmiss. rewrite Hmiss in H. split; [|split].
    + intros e Hnet. rewrite Hnet in H. exact H.
    + intros response Hnet Hwhy. rewrite Hnet in H.
      destruct (ok response); [|tauto].
      destruct Hwhy as [Hno | Hput]; [discriminate|]. rewrite Hput in H. exact H.
    + intros response e Hnet Hok Hput. rewrite Hnet, Hok, Hput in H. exact H.
  - unfold static_fallback. destruct (destination req =? "image"); reflexivity.
Qed.

Lemma storage_match_older_cache (k : string) (f : Cache -> Cache)
  (pre : CacheStorage) (name : string) (c : Cache) (rest : CacheStorage)
  (r : Response) :
  (forall e, In e pre -> fst e <> DYNAMIC_CACHE /\ cache_match k (snd e) = None) ->
  name <> DYNAMIC_CACHE ->
  cache_match k c = Some r ->
  storage_match k (storage_update DYNAMIC_CACHE f (pre ++ (name, c) :: rest))
  = Some r.
Proof.
  intros Hpre Hname Hhit. unfold storage_update.
  induction pre as [|[n0 c0] pre IH]; cbn.
  - assert (H : (name =? DYNAMIC_CACHE) = false) by (apply String.eqb_neq; exact Hname).
    rewrite H, Hhit. reflexivity.
  - destruct (Hpre (n0, c0) (or_introl eq_refl)) as [Hn0 Hc0]. cbn in Hn0, Hc0.
    assert (H : (n0 =? DYNAMIC_CACHE) = false) by (apply String.eqb_neq; exact Hn0).
    rewrite H, Hc0. apply IH. intros e He. apply Hpre. right. exact He.
Qed.

Lemma storage_open_present (name : string) (pre : CacheStorage) (n : string)
  (c : Cache) (rest : CacheStorage) :
  exists rest', storage_open name (pre ++ (n, c) :: rest) = pre ++ (n, c) :: rest'.
Proof.
  unfold storage_open. destruct (storage_has name _).
  - exists rest. reflexivity.
  - exists (rest ++ [(name, [])]). rewrite <- app_assoc. reflexivity.
Qed.

(** X4: revalidation cannot refresh what an older cache holds.  When
    the first cache that holds the request is not the dynamic one (an
    asset of the shell), the cache-first strategy serves that copy and,
    whatever the background fetch returned, the next lookup still finds
    the same copy. *)
Theorem revalidation_never_replaces_shell_copy (E : Env) (req : Request)
  (w : World) (pre : CacheStorage) (name : string) (c : Cache)
  (rest : CacheStorage) (r : Response)
  (Hcaches : caches w = pre ++ (name, c) :: rest)
  (Hpre : forall e, In e pre ->
            fst e <> DYNAMIC_CACHE /\ cache_match (url req) (snd e) = None)
  (Hname : name <> DYNAMIC_CACHE)
  (Hhit : cache_match (url req) c = Some r) :
  let x := cacheFirstStrategy E req w in
  result x = Fulfilled r
  /\ storage_match (url req) (caches (after x)) = Some r
  /\ forall E', result (cacheFirstStrategy E' req (after x)) = Fulfilled r.
Proof.
  intro x.
  assert (Hid : forall cs', storage_update DYNAMIC_CACHE (fun c0 => c0) cs' = cs').
  { intro cs'. unfold storage_update. rewrite <- (map_id cs') at 2.
    apply map_ext. intros [n0 c0]. cbn. destruct (n0 =? DYNAMIC_CACHE); reflexivity. }
  assert (Hmatch : forall rest', storage_match (url req) (pre ++ (name, c) :: rest') = Some r).
  { intro rest'. rewrite <- (Hid (pre ++ (name, c) :: rest')).
    apply storage_match_older_cache; assumption. }
  assert (Hnow : storage_match (url req) (caches w) = Some r)
    by (rewrite Hcaches; apply Hmatch).
  assert (Hafter : storage_match (url req) (caches (after x)) = Some r).
  { subst x.
    unfold cacheFirstStrategy, after, bind, try_catch, caches_match, gets,
      updateCache, fetch, caches_open, cache_put_in, modify, ret.
    cbn [fst snd]. rewrite Hnow. cbn.
    destruct (storage_open_present DYNAMIC_CACHE pre name c rest) as [rest' Hopen].
    destruct (network E (url req)) as [response|e]; cbn.
    - destruct (ok response); cbn.
      + destruct (put_error E response); cbn; rewrite Hcaches, Hopen.
        * apply Hmatch.
        * apply storage_match_older_cache; assumption.
      + rewrite Hcaches, Hopen. apply Hmatch.
    - rewrite Hcaches, Hopen. apply Hmatch. }
  split; [|split].
  - pose proof (cacheFirstStrategy_cases E req w) as H. cbn zeta in H.
    rewrite Hnow in H. exact H.
  - exact Hafter.
  - intro E'. pose proof (cacheFirstStrategy_cases E' req (after x)) as H.
    cbn zeta in H. rewrite Hafter in H. exact H.
Qed.

Lemma revalidation_never_replaces_shell_copy_witness :
  let req := mkRequest "GET" "/styles.css" "https:" "/styles.css"
               "https://triage.example" "no-cors" "style" in
  let env := mkEnv (fun _ => Fulfilled (page "new style sheet"))
               (fun _ => "2024-01-01T00:00:00.000Z")
               (fun _ => None) (fun _ => None) in
  storage_match "/styles.css"
    (caches (after (cacheFirstStrategy env req shell_world)))
  = Some (page "/styles.css").
Proof.
  intros req env.
  refine (proj1 (proj2 (revalidation_never_replaces_shell_copy env req shell_world
            [] CACHE_NAME (map (fun u => (u, page u)) urlsToCache)
            [(DYNAMIC_CACHE, [])] (page "/styles.css") eq_refl _ _ eq_refl))).
  - intros e [].
  - discriminate.
Defined.

Lemma networkFirstStrategy_cases (E : Env) (req : Request) (w : World) :
  let x := networkFirstStrategy E req w in
  match network E (url req) with
  | Rejected e =>
      caches (after x) = caches w
      /\ match storage_match (url req) (caches w) with
         | Some r => result x = Fulfilled r
         | None => result x = Rejected e
         end
  | Fulfilled response =>
      if ok response then
        match put_error E response with
        | None => result x = Fulfilled response
        | Some e =>
            match storage_match (url req) (caches w) with
            | Some r => result x = Fulfilled r
            | None => result x = Rejected e
            end
        end
      else result x = Fulfilled response /\ caches (after x) = caches w
  end.
Proof.
  unfold networkFirstStrategy, result, after, bind, try_catch, caches_match,
    gets, fetch, caches_open, cache_put_in, modify, ret, throw.
  cbn [fst snd].
  destruct (network E (url req)) as [response|e]; cbn.
  - destruct (ok response); cbn; [|split; reflexivity].
    destruct (put_error E response); cbn; [|reflexivity].
    rewrite storage_match_open.
    destruct (storage_match (url req) (caches w)); reflexivity.
  - split; [destruct (storage_match (url req) (caches w)); reflexivity|].
    destruct (storage_match (url req) (caches w)); reflexivity.
Qed.

(** X5: the network-first strategy for requests to other origins
    rejects only when no cache holds the request, and then with the very
    error it caught: the network's, or the one of the failed cache write.
    With a cached copy a network failure is answered from the cache. *)
Theorem network_first_propagates_failure (E : Env) (req : Request) (w : World) :
  let x := networkFirstStrategy E req w in
  (forall e, network E (url req) = Rejected e ->
     storage_match (url req) (caches w) = None -> result x = Rejected e)
  /\ (forall e r, network E (url req) = Rejected e ->
        storage_match (url req) (caches w) = Some r -> result x = Fulfilled r)
  /\ (forall e, result x = Rejected e ->
        storage_match (url req) (caches w) = None
        /\ (network E (url req) = Rejected e
            \/ exists response,
                 network E (url req) = Fulfilled response
                 /\ ok response = true /\ put_error E response = Some e)).
Proof.
  intro x. pose proof (networkFirstStrategy_cases E req w) as H. cbn zeta in H.
  fold x in H. split; [|split].
  - intros e Hnet Hmiss. rewrite Hnet, Hmiss in H. apply H.
  - intros e r Hnet Hhit. rewrite Hnet, Hhit in H. apply H.
  - intros e Hrej.
    destruct (network E (url req)) as [response|e0] eqn:Hnet.
    + destruct (ok response) eqn:Hok.
      * destruct (put_error E response) as [e1|] eqn:Hput; [|congruence].
        destruct (storage_match (url req) (caches w)); [congruence|].
        split; [reflexivity|]. right. exists response.
        rewrite H in Hrej. injection Hrej as ->. auto.
      * destruct H as [H _]. congruence.
    + destruct H as [_ H].
      destruct (storage_match (url req) (caches w)); [congruence|].
      rewrite H in Hrej. injection Hrej as ->. auto.
Qed.

(** X6: of all intercepted requests only those handled network-first
    (GET requests to another origin that are neither API calls nor
    navigations) can end in a rejected promise. *)
Theorem only_cross_origin_requests_reject (E : Env) (self_origin : string)
  (req : Request) (w : World) (respond : M Response) (e : Error)
  (Hon : on_fetch E self_origin req = Some respond)
  (Hrej : result (respond w) = Rejected e) :
  classify self_origin req = Some NetworkFirst
  /\ origin req <> self_origin
  /\ mode req <> "navigate"
  /\ includes "/api/" (pathname req) = false
  /\ storage_match (url req) (caches w) = None.
Proof.
  unfold on_fetch in Hon.
  destruct (classify self_origin req) as [s|] eqn:Hclass; [|discriminate].
  cbn in Hon. injection Hon as <-.
  destruct s; cbn [run_strategy] in Hrej.
  - destruct (apiFirstStrategy_never_rejects E req w) as [r Hr]. congruence.
  - destruct (navigationFirstStrategy_never_rejects E req w) as [r Hr]. congruence.
  - destruct (cache_first_cases_fulfil E req w) as [r Hr]. congruence.
  - split; [reflexivity|].
    unfold classify in Hclass.
    destruct (negb (method req =? "GET")); [discriminate|].
    destruct (protocol req =? "chrome-extension:"); [discriminate|].
    destruct (includes "/api/" (pathname req)); [discriminate|].
    destruct (mode req =? "navigate") eqn:Hmode; [discriminate|].
    destruct (origin req =? self_origin) eqn:Horigin; [discriminate|].
    apply String.eqb_neq in Hmode, Horigin.
    repeat split; auto.
    pose proof (networkFirstStrategy_cases E req w) as H. cbn zeta in H.
    destruct (storage_match (url req) (caches w)) as [r|]; [exfalso|reflexivity].
    destruct (network E (url req)) as [response|e0].
    + destruct (ok response); [destruct (put_error E response)|]; try congruence.
      destruct H; congruence.
    + destruct H as [_ H]. congruence.
Qed.

Lemma only_cross_origin_requests_reject_witness :
  result (networkFirstStrategy offline_env font_request (world_with_caches []))
  = Rejected "TypeError: Failed to fetch"
  /\ classify "https://triage.example" font_request = Some NetworkFirst.
Proof.
  split; [reflexivity|].
  exact (proj1 (only_cross_origin_requests_reject offline_env
                  "https://triage.example" font_request (world_with_caches [])
                  (networkFirstStrategy offline_env font_request)
                  "TypeError: Failed to fetch" eq_refl eq_refl)).
Defined.

Lemma storage_match_after_put (k name : string) (r : Response) (cs : CacheStorage) :
  storage_match k cs = None ->
  storage_has name cs = true ->
  storage_match k (storage_update name (cache_put k r) cs) = Some r.
Proof.
  unfold storage_has, storage_update.
  induction cs as [|[n c] cs IH]; cbn [existsb map storage_match fst snd];
    intros Hmiss Hhas.
  - discriminate.
  - destruct (cache_match k c) eqn:Hc; [discriminate|].
    destruct (n =? name) eqn:Hn; cbn [storage_match orb] in *.
    + rewrite cache_match_put_same. reflexivity.
    + rewrite Hc. apply IH; assumption.
Qed.

(** X7: the navigation strategy stores the network's answer whatever
    its status, provided the cache write succeeds.  A page that no cache
    held and that the network answered (be it with an error status) is
    then answered from the dynamic cache with that same response when
    the network later fails.  When the cache write fails, the visitor
    does not get the network's answer but the offline fallback, and the
    page is not stored. *)
Theorem visited_page_is_replayed_offline (E_online E_offline : Env)
  (req : Request) (w : World) (response : Response) (e : Error)
  (Hnet : network E_online (url req) = Fulfilled response)
  (Hnew : storage_match (url req) (caches w) = None)
  (Hdown : network E_offline (url req) = Rejected e) :
  let visit := navigationFirstStrategy E_online req w in
  (put_error E_online response = None ->
     result visit = Fulfilled response
     /\ cache_match (url req) (dynamic_cache (after visit)) = Some response
     /\ result (navigationFirstStrategy E_offline req (after visit))
        = Fulfilled response)
  /\ (put_error E_online response <> None ->
        result visit = Fulfilled (navigation_fallback (url req) (caches w))
        /\ storage_match (url req) (caches (after visit)) = None
        /\ result (navigationFirstStrategy E_offline req (after visit))
           = Fulfilled (navigation_fallback (url req) (caches w))).
Proof.
  intro visit. split.
  - intro Hput.
    assert (Hcaches : caches (after visit)
              = storage_update DYNAMIC_CACHE (cache_put (url req) response)
                  (storage_open DYNAMIC_CACHE (caches w))).
    { subst visit.
      unfold navigationFirstStrategy, after, try_catch, bind, fetch, caches_open,
        cache_put_in, modify, ret.
      rewrite Hnet. cbn. rewrite Hput. reflexivity. }
    split; [|split].
    + subst visit.
      unfold navigationFirstStrategy, result, try_catch, bind, fetch, caches_open,
        cache_put_in, modify, ret.
      rewrite Hnet. cbn. rewrite Hput. reflexivity.
    + unfold dynamic_cache. rewrite Hcaches.
      rewrite storage_get_update_present by apply storage_has_open.
      apply cache_match_put_same.
    + unfold navigationFirstStrategy, result, try_catch, bind, fetch, caches_match,
        gets, ret.
      rewrite Hdown. cbn. rewrite Hcaches.
      rewrite storage_match_after_put.
      * reflexivity.
      * rewrite storage_match_open. exact Hnew.
      * apply storage_has_open.
  - intro Hput.
    destruct (put_error E_online response) as [e'|] eqn:Herr; [|contradiction].
    assert (Hcaches : caches (after visit) = storage_open DYNAMIC_CACHE (caches w)).
    { subst visit.
      unfold navigationFirstStrategy, after, try_catch, bind, fetch, caches_open,
        cache_put_in, caches_match, gets, modify, ret.
      rewrite Hnet. cbn. rewrite Herr. cbn.
      rewrite storage_match_open, Hnew.
      cbn [caches set_caches log_fetch]. rewrite storage_match_open.
      destruct (storage_match OFFLINE_URL (caches w)); reflexivity. }
    split; [|split].
    + subst visit.
      unfold navigationFirstStrategy, result, try_catch, bind, fetch, caches_open,
        cache_put_in, caches_match, gets, modify, ret, navigation_fallback.
      rewrite Hnet. cbn. rewrite Herr. cbn.
      rewrite storage_match_open, Hnew.
      cbn [caches set_caches log_fetch]. rewrite storage_match_open.
      destruct (storage_match OFFLINE_URL (caches w)); reflexivity.
    + rewrite Hcaches, storage_match_open. exact Hnew.
    + unfold navigationFirstStrategy, result, try_catch, bind, fetch, caches_match,
        gets, ret, navigation_fallback.
      rewrite Hdown. cbn. rewrite Hcaches.
      rewrite storage_match_open, Hnew.
      cbn [caches set_caches log_fetch]. rewrite ?Hcaches, storage_match_open.
      destruct (storage_match OFFLINE_URL (caches w)); reflexivity.
Qed.

Lemma visited_page_is_replayed_offline_witness :
  let broken := mkEnv (fun _ => Fulfilled (mkResponse 500 "text/html" "Server Error"))
                  (fun _ => "2024-01-01T00:00:00.000Z")
                  (fun _ => None) (fun _ => None) in
  let w1 := after (navigationFirstStrategy broken index_request (world_with_caches [])) in
  result (navigationFirstStrategy offline_env index_request w1)
  = Fulfilled (mkResponse 500 "text/html" "Server Error").
Proof.
  intros broken w1.
  exact (proj2 (proj2 (proj1 (visited_page_is_replayed_offline broken offline_env
                                index_request (world_with_caches [])
                                (mkResponse 500 "text/html" "Server Error")
                                "TypeError: Failed to fetch"
                                eq_refl eq_refl eq_refl)
                         eq_refl))).
Defined.

(** X8: the API strategy mirrors only ok responses.  A response that is
    not ok is handed to the caller and leaves every cache as it was.  An
    ok response is handed to the caller and afterwards found in the
    dynamic cache, the other caches untouched, when the cache write
    succeeds; when the cache write fails, the caller does not get the
    server's response but the copy a cache holds, or the offline body
    stamped with the time read when no cache holds one, and nothing is
    stored. *)
Theorem api_mirrors_only_ok_responses (E : Env) (req : Request) (w : World)
  (response : Response)
  (Hnet : network E (url req) = Fulfilled response) :
  let x := apiFirstStrategy E req w in
  (ok response = false ->
     result x = Fulfilled response /\ caches (after x) = caches w)
  /\ (ok response = true -> put_error E response = None ->
        result x = Fulfilled response
        /\ cache_match (url req) (dynamic_cache (after x)) = Some response
        /\ forall name, name <> DYNAMIC_CACHE ->
             storage_get name (caches (after x)) = storage_get name (caches w))
  /\ (ok response = true -> put_error E response <> None ->
        result x
        = Fulfilled
            (match storage_match (url req) (caches w) with
             | Some cached => cached
             | None =>
                 mkResponse 200 "application/json"
                   (JSON_stringify (offline_api_body (date_at E (dates_read w))))
             end)
        /\ caches (after x) = storage_open DYNAMIC_CACHE (caches w)).
Proof.
  intro x. split; [|split].
  - intro Hok. subst x.
    unfold apiFirstStrategy, result, after, try_catch, bind, fetch, caches_open,
      cache_put_in, modify, ret.
    rewrite Hnet. cbn. rewrite Hok. cbn. split; reflexivity.
  - intros Hok Hput.
    assert (Hcaches : caches (after x)
              = storage_update DYNAMIC_CACHE (cache_put (url req) response)
                  (storage_open DYNAMIC_CACHE (caches w))).
    { subst x.
      unfold apiFirstStrategy, after, try_catch, bind, fetch, caches_open,
        cache_put_in, modify, ret.
      rewrite Hnet. cbn. rewrite Hok. cbn. rewrite Hput. reflexivity. }
    split; [|split].
    + subst x.
      unfold apiFirstStrategy, result, try_catch, bind, fetch, caches_open,
        cache_put_in, modify, ret.
      rewrite Hnet. cbn. rewrite Hok. cbn. rewrite Hput. reflexivity.
    + unfold dynamic_cache. rewrite Hcaches.
      rewrite storage_get_update_present by apply storage_has_open.
      apply cache_match_put_same.
    + intros name Hname. rewrite Hcaches.
      rewrite storage_get_update_other by exact Hname.
      apply storage_get_open_any.
  - intros Hok Hput.
    destruct (put_error E response) as [e'|] eqn:Herr; [|contradiction].
    subst x.
    unfold apiFirstStrategy, result, after, try_catch, bind, fetch, caches_open,
      cache_put_in, caches_match, gets, new_Date, modify, ret.
    rewrite Hnet. cbn. rewrite Hok. cbn. rewrite Herr. cbn.
    rewrite storage_match_open.
    destruct (storage_match (url req) (caches w)); split; reflexivity.
Qed.

Lemma api_mirrors_only_ok_responses_witness :
  let env := mkEnv (fun _ => Fulfilled (mkResponse 503 "application/json" "{}"))
               (fun _ => "2024-01-01T00:00:00.000Z")
               (fun _ => None) (fun _ => None) in
  caches (after (apiFirstStrategy env api_request shell_world)) = caches shell_world.
Proof.
  intro env.
  exact (proj2 (proj1 (api_mirrors_only_ok_responses env api_request shell_world
                         (mkResponse 503 "application/json" "{}") eq_refl)
                  eq_refl)).
Defined.

(** ** Cleanup, continued *)

Lemma storage_has_update (name n : string) (f : Cache -> Cache) (cs : CacheStorage) :
  storage_has name (storage_update n f cs) = storage_has name cs.
Proof.
  unfold storage_has, storage_update.
  induction cs as [|e cs IH]; cbn; [reflexivity|].
  rewrite IH. destruct (fst e =? n); reflexivity.
Qed.

Lemma cleanupCache_caches (w : World) :
  caches (after (cleanupCache w))
  = if (100 <? List.length (dynamic_cache w))%nat
    then fold_left
           (fun cs k => storage_update DYNAMIC_CACHE (cache_delete k) cs)
           (firstn (List.length (dynamic_cache w) - 100)
                   (cache_keys (dynamic_cache w)))
           (storage_open DYNAMIC_CACHE (caches w))
    else storage_open DYNAMIC_CACHE (caches w).
Proof.
  unfold cleanupCache, after, bind, caches_open, gets, modify, dynamic_cache.
  cbn [fst snd caches set_caches].
  rewrite storage_get_open.
  unfold cache_keys at 1. rewrite length_map.
  destruct (100 <? List.length (storage_get DYNAMIC_CACHE (caches w)))%nat.
  - unfold cache_delete_in.
    rewrite (for_each_pure _
      (fun k w => set_caches (storage_update DYNAMIC_CACHE (cache_delete k)) w))
      by reflexivity.
    cbn [snd].
    rewrite (caches_fold_left_set
      (fun k => storage_update DYNAMIC_CACHE (cache_delete k))).
    cbn [caches set_caches].
    unfold cache_keys. rewrite length_map. reflexivity.
  - reflexivity.
Qed.

Lemma fold_update_facts (ks : list string) (cs : CacheStorage) :
  storage_has DYNAMIC_CACHE
    (fold_left (fun cs k => storage_update DYNAMIC_CACHE (cache_delete k) cs) ks cs)
  = storage_has DYNAMIC_CACHE cs
  /\ forall name, name <> DYNAMIC_CACHE ->
       storage_get name
         (fold_left (fun cs k => storage_update DYNAMIC_CACHE (cache_delete k) cs) ks cs)
       = storage_get name cs.
Proof.
  revert cs. induction ks as [|k ks IH]; intro cs; cbn [fold_left].
  - split; reflexivity.
  - destruct (IH (storage_update DYNAMIC_CACHE (cache_delete k) cs)) as [Hhas Hget].
    split.
    + rewrite Hhas. apply storage_has_update.
    + intros name Hname. rewrite (Hget name Hname).
      apply storage_get_update_other. exact Hname.
Qed.

(** X9: a cleanup pass touches the dynamic cache only, and a second
    pass right after it changes nothing. *)
Theorem cleanupCache_idempotent (w : World) :
  let w1 := after (cleanupCache w) in
  caches (after (cleanupCache w1)) = caches w1
  /\ storage_has DYNAMIC_CACHE (caches w1) = true
  /\ forall name, name <> DYNAMIC_CACHE ->
       storage_get name (caches w1) = storage_get name (caches w).
Proof.
  intro w1.
  assert (Hfacts : storage_has DYNAMIC_CACHE (caches w1) = true
            /\ forall name, name <> DYNAMIC_CACHE ->
                 storage_get name (caches w1) = storage_get name (caches w)).
  { subst w1. rewrite cleanupCache_caches.
    destruct (100 <? List.length (dynamic_cache w))%nat.
    - destruct (fold_update_facts
                  (firstn (List.length (dynamic_cache w) - 100)
                          (cache_keys (dynamic_cache w)))
                  (storage_open DYNAMIC_CACHE (caches w))) as [Hhas Hget].
      split.
      + rewrite Hhas. apply storage_has_open.
      + intros name Hname. rewrite (Hget name Hname). apply storage_get_open_any.
    - split; [apply storage_has_open|].
      intros name _. apply storage_get_open_any. }
  split; [|exact Hfacts].
  assert (Hsmall : List.length (dynamic_cache w1) <= 100).
  { subst w1. rewrite cleanupCache_dynamic.
    destruct (100 <? List.length (dynamic_cache w))%nat eqn:Hlt.
    - apply Nat.ltb_lt in Hlt.
      etransitivity; [apply delete_oldest_length|]. lia.
    - apply Nat.ltb_ge in Hlt. exact Hlt. }
  rewrite cleanupCache_caches.
  apply Nat.ltb_ge in Hsmall. rewrite Hsmall.
  unfold storage_open. rewrite (proj1 Hfacts). reflexivity.
Qed.

(** ** The patients store, continued *)

(** X10: a failing store request makes [savePatient] reject with the
    request's error and leaves the store as it was. *)
Theorem savePatient_failure_keeps_store (E : Env) (p : Patient) (w : World)
  (e : Error)
  (Hfail : idb_error E (idb_requests w) = Some e
           \/ (idb_error E (idb_requests w) = None
               /\ idb_error E (S (idb_requests w)) = Some e)) :
  result (savePatient E p w) = Rejected e
  /\ patients (after (savePatient E p w)) = patients w.
Proof.
  unfold savePatient, result, after, bind, openDatabase, idb_request, new_Date,
    modify, ret.
  destruct Hfail as [Hopen | [Hopen Hput]]; rewrite Hopen; cbn.
  - split; reflexivity.
  - rewrite Hput. cbn. split; reflexivity.
Qed.

Lemma savePatient_failure_keeps_store_witness :
  result (savePatient (failing_at 1) patient_A (world_with_patients [patient_B] []))
  = Rejected "QuotaExceededError"
  /\ patients (after (savePatient (failing_at 1) patient_A
                        (world_with_patients [patient_B] [])))
     = [patient_B].
Proof.
  apply (savePatient_failure_keeps_store (failing_at 1) patient_A
           (world_with_patients [patient_B] []) "QuotaExceededError").
  right. split; reflexivity.
Defined.

Lemma store_get_none_above (p : Patient) (db : list Patient) :
  Forall (key_lt p) db -> store_get (id p) db = None.
Proof.
  unfold store_get. induction 1 as [|q db Hq Hall IH]; cbn.
  - reflexivity.
  - apply compare_Lt_neq in Hq.
    assert (H : (id q =? id p) = false) by (apply String.eqb_neq; congruence).
    rewrite H. exact IH.
Qed.

Lemma store_put_length (p : Patient) (db : list Patient) :
  store_ordered db ->
  List.length (store_put p db)
  = match store_get (id p) db with
    | Some _ => List.length db
    | None => S (List.length db)
    end.
Proof.
  unfold store_ordered. induction 1 as [|q db Hsorted IH Hall].
  - reflexivity.
  - change (store_put p (q :: db)) with
      (match String.compare (id p) (id q) with
       | Lt => p :: q :: db
       | Eq => p :: db
       | Gt => q :: store_put p db
       end).
    change (store_get (id p) (q :: db)) with
      (if id q =? id p then Some q else store_get (id p) db).
    destruct (String.compare (id p) (id q)) eqn:Hcmp.
    + apply String.compare_eq_iff in Hcmp. rewrite Hcmp, String.eqb_refl.
      reflexivity.
    + assert (Hne : (id q =? id p) = false).
      { apply String.eqb_neq. apply compare_Lt_neq in Hcmp. congruence. }
      rewrite Hne.
      rewrite (store_get_none_above p db).
      * reflexivity.
      * eapply Forall_impl; [|exact Hall]. intros r Hr.
        eapply key_lt_trans; [exact Hcmp | exact Hr].
    + assert (Hne : (id q =? id p) = false).
      { apply String.eqb_neq. apply compare_Gt_neq in Hcmp. congruence. }
      rewrite Hne. cbn [List.length]. rewrite IH.
      destruct (store_get (id p) db); reflexivity.
Qed.

(** X11: [savePatient] is an upsert.  On a store in key order whose
    two requests succeed, the store stays in key order, holds the stamped
    record under the patient's id, keeps the records of every other id,
    and grows by one record exactly when the id was new. *)
Theorem savePatient_upserts (E : Env) (p : Patient) (w : World)
  (Hord : store_ordered (patients w))
  (Hopen : idb_error E (idb_requests w) = None)
  (Hput : idb_error E (S (idb_requests w)) = None) :
  let db := patients w in
  let db' := patients (after (savePatient E p w)) in
  store_ordered db'
  /\ NoDup (map id db')
  /\ (exists stored, store_get (id p) db' = Some stored /\ id stored = id p)
  /\ (forall k, k <> id p -> store_get k db' = store_get k db)
  /\ List.length db'
     = match store_get (id p) db with
       | Some _ => List.length db
       | None => S (List.length db)
       end.
Proof.
  intros db db'.
  set (stamped := with_updatedAt (Some (date_at E (dates_read w)))
                    (with_syncStatus (Some (or_pending (syncStatus p))) p)).
  assert (Hdb' : db' = store_put stamped db).
  { subst db' db stamped.
    unfold savePatient, after, bind, openDatabase, idb_request, new_Date,
      modify, ret.
    rewrite Hopen. cbn. rewrite Hput. reflexivity. }
  assert (Hord' : store_ordered db') by (rewrite Hdb'; apply store_put_ordered, Hord).
  split; [exact Hord'|]. split; [apply store_ordered_NoDup, Hord'|].
  split; [|split].
  - exists stamped. split; [|reflexivity]. rewrite Hdb'.
    exact (store_get_put_same stamped db).
  - intros k Hk. rewrite Hdb'. apply (store_get_put_other stamped). exact Hk.
  - rewrite Hdb'. exact (store_put_length stamped db Hord).
Qed.

Lemma savePatient_upserts_witness :
  let w := world_with_patients [patient_B; patient_C] [] in
  List.length (patients (after (savePatient offline_env patient_B w))) = 2
  /\ List.length (patients (after (savePatient offline_env patient_A w))) = 3.
Proof.
  intro w.
  assert (Hord : store_ordered (patients w)).
  { repeat constructor. }
  split.
  - exact (proj2 (proj2 (proj2 (proj2
             (savePatient_upserts offline_env patient_B w Hord eq_refl eq_refl))))).
  - exact (proj2 (proj2 (proj2 (proj2
             (savePatient_upserts offline_env patient_A w Hord eq_refl eq_refl))))).
Defined.

(** X12: [markAsSynced] of an id the store does not hold changes
    nothing: no record is written and no time is read; the call fulfils
    when its two requests succeed. *)
Theorem markAsSynced_missing_id (E : Env) (k : string) (w : World)
  (Hmissing : store_get k (patients w) = None) :
  let x := markAsSynced E k w in
  patients (after x) = patients w
  /\ dates_read (after x) = dates_read w
  /\ (idb_error E (idb_requests w) = None ->
      idb_error E (S (idb_requests w)) = None ->
      result x = Fulfilled tt /\ idb_requests (after x) = 2 + idb_requests w).
Proof.
  intro x. subst x.
  unfold markAsSynced, result, after, bind, openDatabase, idb_request, gets,
    new_Date, modify, ret.
  destruct (idb_error E (idb_requests w)) as [e0|] eqn:H0; cbn.
  { repeat split; discriminate. }
  destruct (idb_error E (S (idb_requests w))) as [e1|] eqn:H1; cbn.
  { repeat split; discriminate. }
  rewrite Hmissing. cbn. repeat split.
Qed.

Lemma markAsSynced_missing_id_witness :
  patients (after (markAsSynced offline_env "PAT-9999"
                     (world_with_patients [patient_B] [])))
  = [patient_B].
Proof.
  exact (proj1 (markAsSynced_missing_id offline_env "PAT-9999"
                  (world_with_patients [patient_B] []) eq_refl)).
Defined.

(** ** Reconciliation, continued *)

Lemma mark_synced_not_pending (t : string) (p : Patient) :
  is_pending (mark_synced t p) = false.
Proof. reflexivity. Qed.

Lemma pending_from_idb_request (E : Env) (db0 : list Patient) :
  preserves (pending_from db0) (idb_request E).
Proof.
  intros w H. unfold idb_request, after.
  destruct (idb_error E (idb_requests w)); exact H.
Qed.

Lemma pending_from_put_marked (db0 : list Patient) (t : string) (p : Patient) :
  preserves (pending_from db0) (modify (set_patients (store_put (mark_synced t p)))).
Proof.
  intros w H q Hq Hpending. cbn in Hq.
  destruct (In_store_put _ _ _ Hq) as [-> | Hin].
  - rewrite mark_synced_not_pending in Hpending. discriminate.
  - apply (H q Hin Hpending).
Qed.

Lemma pending_from_modify (db0 : list Patient) (f : World -> World) :
  (forall w, patients (f w) = patients w) ->
  preserves (pending_from db0) (modify f).
Proof.
  intros Hf w H q Hq. unfold modify, after in Hq. cbn [snd] in Hq.
  rewrite Hf in Hq. apply H. exact Hq.
Qed.

Lemma pending_from_markAsSynced (E : Env) (db0 : list Patient) (k : string) :
  preserves (pending_from db0) (markAsSynced E k).
Proof.
  unfold markAsSynced, openDatabase.
  apply preserves_bind; [apply pending_from_idb_request | intros _].
  apply preserves_bind; [apply pending_from_idb_request | intros _].
  apply preserves_bind; [apply preserves_gets | intros [p|]];
    [|apply preserves_ret].
  apply preserves_bind; [intros w H; exact H | intro now].
  apply preserves_bind; [apply pending_from_idb_request | intros _].
  apply pending_from_put_marked.
Qed.

Lemma pending_from_syncPendingData (E : Env) (db0 : list Patient) :
  preserves (pending_from db0) (syncPendingData E).
Proof.
  unfold syncPendingData, getPendingPatients, openDatabase.
  apply preserves_try_catch; [|intro; apply preserves_ret].
  apply preserves_bind.
  { apply preserves_bind; [apply pending_from_idb_request | intros _].
    apply preserves_bind; [apply pending_from_idb_request | intros _].
    apply preserves_gets. }
  intro pending. destruct (List.length pending =? 0)%nat; [apply preserves_ret|].
  apply preserves_bind.
  - apply preserves_for_each. intro p. apply pending_from_markAsSynced.
  - intros _. apply preserves_bind; [apply preserves_gets | intro cs].
    apply preserves_for_each. intro c. unfold postMessage.
    apply pending_from_modify. reflexivity.
Qed.

(** The records a batch marks are a prefix of the pending list. *)
Lemma sync_marks_a_prefix (E : Env) (w : World) :
  NoDup (map id (patients w)) ->
  let pending := store_pending (patients w) in
  let x := syncPendingData E w in
  exists n,
    n <= List.length pending
    /\ (forall p, In p (firstn n pending) ->
          exists j, store_get (id p) (patients (after x))
                    = Some (mark_synced (date_at E j) p))
    /\ (forall k, ~ In k (map id (firstn n pending)) ->
          store_get k (patients (after x)) = store_get k (patients w))
    /\ ((forall j, idb_error E j = None) -> n = List.length pending).
Proof.
  intros Hids pending x. subst x.
  assert (Hstop : forall w', patients w' = patients w ->
            (pending = [] \/ exists j, idb_error E j <> None) ->
            exists n,
              n <= List.length pending
              /\ (forall p, In p (firstn n pending) ->
                    exists j, store_get (id p) (patients w')
                              = Some (mark_synced (date_at E j) p))
              /\ (forall k, ~ In k (map id (firstn n pending)) ->
                    store_get k (patients w') = store_get k (patients w))
              /\ ((forall j, idb_error E j = None) -> n = List.length pending)).
  { intros w' Hp Hwhy. exists 0. cbn [firstn map].
    split; [lia|]. split; [intros p []|].
    split; [intros k _; rewrite Hp; reflexivity|].
    intro Hall. destruct Hwhy as [Hnil | [j Hj]].
    - rewrite Hnil. reflexivity.
    - exfalso. apply Hj, Hall. }
  rewrite syncPendingData_eq.
  destruct (idb_error E (idb_requests w)) as [e0|] eqn:H0.
  { apply (Hstop (tick_idb w)); [reflexivity|].
    right. exists (idb_requests w). congruence. }
  destruct (idb_error E (S (idb_requests w))) as [e1|] eqn:H1.
  { apply (Hstop (tick_idb (tick_idb w))); [reflexivity|].
    right. exists (S (idb_requests w)). congruence. }
  cbn zeta. fold pending.
  destruct (List.length pending =? 0)%nat eqn:Hlen.
  { apply (Hstop (tick_idb (tick_idb w))); [reflexivity|].
    left. apply Nat.eqb_eq in Hlen.
    destruct pending; [reflexivity | discriminate]. }
  set (w2 := tick_idb (tick_idb w)).
  assert (Hnd : NoDup (map id pending)) by (apply NoDup_map_filter, Hids).
  assert (Hstored : forall p, In p pending -> store_get (id p) (patients w2) = Some p).
  { intros p Hp. apply filter_In in Hp. apply store_get_in; tauto. }
  pose proof (mark_loop E pending w2 Hnd Hstored)
    as (_ & _ & _ & n & Hn & Hmarked & Hother & _ & Hall).
  cbn [w2 tick_idb patients] in Hother.
  unfold after in *.
  destruct (for_each pending (fun p => markAsSynced E (id p)) w2) as [[[]|e] w3];
    cbn [snd] in *.
  - pose proof (broadcast_loop (SYNC_COMPLETE (List.length pending)) (clients w3) w3)
      as (_ & _ & Hbpat & _).
    unfold after in Hbpat.
    destruct (for_each (clients w3) (postMessage (SYNC_COMPLETE (List.length pending))) w3)
      as [[a|e] w4]; cbn [snd] in *; exists n; rewrite Hbpat; auto.
  - exists n. auto.
Qed.

Lemma NoDup_firstn_skipn {A} (l : list A) (n : nat) (x : A) :
  NoDup l -> In x (skipn n l) -> ~ In x (firstn n l).
Proof.
  intros Hnd Hskip Hfirst.
  rewrite <- (firstn_skipn n l) in Hnd.
  apply NoDup_app_remove_l in Hnd as Hnd2.
  revert Hnd Hskip Hfirst. generalize (firstn n l) (skipn n l).
  intros l1 l2. induction l1 as [|y l1 IH]; cbn; intros Hnd Hskip Hfirst.
  - contradiction.
  - inversion Hnd as [|? ? Hy Hnd']; subst. destruct Hfirst as [-> | Hfirst].
    + apply Hy. apply in_or_app. right. exact Hskip.
    + apply IH; assumption.
Qed.

(** X13: what a batch leaves pending.  On a store in key order the
    records still pending after a batch are exactly those the batch did
    not reach: they follow a prefix of the pending list, which is the
    whole list when no store request fails. *)
Theorem batch_leaves_the_unreached_pending (E : Env) (w : World)
  (Hord : store_ordered (patients w)) :
  let pending := store_pending (patients w) in
  let w' := after (syncPendingData E w) in
  exists n,
    n <= List.length pending
    /\ (forall q, In q (store_pending (patients w')) <-> In q (skipn n pending))
    /\ ((forall j, idb_error E j = None) ->
          n = List.length pending /\ store_pending (patients w') = []).
Proof.
  intros pending w'.
  pose proof (store_ordered_NoDup _ Hord) as Hids.
  destruct (sync_marks_a_prefix E w Hids)
    as (n & Hn & Hmarked & Hother & Hall).
  fold pending in Hn, Hmarked, Hother, Hall. fold w' in Hmarked, Hother.
  assert (Hord' : store_ordered (patients w'))
    by (apply (ordered_syncPendingData E w Hord)).
  pose proof (store_ordered_NoDup _ Hord') as Hids'.
  assert (Hfrom : pending_from (patients w) w').
  { apply (pending_from_syncPendingData E (patients w) w). intros q Hq _. exact Hq. }
  assert (Hndp : NoDup (map id pending)) by (apply NoDup_map_filter, Hids).
  assert (Hiff : forall q, In q (store_pending (patients w')) <-> In q (skipn n pending)).
  { intro q. unfold store_pending at 1. rewrite filter_In. split.
    - intros [Hq Hpend].
      assert (Hold : In q pending).
      { apply filter_In. split; [apply Hfrom; assumption | exact Hpend]. }
      rewrite <- (firstn_skipn n pending) in Hold.
      apply in_app_or in Hold. destruct Hold as [Hfirst | Hskip]; [|exact Hskip].
      exfalso. destruct (Hmarked q Hfirst) as [j Hj].
      rewrite (store_get_in _ q Hids' Hq) in Hj. injection Hj as Hj.
      rewrite Hj in Hpend. rewrite mark_synced_not_pending in Hpend. discriminate.
    - intro Hskip.
      assert (Hq : In q pending).
      { rewrite <- (firstn_skipn n pending). apply in_or_app. right. exact Hskip. }
      apply filter_In in Hq. destruct Hq as [Hq Hpend]. split; [|exact Hpend].
      assert (Hget : store_get (id q) (patients w') = Some q).
      { rewrite Hother.
        - apply store_get_in; assumption.
        - intro Hin. rewrite <- firstn_map in Hin.
          apply (NoDup_firstn_skipn (map id pending) n (id q) Hndp); [|exact Hin].
          rewrite skipn_map. apply in_map. exact Hskip. }
      unfold store_get in Hget. apply find_some in Hget. tauto. }
  exists n. split; [exact Hn|]. split; [exact Hiff|].
  intro Hno. specialize (Hall Hno). split; [exact Hall|].
  destruct (store_pending (patients w')) as [|q l] eqn:Hleft; [reflexivity|].
  exfalso. assert (Hq : In q (skipn n pending)) by (apply Hiff; left; reflexivity).
  rewrite Hall, skipn_all in Hq. exact Hq.
Qed.

Lemma batch_leaves_the_unreached_pending_witness :
  let w := world_with_patients [patient_S; patient_B; patient_C] [1] in
  store_ordered (patients w)
  /\ exists n, forall q,
       In q (store_pending (patients (after (syncPendingData (failing_at 7) w))))
       <-> In q (skipn n (store_pending (patients w))).
Proof.
  intro w.
  assert (Hord : store_ordered (patients w)) by (repeat constructor).
  split; [exact Hord|].
  destruct (batch_leaves_the_unreached_pending (failing_at 7) w Hord)
    as (n & _ & Hiff & _).
  exists n. exact Hiff.
Defined.

Lemma batch_all_marked (E : Env) (w : World) :
  store_ordered (patients w) ->
  (forall j, idb_error E j = None) ->
  store_pending (patients (after (syncPendingData E w))) = [].
Proof.
  intros Hord Hok.
  pose proof (store_ordered_NoDup _ Hord) as Hids.
  destruct (sync_marks_a_prefix E w Hids) as (n & _ & Hmarked & _ & Hall).
  specialize (Hall Hok). rewrite Hall, firstn_all in Hmarked.
  assert (Hord' : store_ordered (patients (after (syncPendingData E w))))
    by (apply (ordered_syncPendingData E w Hord)).
  pose proof (store_ordered_NoDup _ Hord') as Hids'.
  assert (Hfrom : pending_from (patients w) (after (syncPendingData E w))).
  { apply (pending_from_syncPendingData E (patients w) w). intros q Hq _. exact Hq. }
  destruct (store_pending (patients (after (syncPendingData E w)))) as [|q l] eqn:Hleft;
    [reflexivity|].
  exfalso.
  assert (Hq : In q (store_pending (patients (after (syncPendingData E w)))))
    by (rewrite Hleft; left; reflexivity).
  apply filter_In in Hq. destruct Hq as [Hq Hpend].
  assert (Hold : In q (store_pending (patients w))).
  { apply filter_In. split; [apply Hfrom; assumption | exact Hpend]. }
  destruct (Hmarked q Hold) as [j Hj].
  rewrite (store_get_in _ q Hids' Hq) in Hj. injection Hj as Hj.
  rewrite Hj in Hpend. rewrite mark_synced_not_pending in Hpend. discriminate.
Qed.

(** X14: reconciliation is idempotent.  After a batch whose store
    requests all succeeded no record is pending, and a second batch marks
    nothing and sends no message. *)
Theorem second_batch_is_silent (E : Env) (w : World)
  (Hord : store_ordered (patients w))
  (Hok : forall j, idb_error E j = None) :
  let w1 := after (syncPendingData E w) in
  let w2 := after (syncPendingData E w1) in
  store_pending (patients w1) = []
  /\ patients w2 = patients w1
  /\ outbox w2 = outbox w1.
Proof.
  intros w1 w2.
  pose proof (batch_all_marked E w Hord Hok) as Hnone. fold w1 in Hnone.
  split; [exact Hnone|]. subst w2.
  rewrite syncPendingData_eq, !Hok. cbn zeta. rewrite Hnone. cbn.
  split; reflexivity.
Qed.

Lemma second_batch_is_silent_witness :
  let w := world_with_patients [patient_S; patient_B; patient_C] [1] in
  let w1 := after (syncPendingData offline_env w) in
  outbox (after (syncPendingData offline_env w1)) = [(1, SYNC_COMPLETE 2)].
Proof.
  intros w w1.
  assert (Hord : store_ordered (patients w)) by (repeat constructor).
  destruct (second_batch_is_silent offline_env w Hord (fun _ => eq_refl))
    as (_ & _ & Hout).
  cbn zeta in Hout. fold w1 in Hout. rewrite Hout. reflexivity.
Defined.

(** ** The message listener, continued *)

Lemma none_left_pending (db0 db1 : list Patient) :
  NoDup (map id db1) ->
  (forall q, In q db1 -> is_pending q = true -> In q db0) ->
  (forall p, In p (store_pending db0) ->
     exists t, store_get (id p) db1 = Some (mark_synced t p)) ->
  store_pending db1 = [].
Proof.
  intros Hids Hfrom Hmarked.
  destruct (store_pending db1) as [|q l] eqn:Hleft; [reflexivity|].
  exfalso.
  assert (Hq : In q (store_pending db1)) by (rewrite Hleft; left; reflexivity).
  apply filter_In in Hq. destruct Hq as [Hq Hpend].
  assert (Hold : In q (store_pending db0)).
  { apply filter_In. split; [apply Hfrom; assumption | exact Hpend]. }
  destruct (Hmarked q Hold) as [t Ht].
  rewrite (store_get_in _ q Hids Hq) in Ht. injection Ht as Ht.
  rewrite Ht in Hpend. rewrite mark_synced_not_pending in Hpend. discriminate.
Qed.

Lemma pending_from_clear_puts (E : Env) (db0 : list Patient) (l : list Patient) :
  preserves (pending_from db0) (clear_puts E l).
Proof.
  induction l as [|p l IH]; cbn [clear_puts].
  - apply preserves_ret.
  - apply preserves_bind; [intros w H; exact H | intro now].
    apply preserves_bind.
    + intros w H. unfold put_unawaited, after.
      destruct (idb_error E (idb_requests w)); cbn [snd]; [exact H|].
      intros q Hq Hpending. cbn in Hq.
      destruct (In_store_put _ _ _ Hq) as [-> | Hin].
      * rewrite mark_synced_not_pending in Hpending. discriminate.
      * apply (H q Hin Hpending).
    + intro done. apply preserves_bind; [exact IH | intro; apply preserves_ret].
Qed.

(** X15: the listener keeps the object store well formed.  Whatever
    message arrives and whichever requests fail, a store whose records
    lie in ascending key order is left in ascending key order, so no two
    stored records share an id. *)
Theorem message_listener_keeps_keys_unique (E : Env) (ev : Envelope) (w : World)
  (Hord : store_ordered (patients w)) :
  let w' := after (on_message E ev w) in
  store_ordered (patients w') /\ NoDup (map id (patients w')).
Proof.
  intro w'.
  assert (H : store_ordered (patients w')) by (apply (on_message_keeps_order E ev w Hord)).
  split; [exact H | apply store_ordered_NoDup, H].
Qed.

Lemma message_listener_keeps_keys_unique_witness :
  let w := world_with_patients [patient_B; patient_C] [] in
  let ev := mkEnvelope "SAVE_PATIENT" (Some (mkMsgData (Some patient_B_again))) in
  store_ordered (patients w)
  /\ NoDup (map id (patients (after (on_message offline_env ev w)))).
Proof.
  intros w ev.
  assert (Hord : store_ordered (patients w)) by (repeat constructor).
  split; [exact Hord|].
  apply (message_listener_keeps_keys_unique offline_env ev w Hord).
Defined.

(** X16: the reading messages write nothing.  A message that is not
    SAVE_PATIENT, CLEAR_PENDING_DATA or PERFORM_SYNC (the three reads
    and every unknown type) leaves the store, the caches and the
    messages to the clients as they were, and issues no network
    request. *)
Theorem reading_messages_write_nothing (E : Env) (ev : Envelope) (w : World)
  (Hsave : msg_type ev <> "SAVE_PATIENT")
  (Hclear : msg_type ev <> "CLEAR_PENDING_DATA")
  (Hsync : msg_type ev <> "PERFORM_SYNC") :
  let w' := after (on_message E ev w) in
  patients w' = patients w
  /\ caches w' = caches w
  /\ outbox w' = outbox w
  /\ net_log w' = net_log w.
Proof.
  intro w'. subst w'.
  set (Inv := fun w0 : World =>
                patients w0 = patients w /\ caches w0 = caches w
                /\ outbox w0 = outbox w /\ net_log w0 = net_log w).
  assert (Hidb : preserves Inv (idb_request E)).
  { intros w0 H. unfold idb_request, after.
    destruct (idb_error E (idb_requests w0)); exact H. }
  assert (Hdate : preserves Inv (new_Date E)) by (intros w0 H; exact H).
  assert (Hreply : forall r, preserves Inv (reply r)) by (intros r w0 H; exact H).
  assert (Hall : preserves Inv (getAllPatients E)).
  { unfold getAllPatients, openDatabase.
    repeat (apply preserves_bind; [exact Hidb | intros _]). apply preserves_gets. }
  assert (Hpend : preserves Inv (getPendingPatients E)).
  { unfold getPendingPatients, openDatabase.
    repeat (apply preserves_bind; [exact Hidb | intros _]). apply preserves_gets. }
  apply String.eqb_neq in Hsave, Hclear, Hsync.
  assert (H : preserves Inv (on_message E ev)).
  { unfold on_message. cbn zeta. rewrite Hsave.
    apply preserves_try_catch; [|intro; apply Hreply].
    destruct (msg_type ev =? "GET_PATIENTS").
    { apply preserves_bind; [exact Hall | intro; apply Hreply]. }
    destruct (msg_type ev =? "GET_PENDING_DATA").
    { apply preserves_bind; [exact Hpend | intro; apply Hreply]. }
    rewrite Hclear.
    destruct (msg_type ev =? "EXPORT_DATA").
    { apply preserves_bind; [exact Hall | intro].
      apply preserves_bind; [exact Hdate | intro; apply Hreply]. }
    rewrite Hsync. apply Hreply. }
  apply (H w). repeat split.
Qed.

Lemma reading_messages_write_nothing_witness :
  let w := world_with_patients [patient_B; patient_C] [1] in
  patients (after (on_message (failing_at 1) (mkEnvelope "EXPORT_DATA" None) w))
  = patients w.
Proof.
  intro w.
  apply (reading_messages_write_nothing (failing_at 1) (mkEnvelope "EXPORT_DATA" None) w);
    discriminate.
Defined.

(** X17: PERFORM_SYNC always reports success.  The batch swallows its
    own failures, so the one reply to PERFORM_SYNC is the success reply
    whichever store requests fail, also when nothing was marked. *)
Theorem perform_sync_always_reports_success (E : Env) (d : option MsgData) (w : World) :
  let x := on_message E (mkEnvelope "PERFORM_SYNC" d) w in
  result x = Fulfilled tt
  /\ replies (after x) = replies w ++ [reply_ok NoData].
Proof.
  intro x. subst x.
  change (on_message E (mkEnvelope "PERFORM_SYNC" d) w)
    with (try_catch (syncPendingData E ;; reply (reply_ok NoData))
            (fun error => reply (reply_error error)) w).
  pose proof (silent_syncPendingData E w) as Hsilent.
  assert (Hful : result (syncPendingData E w) = Fulfilled tt).
  { unfold syncPendingData, try_catch, result.
    match goal with |- fst (match ?m with _ => _ end) = _ =>
      destruct m as [[[]|e] w1] end; reflexivity. }
  unfold try_catch, bind, result, after in *.
  destruct (syncPendingData E w) as [[[]|e] w1]; cbn [fst snd] in *;
    [|discriminate].
  unfold reply, modify. cbn. rewrite Hsilent. split; reflexivity.
Qed.

(** X18: a record posted by the bridge's spread is not stored.  The
    bridge posts [{ type, ...data }]; when the argument of the call has
    no [data] key (and no [type] key) the listener finds no [data] field
    on a SAVE_PATIENT message: it opens no database, stores nothing and
    answers with a failure. *)
Theorem spread_save_is_not_stored (E : Env) (arg : CallArgument) (w : World)
  (Htype : arg_type arg = None)
  (Hdata : arg_data arg = None) :
  let x := on_message E (posted_message "SAVE_PATIENT" arg) w in
  patients (after x) = patients w
  /\ idb_requests (after x) = idb_requests w
  /\ exists e, replies (after x) = replies w ++ [reply_error e].
Proof.
  intro x. subst x. unfold posted_message. rewrite Htype, Hdata.
  cbn. repeat split. eexists. reflexivity.
Qed.

Lemma spread_save_is_not_stored_witness :
  let arg := mkCallArgument None (Some patient_A) None in
  patients (after (on_message offline_env (posted_message "SAVE_PATIENT" arg)
                     (world_with_patients [] [])))
  = [].
Proof.
  intro arg.
  apply (spread_save_is_not_stored offline_env arg (world_with_patients [] []));
    reflexivity.
Defined.

(** X19: a saved record is listed back.  When the four store requests
    succeed, SAVE_PATIENT with a record under [data.patient] followed by
    GET_PATIENTS posts the success reply and then a list that holds the
    record as stamped (status defaulted, updatedAt the time of the save)
    under its id, and every stored record of another id. *)
Theorem saved_record_is_listed (E : Env) (p : Patient) (w : World)
  (Hord : store_ordered (patients w))
  (Hok : forall j, j < 4 -> idb_error E (idb_requests w + j) = None) :
  let save := mkEnvelope "SAVE_PATIENT" (Some (mkMsgData (Some p))) in
  let w1 := after (on_message E save w) in
  let w2 := after (on_message E (mkEnvelope "GET_PATIENTS" None) w1) in
  let stamped :=
    with_updatedAt (Some (date_at E (dates_read w)))
      (with_syncStatus (Some (or_pending (syncStatus p))) p) in
  exists listed,
    replies w2 = replies w ++ [reply_ok NoData; reply_ok (PatientList listed)]
    /\ store_get (id p) listed = Some stamped
    /\ (forall q, In q (patients w) -> id q <> id p -> In q listed)
    /\ NoDup (map id listed).
Proof.
  intros save w1 w2 stamped.
  pose proof (Hok 0 ltac:(lia)) as H0. rewrite Nat.add_0_r in H0.
  pose proof (Hok 1 ltac:(lia)) as H1. rewrite Nat.add_1_r in H1.
  pose proof (Hok 2 ltac:(lia)) as H2.
  replace (idb_requests w + 2) with (S (S (idb_requests w))) in H2 by lia.
  pose proof (Hok 3 ltac:(lia)) as H3.
  replace (idb_requests w + 3) with (S (S (S (idb_requests w)))) in H3 by lia.
  assert (Hw1 : w1 = send_reply (reply_ok NoData)
                       (set_patients (store_put stamped)
                          (tick_idb (tick_date (tick_idb w))))).
  { subst w1 save. unfold on_message. cbn [msg_type msg_data patient].
    change ("SAVE_PATIENT" =? "SAVE_PATIENT") with true. cbn match.
    unfold savePatient, openDatabase, reply.
    unfold try_catch, bind, idb_request, new_Date, modify, ret, after.
    rewrite H0. cbn [idb_requests tick_idb tick_date dates_read]. rewrite H1.
    reflexivity. }
  exists (store_put stamped (patients w)).
  assert (Hw2 : replies w2
                = replies w1 ++ [reply_ok (PatientList (store_put stamped (patients w)))]).
  { subst w2. rewrite Hw1. unfold on_message. cbn [msg_type msg_data].
    change ("GET_PATIENTS" =? "SAVE_PATIENT") with false.
    change ("GET_PATIENTS" =? "GET_PATIENTS") with true. cbn match.
    unfold getAllPatients, openDatabase, reply.
    unfold try_catch, bind, idb_request, gets, modify, ret, after.
    cbn [idb_requests tick_idb tick_date send_reply set_patients].
    rewrite H2. cbn [idb_requests tick_idb tick_date send_reply set_patients].
    rewrite H3. reflexivity. }
  split.
  { rewrite Hw2, Hw1. cbn [replies send_reply set_patients tick_idb tick_date].
    rewrite <- app_assoc. reflexivity. }
  split; [exact (store_get_put_same stamped (patients w))|].
  split.
  - intros q Hq Hne.
    pose proof (store_ordered_NoDup _ Hord) as Hids.
    pose proof (store_get_in _ q Hids Hq) as Hget.
    rewrite <- (store_get_put_other stamped (patients w) (id q) Hne) in Hget.
    unfold store_get in Hget. apply find_some in Hget. tauto.
  - apply store_ordered_NoDup, store_put_ordered, Hord.
Qed.

Lemma saved_record_is_listed_witness :
  let w := world_with_patients [patient_B; patient_C] [] in
  let save := mkEnvelope "SAVE_PATIENT" (Some (mkMsgData (Some patient_A))) in
  let w1 := after (on_message offline_env save w) in
  let w2 := after (on_message offline_env (mkEnvelope "GET_PATIENTS" None) w1) in
  exists listed,
    replies w2 = [reply_ok NoData; reply_ok (PatientList listed)]
    /\ In patient_B listed /\ In patient_C listed.
Proof.
  intros w save w1 w2.
  assert (Hord : store_ordered (patients w)) by (repeat constructor).
  destruct (saved_record_is_listed offline_env patient_A w Hord (fun _ _ => eq_refl))
    as (listed & Hreplies & _ & Hothers & _).
  exists listed. split; [exact Hreplies|].
  split; apply Hothers; cbn; try tauto; discriminate.
Defined.

(** X20: after CLEAR_PENDING_DATA nothing is pending.  On a store in
    key order, when no store request fails, the message leaves no record
    pending, and a GET_PENDING_DATA that follows is answered with the
    empty list. *)
Theorem clear_leaves_nothing_pending (E : Env) (d d' : option MsgData) (w : World)
  (Hord : store_ordered (patients w))
  (Hok : forall j, idb_error E j = None) :
  let w1 := after (on_message E (mkEnvelope "CLEAR_PENDING_DATA" d) w) in
  let w2 := after (on_message E (mkEnvelope "GET_PENDING_DATA" d') w1) in
  store_pending (patients w1) = []
  /\ replies w2 = replies w1 ++ [reply_ok (PatientList [])]
  /\ patients w2 = patients w1.
Proof.
  intros w1 w2.
  assert (Hnone : store_pending (patients w1) = []).
  { subst w1. rewrite on_message_clear.
    pose proof (store_ordered_NoDup _ Hord) as Hids.
    assert (Hord1 : store_ordered
              (patients (after (try_catch (clear_pending E)
                                  (fun error => reply (reply_error error)) w)))).
    { apply (preserves_try_catch ordered_world (clear_pending E)
               (fun error => reply (reply_error error))
               (ordered_clear_pending E)); [|exact Hord].
      intros e w0 H. exact H. }
    revert Hord1.
    unfold try_catch at 1 2, clear_pending, bind, openDatabase, idb_request.
    rewrite Hok. cbn [idb_requests tick_idb]. rewrite Hok.
    set (w0 := tick_idb (tick_idb w)).
    assert (Hnd : NoDup (map id (store_pending (patients w0))))
      by (apply NoDup_map_filter, Hids).
    pose proof (clear_puts_spec E (store_pending (patients w0)) w0 Hnd)
      as (_ & _ & _ & c & Hres & Hdone & Hall).
    pose proof (pending_from_clear_puts E (patients w) (store_pending (patients w0)) w0)
      as Hfrom.
    specialize (Hall Hok). subst c. destruct (Hdone eq_refl) as (Hmarked & _).
    unfold try_catch, clear_onsuccess, bind, gets, reply, modify.
    unfold result, after in *.
    destruct (clear_puts E (store_pending (patients w0)) w0) as [[c'|e'] w3];
      cbn [fst snd] in *; [|discriminate].
    injection Hres as ->. cbn. intro Hord1.
    apply (none_left_pending (patients w) (patients w3)).
    - apply store_ordered_NoDup, Hord1.
    - apply Hfrom. intros q Hq _. exact Hq.
    - intros p Hp. destruct (Hmarked p Hp) as [j Hj]. eexists. exact Hj. }
  split; [exact Hnone|].
  clearbody w1. subst w2. unfold on_message. cbn [msg_type msg_data].
  change ("GET_PENDING_DATA" =? "SAVE_PATIENT") with false.
  change ("GET_PENDING_DATA" =? "GET_PATIENTS") with false.
  change ("GET_PENDING_DATA" =? "GET_PENDING_DATA") with true. cbn match.
  unfold getPendingPatients, openDatabase, reply.
  unfold try_catch, bind, idb_request, gets, modify, ret, after.
  rewrite Hok. cbn [idb_requests tick_idb]. rewrite Hok.
  cbn [fst snd patients tick_idb send_reply replies]. rewrite Hnone.
  split; reflexivity.
Qed.

Lemma clear_leaves_nothing_pending_witness :
  let w := world_with_patients [patient_S; patient_B; patient_C] [] in
  store_pending (patients w) = [patient_B; patient_C]
  /\ store_pending
       (patients (after (on_message offline_env
                           (mkEnvelope "CLEAR_PENDING_DATA" None) w))) = [].
Proof.
  intro w. split; [reflexivity|].
  assert (Hord : store_ordered (patients w)) by (repeat constructor).
  apply (clear_leaves_nothing_pending offline_env None None w Hord (fun _ => eq_refl)).
Defined.

(** ** The page, continued *)

Lemma or_number_erased (x' x : option Z) (d : Z) :
  erased x' x -> or_number x' d = or_number x d \/ or_number x' d = d.
Proof.
  intros [-> | [-> | ->]]; [left | right | right]; reflexivity.
Qed.

Ltac split_comparisons :=
  repeat match goal with
         | |- context [(?a <? ?b)%Z] => destruct (Z.ltb_spec a b)
         | |- context [(?a <=? ?b)%Z] => destruct (Z.leb_spec a b)
         end.

(** X21: a reading taken away never raises the priority.  When each
    reading of a form is the reading of another form, or is missing or
    0, its score is at most the other's; so if it is classed red or
    yellow, the other is classed at least as high. *)
Theorem erased_reading_never_raises_priority (v' v : Readings)
  (Hhr : erased (heartRate v') (heartRate v))
  (Hbp : erased (bloodPressureSystolic v') (bloodPressureSystolic v))
  (Hspo2 : erased (oxygenSaturation v') (oxygenSaturation v))
  (Hrr : erased (respiratoryRate v') (respiratoryRate v)) :
  (vitals_score v' <= vitals_score v)%Z
  /\ (calculatePriorityFromVitals v' = "red" -> calculatePriorityFromVitals v = "red")
  /\ (calculatePriorityFromVitals v' = "yellow" ->
        calculatePriorityFromVitals v <> "green").
Proof.
  assert (Hscore : (vitals_score v' <= vitals_score v)%Z).
  { unfold vitals_score. cbv zeta.
    destruct (or_number_erased _ _ 80%Z Hhr) as [-> | ->];
    destruct (or_number_erased _ _ 120%Z Hbp) as [-> | ->];
    destruct (or_number_erased _ _ 98%Z Hspo2) as [-> | ->];
    destruct (or_number_erased _ _ 16%Z Hrr) as [-> | ->];
    generalize (or_number (heartRate v) 80), (or_number (bloodPressureSystolic v) 120),
      (or_number (oxygenSaturation v) 98), (or_number (respiratoryRate v) 16);
    intros hr bp spo2 rr; unfold add_if;
    change (80 <? 50)%Z with false; change (120 <? 80)%Z with false;
    change (80 <? 40)%Z with false; change (140 <? 80)%Z with false;
    change (120 <? 90)%Z with false; change (160 <? 120)%Z with false;
    change (120 <? 70)%Z with false; change (180 <? 120)%Z with false;
    change (98 <? 94)%Z with false; change (98 <? 90)%Z with false;
    change (16 <? 12)%Z with false; change (20 <? 16)%Z with false;
    change (16 <? 8)%Z with false; change (24 <? 16)%Z with false;
    cbn [orb];
    repeat match goal with
           | |- context [if ?c then _ else _] => destruct c
           end; lia. }
  split; [exact Hscore|].
  unfold calculatePriorityFromVitals. cbv zeta.
  revert Hscore. generalize (vitals_score v'), (vitals_score v). intros s' s Hle.
  split; split_comparisons; intro Hclass; try discriminate Hclass;
    try reflexivity; try (intro Hgreen; discriminate Hgreen); lia.
Qed.

Lemma erased_reading_never_raises_priority_witness :
  let v := mkReadings (Some 150%Z) (Some 60%Z) (Some 97%Z) (Some 16%Z) in
  let v' := mkReadings None (Some 60%Z) (Some 97%Z) (Some 0%Z) in
  calculatePriorityFromVitals v = "red"
  /\ (vitals_score v' <= vitals_score v)%Z.
Proof.
  intros v v'. split; [reflexivity|].
  apply (erased_reading_never_raises_priority v' v); unfold erased; cbn; auto.
Defined.

(** X22: one abnormal reading alone is never red.  When three of the
    four readings are in their normal range (or missing), the form is
    classed green or yellow, whatever the fourth reading; an abnormal
    respiratory rate alone is classed green. *)
Theorem one_abnormal_reading_is_never_red (v : Readings)
  (Hthree :
     (normal_bloodPressure v /\ normal_oxygenSaturation v /\ normal_respiratoryRate v)
     \/ (normal_heartRate v /\ normal_oxygenSaturation v /\ normal_respiratoryRate v)
     \/ (normal_heartRate v /\ normal_bloodPressure v /\ normal_respiratoryRate v)
     \/ (normal_heartRate v /\ normal_bloodPressure v /\ normal_oxygenSaturation v)) :
  (vitals_score v <= 5)%Z
  /\ calculatePriorityFromVitals v <> "red"
  /\ (normal_heartRate v -> normal_bloodPressure v -> normal_oxygenSaturation v ->
        calculatePriorityFromVitals v = "green").
Proof.
  assert (Hscore : (0 <= vitals_score v <= 5)%Z
                   /\ (normal_heartRate v -> normal_bloodPressure v ->
                       normal_oxygenSaturation v -> (vitals_score v <= 3)%Z)).
  { unfold normal_heartRate, normal_bloodPressure, normal_oxygenSaturation,
      normal_respiratoryRate in *.
    unfold vitals_score. cbv zeta.
    revert Hthree.
    generalize (or_number (heartRate v) 80), (or_number (bloodPressureSystolic v) 120),
      (or_number (oxygenSaturation v) 98), (or_number (respiratoryRate v) 16).
    intros hr bp spo2 rr Hthree. unfold add_if.
    split_comparisons; cbn [orb]; lia. }
  destruct Hscore as [Hfive Hthree_max].
  split; [lia|].
  unfold calculatePriorityFromVitals. cbv zeta.
  split.
  - split_comparisons; try discriminate; lia.
  - intros H1 H2 H3. specialize (Hthree_max H1 H2 H3).
    split_comparisons; try reflexivity; lia.
Qed.

Lemma one_abnormal_reading_is_never_red_witness :
  let v := mkReadings (Some 200%Z) None (Some 97%Z) (Some 16%Z) in
  calculatePriorityFromVitals v = "yellow"
  /\ calculatePriorityFromVitals v <> "red".
Proof.
  intro v. split; [reflexivity|].
  apply (one_abnormal_reading_is_never_red v).
  left. unfold normal_bloodPressure, normal_oxygenSaturation, normal_respiratoryRate.
  cbn. lia.
Defined.









Lemma first_of_each_id_app (l1 l2 : list Patient) :
  forall seen,
    first_of_each_id seen (l1 ++ l2)
    = first_of_each_id seen l1
      ++ first_of_each_id
           (rev (map id (first_of_each_id seen l1)) ++ seen) l2.
Proof.
  induction l1 as [|p l1 IH]; intro seen; cbn [app first_of_each_id].
  - reflexivity.
  - destruct (existsb (String.eqb (id p)) seen); [apply IH|].
    rewrite IH. cbn [app map rev]. rewrite <- app_assoc. reflexivity.
Qed.

Lemma first_of_each_id_all_seen (l : list Patient) (seen : list string) :
  (forall p, In p l -> In (id p) seen) -> first_of_each_id seen l = [].
Proof.
  induction l as [|p l IH]; intro Hseen; cbn [first_of_each_id]; [reflexivity|].
  assert (H : existsb (String.eqb (id p)) seen = true).
  { apply existsb_exists. exists (id p).
    split; [apply Hseen; left; reflexivity | apply String.eqb_refl]. }
  rewrite H. apply IH. intros q Hq. apply Hseen. right. exact Hq.
Qed.

Lemma first_of_each_id_twice (l : list Patient) :
  forall seen,
    first_of_each_id seen (first_of_each_id seen l) = first_of_each_id seen l.
Proof.
  induction l as [|p l IH]; intro seen; cbn [first_of_each_id]; [reflexivity|].
  destruct (existsb (String.eqb (id p)) seen) eqn:Hseen; [apply IH|].
  cbn [first_of_each_id]. rewrite Hseen, IH. reflexivity.
Qed.

(** The filter throws exactly when the array holds a [null]. *)
Lemma remove_duplicates_null (es : list Entry) :
  forall uniqueIds, In NullEntry es -> remove_duplicates uniqueIds es = None.
Proof.
  induction es as [|[p|] es IH]; intros seen Hin; cbn [remove_duplicates].
  - contradiction.
  - destruct Hin as [Heq | Hin]; [discriminate|].
    destruct (existsb (String.eqb (id p)) seen); [apply IH, Hin|].
    rewrite (IH _ Hin). reflexivity.
  - reflexivity.
Qed.

Lemma remove_duplicates_some (es rest : list Entry) :
  forall uniqueIds unique,
    remove_duplicates uniqueIds (es ++ rest) = Some unique ->
    exists ps, es = map Rec ps.
Proof.
  induction es as [|[p|] es IH]; intros seen unique H; cbn [app remove_duplicates] in H.
  - exists []. reflexivity.
  - destruct (existsb (String.eqb (id p)) seen).
    + destruct (IH _ _ H) as [ps ->]. exists (p :: ps). reflexivity.
    + destruct (remove_duplicates (id p :: seen) (es ++ rest)) as [l|] eqn:Hl;
        [|discriminate].
      destruct (IH _ _ Hl) as [ps ->]. exists (p :: ps). reflexivity.
  - discriminate.
Qed.

(** X25: importing a file again adds nothing.  When an import finished
    (the file was refused as invalid, or every entry of its array was
    read), a second import of the same file finishes too and leaves the
    list of patients as the first import made it. *)
Theorem import_again_changes_no_record (q1 q2 : bool) (file : FileContent)
  (a a1 : App)
  (Hfirst : importData q1 file a = Finished a1) :
  exists a2,
    importData q2 file a1 = Finished a2
    /\ app_patients a2 = app_patients a1.
Proof.
  destruct file as [|[incoming|]].
  - injection Hfirst as <-. eexists. split; reflexivity.
  - assert (Hrecords : exists ps, incoming = map Rec ps).
    { unfold importData in Hfirst. cbv zeta in Hfirst.
      destruct (remove_duplicates [] (incoming ++ map Rec (app_patients a)))
        as [unique|] eqn:Hu; [|discriminate].
      apply (remove_duplicates_some incoming _ _ _ Hu). }
    destruct Hrecords as [ps ->].
    rewrite importData_records in Hfirst. injection Hfirst as <-.
    rewrite importData_records. eexists. split; [reflexivity|].
    rewrite !imported_patients.
    set (A := first_of_each_id [] ps).
    rewrite (first_of_each_id_app ps (app_patients a)). fold A.
    rewrite (first_of_each_id_app ps). fold A. f_equal.
    rewrite (first_of_each_id_app A).
    rewrite (first_of_each_id_all_seen A).
    + cbn [map rev app]. apply first_of_each_id_twice.
    + intros p Hp. apply in_or_app. left. apply -> in_rev. apply in_map. exact Hp.
  - injection Hfirst as <-. eexists. split; reflexivity.
Qed.

Lemma import_again_changes_no_record_witness :
  let file := Parsed (Some [Rec patient_B_again; Rec patient_C]) in
  exists a1 a2,
    importData true file (app_with [patient_B]) = Finished a1
    /\ importData false file a1 = Finished a2
    /\ app_patients a2 = [patient_B_again; patient_C].
Proof.
  intro file. eexists.
  destruct (import_again_changes_no_record true false file (app_with [patient_B]) _
              eq_refl) as (a2 & Hdone & Hsame).
  exists a2. split; [reflexivity|]. split; [exact Hdone|].
  rewrite Hsame. reflexivity.
Defined.

(** X27: a file with a [null] entry pollutes the page.  When the array
    of the file holds a [null], the import does not finish: the filter
    throws after the merged array was assigned, so the page is left with
    every entry of the file before its own records, unfiltered, nothing
    is saved, and the failure notification is shown. *)
Theorem import_of_null_entry_leaves_the_merge (quota_ok : bool)
  (incoming : list Entry) (a : App)
  (Hnull : In NullEntry incoming) :
  importData quota_ok (Parsed (Some incoming)) a
  = Unfiltered (incoming ++ map Rec (app_patients a))
      (mkApp (app_patients a) (currentUser a) (local_storage a)
         (notifications a ++ ["Failed to import data: Invalid format"])).
Proof.
  unfold importData. cbv zeta.
  rewrite remove_duplicates_null; [reflexivity|].
  apply in_or_app. left. exact Hnull.
Qed.

Lemma import_of_null_entry_leaves_the_merge_witness :
  exists page,
    importData true (Parsed (Some [NullEntry])) (app_with [patient_B])
    = Unfiltered [NullEntry; Rec patient_B] page
    /\ local_storage page = Some [patient_B].
Proof.
  eexists. split.
  - apply (import_of_null_entry_leaves_the_merge true [NullEntry] (app_with [patient_B])).
    left. reflexivity.
  - reflexivity.
Defined.

(** ** Push notifications *)

Lemma or_string_not_empty (v : option string) (d : string) :
  d <> EmptyString -> or_string v d <> EmptyString.
Proof.
  intro Hd. unfold or_string. destruct v as [s|]; [|exact Hd].
  destruct (s =? EmptyString) eqn:Hs; [exact Hd|].
  apply String.eqb_neq. exact Hs.
Qed.

Lemma or_string_twice (v : option string) (d : string) :
  d <> EmptyString -> or_string (Some (or_string v d)) d = or_string v d.
Proof.
  intro Hd. unfold or_string at 1.
  destruct (or_string v d =? EmptyString) eqn:H; [|reflexivity].
  apply String.eqb_eq in H. exfalso. exact (or_string_not_empty v d Hd H).
Qed.

(** X26: a shown notification is complete and its click opens a page.
    Whenever the push listener shows a notification, its title, body and
    icon are not empty; a click on it or on its View action opens the
    pushed URL when the payload has a non-empty one and the start page
    otherwise; any other action opens nothing. *)
Theorem clicked_notification_opens_a_page (d : PushData) (n : Notification)
  (action : string)
  (Hshown : on_push d = Some n) :
  n_title n <> EmptyString /\ n_body n <> EmptyString /\ n_icon n <> EmptyString
  /\ (exists data,
        push_fields d = Some data
        /\ on_notificationclick "view" n = Some (or_string (push_url data) "/")
        /\ on_notificationclick EmptyString n = Some (or_string (push_url data) "/"))
  /\ (action <> "view" -> action <> EmptyString ->
        on_notificationclick action n = None).
Proof.
  unfold on_push in Hshown.
  destruct (push_fields d) as [data|] eqn:Hdata; [|discriminate].
  injection Hshown as <-. cbn [n_title n_body n_icon n_data].
  split; [apply or_string_not_empty; discriminate|].
  split; [apply or_string_not_empty; discriminate|].
  split; [apply or_string_not_empty; discriminate|].
  split.
  - exists data. split; [reflexivity|].
    unfold on_notificationclick. cbn [n_data String.eqb Ascii.eqb Bool.eqb orb].
    rewrite or_string_twice by discriminate. split; reflexivity.
  - intros Hview Hclick. unfold on_notificationclick.
    apply String.eqb_neq in Hview, Hclick. rewrite Hview, Hclick. reflexivity.
Qed.

Lemma clicked_notification_opens_a_page_witness :
  exists n,
    on_push Malformed = Some n
    /\ n_title n <> EmptyString
    /\ on_notificationclick "dismiss" n = None.
Proof.
  eexists. split; [reflexivity|].
  destruct (clicked_notification_opens_a_page Malformed _ "dismiss" eq_refl)
    as (Htitle & _ & _ & _ & Hother).
  split; [exact Htitle|]. apply Hother; discriminate.
Defined.
